(** * Hybrid retrieval and knowledge-graph core of finrisk_ai

    A shallow embedding of [finrisk_ai/rag/hybrid_search.py] and
    [finrisk_ai/rag/graph_rag.py].

    Conventions of the embedding

    - Python floats are modelled by exact rationals [Q]; rounding, NaN and
      infinities are outside the model.
    - Python [int] arguments ([k], [top_k], [max_depth], [max_paths]) are [Z].
    - Python [dict] is insertion ordered; it is modelled by an association
      list whose update keeps the position of an existing key.
    - A raised exception is a value of [exn]; fallible code returns [result].
    - The engine object is threaded explicitly through a small state and
      error monad [M].
    - numpy, rank_bm25 and networkx are libraries the program calls; the
      parts the program uses are modelled after their documented behaviour
      in the modules [Numpy], [RankBM25] and [Networkx].
    - [np.argsort] leaves the order of equal values open: the program is
      modelled over every [argsort] that sorts, and what is proved of the
      searches is proved for each of them. *)

From Stdlib Require Import String Ascii List Bool Arith ZArith QArith Lia.
From Stdlib Require Import Permutation Sorted.
Import ListNotations.

Local Open Scope string_scope.
Local Open Scope list_scope.
Local Open Scope Z_scope.

(** ** Exceptions and results *)

Inductive exn : Type :=
| ValueError (msg : string)
| ZeroDivisionError
| IndexError
| KeyError (key : string)
| TypeError (msg : string)
| NodeNotFound (node : string)
| NetworkXError (msg : string).

Inductive result (A : Type) : Type :=
| Ok (a : A)
| Raise (e : exn).

Arguments Ok {A} a.
Arguments Raise {A} e.

Definition rbind {A B : Type} (r : result A) (f : A -> result B) : result B :=
  match r with
  | Ok a => f a
  | Raise e => Raise e
  end.

Fixpoint rmap {A B : Type} (f : A -> result B) (l : list A) : result (list B) :=
  match l with
  | [] => Ok []
  | x :: t => rbind (f x) (fun y => rbind (rmap f t) (fun ys => Ok (y :: ys)))
  end.

(** ** Python built-ins *)

Module Py.

(** [l[:n]]: the first [n] items, or all but the last [-n] when [n < 0]. *)
Definition slice_to {A : Type} (n : Z) (l : list A) : list A :=
  if 0 <=? n then firstn (Z.to_nat n) l
  else firstn (length l - Z.to_nat (- n)) l.

(** [a / b] on floats: raises on a zero divisor. *)
Definition truediv (a b : Q) : result Q :=
  if Qeq_bool b 0 then Raise ZeroDivisionError else Ok (a / b)%Q.

Section Sorted.
Context {A : Type}.
(** [leb x y] reads: [x] may stand before [y]. *)
Variable leb : A -> A -> bool.

(** [x] goes in front of the first item it may stand before, hence in
    front of every item of equal key already placed. *)
Fixpoint insert_stable (x : A) (l : list A) : list A :=
  match l with
  | [] => [x]
  | y :: t => if leb x y then x :: l else y :: insert_stable x t
  end.

(** [sorted(l, key=...)] and [list.sort]: the stable sort. Items are
    placed from the last to the first, so that items of equal key keep
    their input order. *)
Definition stable_sort (l : list A) : list A := fold_right insert_stable [] l.
End Sorted.

(** [sorted(l, key=key, reverse=True)]: descending by key; Python keeps the
    input order of items with equal keys under [reverse=True] too. *)
Definition sorted_desc {A : Type} (key : A -> Q) (l : list A) : list A :=
  stable_sort (fun x y => Qle_bool (key y) (key x)) l.

(** [sorted(l, key=key)] with a natural-number key. *)
Definition sorted_asc_nat {A : Type} (key : A -> nat) (l : list A) : list A :=
  stable_sort (fun x y => Nat.leb (key x) (key y)) l.

End Py.

(** ** Insertion-ordered dictionaries with string keys *)

Module Dict.

Definition t (V : Type) : Type := list (string * V).

Definition empty {V : Type} : t V := [].

(** [d.get(k)] *)
Fixpoint get {V : Type} (d : t V) (k : string) : option V :=
  match d with
  | [] => None
  | (k', v) :: r => if String.eqb k' k then Some v else get r k
  end.

(** [d.get(k, dflt)] *)
Definition get_default {V : Type} (d : t V) (k : string) (dflt : V) : V :=
  match get d k with Some v => v | None => dflt end.

(** [k in d] *)
Definition mem {V : Type} (d : t V) (k : string) : bool :=
  match get d k with Some _ => true | None => false end.

(** [d[k] = v]: an existing key keeps its position, a new key goes last. *)
Fixpoint set {V : Type} (d : t V) (k : string) (v : V) : t V :=
  match d with
  | [] => [(k, v)]
  | (k', v') :: r =>
      if String.eqb k' k then (k', v) :: r else (k', v') :: set r k v
  end.

(** [d[k]] *)
Definition getitem {V : Type} (d : t V) (k : string) : result V :=
  match get d k with Some v => Ok v | None => Raise (KeyError k) end.

Definition keys {V : Type} (d : t V) : list string := map fst d.
Definition values {V : Type} (d : t V) : list V := map snd d.
Definition items {V : Type} (d : t V) : list (string * V) := d.

End Dict.

(** ** Python strings (byte strings: the model covers ASCII text) *)

Module Str.

Definition lower_ascii (c : ascii) : ascii :=
  let n := nat_of_ascii c in
  if (65 <=? n)%nat && (n <=? 90)%nat then ascii_of_nat (n + 32) else c.

(** [s.lower()] *)
Fixpoint lower (s : string) : string :=
  match s with
  | EmptyString => EmptyString
  | String c r => String (lower_ascii c) (lower r)
  end.

(** [c.isspace()] on ASCII: tab, line feed, vertical tab, form feed,
    carriage return, the four separators 28..31 and the blank. *)
Definition is_space (c : ascii) : bool :=
  let n := nat_of_ascii c in
  ((9 <=? n)%nat && (n <=? 13)%nat) || ((28 <=? n)%nat && (n <=? 32)%nat).

Definition is_empty (s : string) : bool :=
  match s with EmptyString => true | _ => false end.

Fixpoint split_from (cur : string) (s : string) : list string :=
  match s with
  | EmptyString => if is_empty cur then [] else [cur]
  | String c r =>
      if is_space c
      then (if is_empty cur then split_from "" r else cur :: split_from "" r)
      else split_from (cur ++ String c "") r
  end.

(** [s.split()]: the maximal runs of non-blank characters. *)
Definition split (s : string) : list string := split_from "" s.

(** [sub in s] *)
Fixpoint contains (sub s : string) : bool :=
  String.prefix sub s ||
  match s with
  | EmptyString => false
  | String _ r => contains sub r
  end.

(** [sep.join(parts)] *)
Fixpoint join (sep : string) (parts : list string) : string :=
  match parts with
  | [] => ""
  | [p] => p
  | p :: r => p ++ sep ++ join sep r
  end.

End Str.

(** ** numpy: the array operations the engine calls *)

Module Numpy.
Local Open Scope Q_scope.

(** [np.dot(u, v)] on two vectors. *)
Fixpoint dot (u v : list Q) : Q :=
  match u, v with
  | x :: u', y :: v' => x * y + dot u' v'
  | _, _ => 0
  end.

(** [np.argsort(a)] returns indices that sort [a] ascending. With the
    default [kind='quicksort'] numpy promises no order among equal values,
    and the sort it runs depends on the length and the type of the array
    and on the processor. So the program is modelled over every function
    [argsort] that does what numpy promises: each index once, values never
    falling along the result. *)
Definition is_argsort (argsort : list Q -> list nat) : Prop :=
  forall a,
    Permutation (argsort a) (seq 0 (List.length a)) /\
    StronglySorted (fun i j => nth i a 0 <= nth j a 0) (argsort a).

(** One such function: the argsort that leaves equal values in index
    order. numpy's portable quicksort sorts parts of at most 16 items by
    insertion, which does so. *)
Definition stable_argsort (a : list Q) : list nat :=
  Py.stable_sort (fun i j => Qle_bool (nth i a 0) (nth j a 0))
                 (seq 0 (List.length a)).

(** [a[idx]] *)
Definition getitem {A : Type} (a : list A) (idx : nat) : result A :=
  match nth_error a idx with
  | Some x => Ok x
  | None => Raise IndexError
  end.

(** [x + y] on two arrays of one shape. *)
Fixpoint add (x y : list Q) : list Q :=
  match x, y with
  | a :: x', b :: y' => (a + b) :: add x' y'
  | _, _ => []
  end.

End Numpy.

(** ** rank_bm25: [BM25Okapi] *)

Module RankBM25.
Local Open Scope Q_scope.

Record BM25Okapi : Type := {
  corpus_size : nat;
  avgdl : Q;
  doc_freqs : list (Dict.t Z);
  idf : Dict.t Q;
  doc_len : list nat;
  k1 : Q;
  b : Q;
  epsilon : Q
}.

(** The term counts of one tokenised document. *)
Definition frequencies (document : list string) : Dict.t Z :=
  fold_left (fun fr word => Dict.set fr word (Dict.get_default fr word 0%Z + 1)%Z)
            document Dict.empty.

(** [nd[word] += 1] for every distinct word of one document. *)
Definition count_document (nd : Dict.t Z) (fr : Dict.t Z) : Dict.t Z :=
  fold_left (fun nd wf => Dict.set nd (fst wf) (Dict.get_default nd (fst wf) 0%Z + 1)%Z)
            (Dict.items fr) nd.

Definition num_doc (corpus : list (list string)) : nat :=
  fold_left (fun n document => (n + List.length document)%nat) corpus 0%nat.

Section Idf.
(** [math.log] *)
Variable ln : Q -> Q.

(** One pass of [_calc_idf] over [nd.items()]: the idf table, the running
    sum and the words of negative idf. *)
Definition idf_pass (n : nat) (nd : Dict.t Z) : Dict.t Q * Q * list string :=
  fold_left
    (fun (acc : Dict.t Q * Q * list string) (wf : string * Z) =>
       let '(tbl, idf_sum, negative_idfs) := acc in
       let i := ln (inject_Z (Z.of_nat n) - inject_Z (snd wf) + (1 # 2))
                - ln (inject_Z (snd wf) + (1 # 2)) in
       (Dict.set tbl (fst wf) i,
        idf_sum + i,
        if Qlt_le_dec i 0 then negative_idfs ++ [fst wf] else negative_idfs))
    (Dict.items nd) (Dict.empty, 0, []).

(** [BM25Okapi(corpus)] with the default [k1], [b] and [epsilon].
    [_initialize] divides by the corpus size and [_calc_idf] by the
    vocabulary size; either raises when it is zero. *)
Definition make (corpus : list (list string)) : result BM25Okapi :=
  let dl := map (@List.length string) corpus in
  let fr := map frequencies corpus in
  let nd := fold_left count_document fr Dict.empty in
  let n := List.length corpus in
  rbind (Py.truediv (inject_Z (Z.of_nat (num_doc corpus))) (inject_Z (Z.of_nat n)))
    (fun avg =>
       let '(tbl, idf_sum, negative_idfs) := idf_pass n nd in
       rbind (Py.truediv idf_sum (inject_Z (Z.of_nat (List.length tbl))))
         (fun average_idf =>
            let eps := (1 # 4) * average_idf in
            Ok {| corpus_size := n;
                  avgdl := avg;
                  doc_freqs := fr;
                  idf := fold_left (fun t w => Dict.set t w eps) negative_idfs tbl;
                  doc_len := dl;
                  k1 := 3 # 2;
                  b := 3 # 4;
                  epsilon := 1 # 4 |})).
End Idf.

(** The contribution of query term [q] to one document:
    [idf * (f * (k1 + 1) / (f + k1 * (1 - b + b * dl / avgdl)))],
    with [f = doc.get(q) or 0] and [idf = self.idf.get(q) or 0]. *)
Definition term_score (m : BM25Okapi) (q : string) (fd : Dict.t Z * nat) : Q :=
  let f := inject_Z (Dict.get_default (fst fd) q 0%Z) in
  Dict.get_default (idf m) q 0
  * (f * (k1 m + 1)
     / (f + k1 m * (1 - b m + b m * inject_Z (Z.of_nat (snd fd)) / avgdl m))).

(** [get_scores(query)]: one score per document, in corpus order. *)
Definition get_scores (m : BM25Okapi) (query : list string) : list Q :=
  fold_left
    (fun score q =>
       Numpy.add score (map (term_score m q) (combine (doc_freqs m) (doc_len m))))
    query (repeat 0 (corpus_size m)).

End RankBM25.

(** ** hybrid_search.py *)

Record Document : Type := {
  content : string;
  metadata : Dict.t string;
  doc_id : string;
  score : Q;
  source : string
}.

(** The keys of [retrieval_metadata]. *)
Record RetrievalMetadata : Type := {
  meta_query : string;
  total_documents : nat;
  dense_retrieved : nat;
  sparse_retrieved : nat;
  fused_candidates : nat;
  final_count : nat
}.

Record RetrievalResult : Type := {
  res_documents : list Document;
  dense_scores : list Q;
  sparse_scores : list Q;
  fusion_scores : list Q;
  rerank_scores : list Q;
  retrieval_metadata : RetrievalMetadata
}.

(** The fields of a [HybridSearchEngine] that the methods read and write;
    [None] is Python's [None]. *)
Record Engine : Type := {
  documents : list Document;
  embeddings : option (list (list Q));
  bm25 : option RankBM25.BM25Okapi
}.

(** The engine as [__init__] leaves it. *)
Definition new_engine : Engine :=
  {| documents := []; embeddings := None; bm25 := None |}.

(** Methods run on an object of type [S]: a state and error monad. An
    exception leaves the object as it was when raised. *)
Definition M (S A : Type) : Type := S -> result A * S.

Definition ret {S A : Type} (a : A) : M S A := fun s => (Ok a, s).

Definition bind {S A B : Type} (m : M S A) (f : A -> M S B) : M S B :=
  fun s => match m s with
           | (Ok a, s') => f a s'
           | (Raise e, s') => (Raise e, s')
           end.

Definition raise {S A : Type} (e : exn) : M S A := fun s => (Raise e, s).
Definition get_self {S : Type} : M S S := fun s => (Ok s, s).
Definition put_self {S : Type} (s : S) : M S unit := fun _ => (Ok tt, s).
Definition lift {S A : Type} (r : result A) : M S A := fun s => (r, s).

Declare Scope monad_scope.
Delimit Scope monad_scope with monad.
Notation "x <- m ;; k" := (bind m (fun x => k))
  (at level 61, m at next level, right associativity) : monad_scope.
Notation "m ;; k" := (bind m (fun _ => k))
  (at level 61, right associativity) : monad_scope.

Definition not_indexed : exn :=
  ValueError "Documents not indexed. Call index_documents() first.".

Definition doc_ids (l : list (Document * Q)) : list string :=
  map (fun p => doc_id (fst p)) l.

(** One loop of [reciprocal_rank_fusion]:
    [for rank, (doc, _) in enumerate(results, start=rank): ...] *)
Fixpoint rrf_accumulate (k rank : Z) (results : list (Document * Q))
    (doc_scores : Dict.t Q) : result (Dict.t Q) :=
  match results with
  | [] => Ok doc_scores
  | (doc, _) :: rest =>
      rbind (Py.truediv 1 (inject_Z (k + rank)))
        (fun c =>
           rrf_accumulate k (rank + 1) rest
             (Dict.set doc_scores (doc_id doc)
                (Dict.get_default doc_scores (doc_id doc) 0 + c)%Q))
  end.

(** [{doc.doc_id: doc for doc, _ in results}] *)
Definition doc_lookup (results : list (Document * Q)) : Dict.t Document :=
  fold_left (fun d p => Dict.set d (doc_id (fst p)) (fst p)) results Dict.empty.

Definition reciprocal_rank_fusion (dense_results sparse_results : list (Document * Q))
    (k : Z) : result (list (Document * Q)) :=
  rbind (rrf_accumulate k 1 dense_results Dict.empty) (fun doc_scores =>
  rbind (rrf_accumulate k 1 sparse_results doc_scores) (fun doc_scores =>
  let all_docs := doc_lookup (dense_results ++ sparse_results) in
  let sorted_docs := Py.sorted_desc snd (Dict.items doc_scores) in
  rmap (fun p : string * Q =>
          rbind (Dict.getitem all_docs (fst p)) (fun d => Ok (d, snd p)))
       sorted_docs)).

(** The default [k]. *)
Definition rrf_default_k : Z := 60.

Section Engine.
Local Open Scope monad_scope.

(** [SentenceTransformer.encode] on one text. *)
Variable encode : string -> list Q.
(** [np.linalg.norm] on one vector. *)
Variable norm : list Q -> Q.
(** [CrossEncoder.predict] on one (query, text) pair. *)
Variable predict : string -> string -> Q.
(** [math.log] *)
Variable ln : Q -> Q.
(** [np.argsort] *)
Variable argsort : list Q -> list nat.

Definition index_documents (docs : list Document) : M Engine unit :=
  self <- get_self ;;
  put_self {| documents := docs;
              embeddings := embeddings self;
              bm25 := bm25 self |} ;;
  let contents := map content docs in
  self <- get_self ;;
  put_self {| documents := documents self;
              embeddings := Some (map encode contents);
              bm25 := bm25 self |} ;;
  let tokenized_corpus := map (fun doc => Str.split (Str.lower (content doc))) docs in
  index <- lift (RankBM25.make ln tokenized_corpus) ;;
  self <- get_self ;;
  put_self {| documents := documents self;
              embeddings := embeddings self;
              bm25 := Some index |}.

(** [np.dot(E, q) / (np.linalg.norm(E, axis=1) * np.linalg.norm(q))]. Where
    a norm is 0 numpy divides by zero without raising and yields [nan] or
    [inf], which the rationals do not have: what is stated about scores is
    stated for norms other than 0. *)
Definition cosine_similarities (E : list (list Q)) (query_embedding : list Q) : list Q :=
  map (fun e => (Numpy.dot e query_embedding / (norm e * norm query_embedding))%Q) E.

(** [np.argsort(a)[::-1][:top_k]] *)
Definition top_indices (a : list Q) (top_k : Z) : list nat :=
  Py.slice_to top_k (rev (argsort a)).

Definition dense_search (query : string) (top_k : Z) : M Engine (list (Document * Q)) :=
  self <- get_self ;;
  match embeddings self with
  | None => raise not_indexed
  | Some E =>
      let query_embedding := encode query in
      let similarities := cosine_similarities E query_embedding in
      lift (rmap (fun idx =>
                    rbind (Numpy.getitem (documents self) idx) (fun d =>
                    rbind (Numpy.getitem similarities idx) (fun s => Ok (d, s))))
                 (top_indices similarities top_k))
  end.

(** [[(docs[idx], scores[idx]) for idx in idxs if scores[idx] > 0]] *)
Fixpoint positive_results (docs : list Document) (scores : list Q)
    (idxs : list nat) : result (list (Document * Q)) :=
  match idxs with
  | [] => Ok []
  | idx :: rest =>
      rbind (Numpy.getitem scores idx) (fun s =>
        if Qlt_le_dec 0 s
        then rbind (Numpy.getitem docs idx) (fun d =>
             rbind (positive_results docs scores rest) (fun r => Ok ((d, s) :: r)))
        else positive_results docs scores rest)
  end.

Definition sparse_search (query : string) (top_k : Z) : M Engine (list (Document * Q)) :=
  self <- get_self ;;
  match bm25 self with
  | None => raise not_indexed
  | Some index =>
      let tokenized_query := Str.split (Str.lower query) in
      let scores := RankBM25.get_scores index tokenized_query in
      results <- lift (positive_results (documents self) scores
                         (top_indices scores top_k)) ;;
      ret (Py.slice_to top_k results)
  end.

Definition rerank (query : string) (candidates : list (Document * Q)) (top_k : Z)
    : list (Document * Q) :=
  let pairs := map (fun c => (query, content (fst c))) candidates in
  let rerank_scores := map (fun p => predict (fst p) (snd p)) pairs in
  let reranked := map (fun cs => (fst (fst cs), snd cs)) (combine candidates rerank_scores) in
  Py.slice_to top_k (Py.sorted_desc snd reranked).

Definition advanced_rag_pipeline (user_query : string)
    (top_k_dense top_k_sparse top_k_final : Z) : M Engine RetrievalResult :=
  dense_results <- dense_search user_query top_k_dense ;;
  sparse_results <- sparse_search user_query top_k_sparse ;;
  fused_results <- lift (reciprocal_rank_fusion dense_results sparse_results rrf_default_k) ;;
  let reranked_results := rerank user_query fused_results top_k_final in
  let final_documents := map fst reranked_results in
  self <- get_self ;;
  ret {| res_documents := final_documents;
         dense_scores := map snd (Py.slice_to top_k_final dense_results);
         sparse_scores := map snd (Py.slice_to top_k_final sparse_results);
         fusion_scores := map snd (Py.slice_to top_k_final fused_results);
         rerank_scores := map snd reranked_results;
         retrieval_metadata :=
           {| meta_query := user_query;
              total_documents := List.length (documents self);
              dense_retrieved := List.length dense_results;
              sparse_retrieved := List.length sparse_results;
              fused_candidates := List.length fused_results;
              final_count := List.length final_documents |} |}.

End Engine.

(** ** networkx: [DiGraph] and [all_simple_paths] *)

Module Networkx.

(** The attribute dictionary of an edge. The program always stores
    ['relationship'] and ['weight']; [ed_extra] holds what the edge's
    metadata added. *)
Record EdgeData : Type := {
  ed_relationship : string;
  ed_weight : Q;
  ed_extra : Dict.t string
}.

(** [_node]: the attributes of every node; [_adj]: for every node its
    successors, in the order their first edge was added. *)
Record DiGraph : Type := {
  node : Dict.t (Dict.t string);
  adj : Dict.t (Dict.t EdgeData)
}.

Definition empty : DiGraph := {| node := []; adj := [] |}.

(** [n in G] *)
Definition has_node (G : DiGraph) (n : string) : bool := Dict.mem (node G) n.

(** [d.update(attr)] *)
Definition update {V : Type} (d attr : Dict.t V) : Dict.t V :=
  fold_left (fun d kv => Dict.set d (fst kv) (snd kv)) attr d.

(** [G.add_node(n, **attr)] *)
Definition add_node (G : DiGraph) (n : string) (attr : Dict.t string) : DiGraph :=
  if has_node G n
  then {| node := Dict.set (node G) n (update (Dict.get_default (node G) n []) attr);
          adj := adj G |}
  else {| node := Dict.set (node G) n attr;
          adj := Dict.set (adj G) n [] |}.

(** The first lines of [add_edge]: a missing end point becomes a node
    without attributes. *)
Definition ensure_node (G : DiGraph) (n : string) : DiGraph :=
  if has_node G n then G
  else {| node := Dict.set (node G) n []; adj := Dict.set (adj G) n [] |}.

(** [G.add_edge(u, v, **attr)]: the attributes of an edge already there are
    updated in place. *)
Definition add_edge (G : DiGraph) (u v : string) (attr : EdgeData) : DiGraph :=
  let G := ensure_node (ensure_node G u) v in
  let succ_u := Dict.get_default (adj G) u [] in
  let datadict :=
    match Dict.get succ_u v with
    | Some old => {| ed_relationship := ed_relationship attr;
                     ed_weight := ed_weight attr;
                     ed_extra := update (ed_extra old) (ed_extra attr) |}
    | None => attr
    end in
  {| node := node G; adj := Dict.set (adj G) u (Dict.set succ_u v datadict) |}.

(** The successors of [n], in adjacency order; none for an unknown node. *)
Definition successors (G : DiGraph) (n : string) : list string :=
  Dict.keys (Dict.get_default (adj G) n []).

(** [G.neighbors(n)] *)
Definition neighbors (G : DiGraph) (n : string) : result (list string) :=
  match Dict.get (adj G) n with
  | Some nbrs => Ok (Dict.keys nbrs)
  | None => Raise (NetworkXError "The node is not in the digraph.")
  end.

(** [G[u][v]] *)
Definition edge_data (G : DiGraph) (u v : string) : result EdgeData :=
  rbind (Dict.getitem (adj G) u) (fun nbrs => Dict.getitem nbrs v).

(** [G.has_edge(u, v)] *)
Definition has_edge (G : DiGraph) (u v : string) : bool :=
  match Dict.get (adj G) u with
  | Some nbrs => Dict.mem nbrs v
  | None => false
  end.

(** [G.number_of_nodes()] *)
Definition number_of_nodes (G : DiGraph) : nat := List.length (node G).

Definition mem_string (x : string) (l : list string) : bool :=
  existsb (String.eqb x) l.

(** The depth-first search of [all_simple_paths]: [v] has just been
    reached along [path] (most recent node first, [v] not on it). Reaching
    the target yields the path and stops that branch; otherwise the search
    goes on through the successors not yet on the path while the path has
    fewer than [cutoff] edges ([budget] counts the edges left). *)
Fixpoint simple_paths_from (G : DiGraph) (target : string) (budget : nat)
    (path : list string) (v : string) : list (list string) :=
  if String.eqb v target then [rev (v :: path)]
  else
    match budget with
    | O => []
    | S budget' =>
        flat_map
          (fun w =>
             if mem_string w (v :: path) then []
             else simple_paths_from G target budget' (v :: path) w)
          (successors G v)
    end.

(** [list(nx.all_simple_paths(G, source, target, cutoff))]: every simple
    path of at most [cutoff] edges, in depth-first order; the single-node
    path when [source] is [target]. An end point that is no node of [G]
    raises [NodeNotFound]. *)
Definition all_simple_paths (G : DiGraph) (source target : string) (cutoff : Z)
    : result (list (list string)) :=
  if negb (has_node G source) then Raise (NodeNotFound source)
  else if negb (has_node G target) then Raise (NodeNotFound target)
  else if cutoff <? 0 then Ok []
  else Ok (simple_paths_from G target (Z.to_nat cutoff) [] source).

End Networkx.

(** ** graph_rag.py *)

Inductive RelationshipType : Type :=
| AFFECTS
| CORRELATES_WITH
| COMPONENT_OF
| DERIVED_FROM
| INVERSE_OF
| CAUSES
| INFLUENCES.

(** [r.value] *)
Definition value (r : RelationshipType) : string :=
  match r with
  | AFFECTS => "affects"
  | CORRELATES_WITH => "correlates_with"
  | COMPONENT_OF => "component_of"
  | DERIVED_FROM => "derived_from"
  | INVERSE_OF => "inverse_of"
  | CAUSES => "causes"
  | INFLUENCES => "influences"
  end.

Definition all_relationship_types : list RelationshipType :=
  [AFFECTS; CORRELATES_WITH; COMPONENT_OF; DERIVED_FROM; INVERSE_OF; CAUSES; INFLUENCES].

(** [RelationshipType(v)]: the member of that value. *)
Definition relationship_of_value (v : string) : result RelationshipType :=
  match find (fun r => String.eqb (value r) v) all_relationship_types with
  | Some r => Ok r
  | None => Raise (ValueError "not a valid RelationshipType")
  end.

Record GraphNode : Type := {
  node_id : string;
  entity_type : string;
  name : string;
  description : string;
  node_metadata : Dict.t string
}.

Record GraphEdge : Type := {
  source_id : string;
  target_id : string;
  relationship : RelationshipType;
  weight : Q;
  edge_metadata : Dict.t string
}.

Record GraphContext : Type := {
  ctx_nodes : list GraphNode;
  ctx_edges : list GraphEdge;
  ctx_paths : list (list string);
  subgraph_description : string
}.

(** The fields of a [GraphRAG] object. *)
Record GraphRAG : Type := {
  graph : Networkx.DiGraph;
  nodes : Dict.t GraphNode
}.

(** The object as [__init__] leaves it. *)
Definition new_graph_rag : GraphRAG := {| graph := Networkx.empty; nodes := [] |}.

(** A keyword passed both by name and through [**metadata] is a
    [TypeError] of the call. The names taken are the parameters of the
    networkx method, [self] among them ([add_node(self, node_for_adding,
    **attr)], [add_edge(self, u_of_edge, v_of_edge, **attr)]), and the
    keywords the caller writes out. *)
Definition keyword_clash (named : list string) (metadata : Dict.t string) : bool :=
  existsb (fun k => Networkx.mem_string k named) (Dict.keys metadata).

Section GraphRAG.
Local Open Scope monad_scope.

Definition add_node (n : GraphNode) : M GraphRAG unit :=
  self <- get_self ;;
  put_self {| graph := graph self; nodes := Dict.set (nodes self) (node_id n) n |} ;;
  self <- get_self ;;
  if keyword_clash ["self"; "node_for_adding"; "entity_type"; "name"; "description"]
                   (node_metadata n)
  then raise (TypeError "got multiple values for keyword argument")
  else
    put_self {| graph := Networkx.add_node (graph self) (node_id n)
                           (Networkx.update
                              [("entity_type", entity_type n); ("name", name n);
                               ("description", description n)]
                              (node_metadata n));
                nodes := nodes self |}.

Definition add_edge (e : GraphEdge) : M GraphRAG unit :=
  self <- get_self ;;
  if keyword_clash ["self"; "u_of_edge"; "v_of_edge"; "relationship"; "weight"]
                   (edge_metadata e)
  then raise (TypeError "got multiple values for keyword argument")
  else
    put_self {| graph := Networkx.add_edge (graph self) (source_id e) (target_id e)
                           {| Networkx.ed_relationship := value (relationship e);
                              Networkx.ed_weight := weight e;
                              Networkx.ed_extra := edge_metadata e |};
                nodes := nodes self |}.
End GraphRAG.

Definition find_node_by_name (self : GraphRAG) (nm : string) : option GraphNode :=
  find (fun n => String.eqb (Str.lower (name n)) (Str.lower nm))
       (Dict.values (nodes self)).

(** The variables of the search loop of [find_related_nodes]. The two Python
    sets are kept as lists in insertion order; an id is added only when it
    is not yet a member. *)
Record bfs_state : Type := {
  queue : list (string * Z);
  visited : list string;
  related_ids : list string
}.

(** [relationship_type and edge_data['relationship'] != relationship_type.value] *)
Definition filtered_out (relationship_type : option RelationshipType)
    (edge_data : Networkx.EdgeData) : bool :=
  match relationship_type with
  | Some r => negb (String.eqb (Networkx.ed_relationship edge_data) (value r))
  | None => false
  end.

(** One turn of [for neighbor in self.graph.neighbors(current_id)]. *)
Definition visit_neighbor (G : Networkx.DiGraph)
    (relationship_type : option RelationshipType) (current_id : string) (depth : Z)
    (st : result bfs_state) (neighbor : string) : result bfs_state :=
  rbind st (fun st =>
    if Networkx.mem_string neighbor (visited st) then Ok st
    else
      rbind (Networkx.edge_data G current_id neighbor) (fun edge_data =>
        if filtered_out relationship_type edge_data then Ok st
        else Ok {| queue := queue st ++ [(neighbor, depth + 1)];
                   visited := visited st ++ [neighbor];
                   related_ids := related_ids st ++ [neighbor] |})).

(** [while queue: ...]; [None] when [fuel] turns do not empty the queue. *)
Fixpoint bfs_loop (fuel : nat) (G : Networkx.DiGraph)
    (relationship_type : option RelationshipType) (max_depth : Z)
    (st : bfs_state) : option (result bfs_state) :=
  match queue st with
  | [] => Some (Ok st)
  | (current_id, depth) :: rest =>
      match fuel with
      | O => None
      | S fuel' =>
          let st := {| queue := rest; visited := visited st;
                       related_ids := related_ids st |} in
          if max_depth <=? depth
          then bfs_loop fuel' G relationship_type max_depth st
          else
            match Networkx.neighbors G current_id with
            | Raise e => Some (Raise e)
            | Ok nbrs =>
                match fold_left (visit_neighbor G relationship_type current_id depth)
                                nbrs (Ok st) with
                | Raise e => Some (Raise e)
                | Ok st' => bfs_loop fuel' G relationship_type max_depth st'
                end
            end
      end
  end.

(** [[self.nodes[nid] for nid in ids if nid in self.nodes]] *)
Definition known_nodes (self : GraphRAG) (ids : list string) : list GraphNode :=
  flat_map (fun nid => match Dict.get (nodes self) nid with
                       | Some n => [n]
                       | None => []
                       end) ids.

(** The order of the returned list is the iteration order of a Python set,
    which the language leaves open; here it is the order of discovery. Every
    turn of the loop takes one id from the queue and an id enters the queue
    at most once, so as many turns as the graph has nodes empty the queue. *)
Definition find_related_nodes (self : GraphRAG) (nid : string)
    (relationship_type : option RelationshipType) (max_depth : Z)
    : option (result (list GraphNode)) :=
  if negb (Networkx.has_node (graph self) nid) then Some (Ok [])
  else
    match bfs_loop (Networkx.number_of_nodes (graph self)) (graph self)
                   relationship_type max_depth
                   {| queue := [(nid, 0)]; visited := [nid]; related_ids := [] |} with
    | None => None
    | Some (Raise e) => Some (Raise e)
    | Some (Ok st) => Some (Ok (known_nodes self (related_ids st)))
    end.

Definition find_related_nodes_default_depth : Z := 2.

(** [all_simple_paths] yields nothing when there is no path and raises no
    [NetworkXNoPath], so the handler of the source is never entered; an end
    point that is no node of the graph is answered before the call. *)
Definition find_paths (self : GraphRAG) (source target : string) (max_paths : Z)
    : result (list (list string)) :=
  if negb (Networkx.has_node (graph self) source)
     || negb (Networkx.has_node (graph self) target)
  then Ok []
  else
    rbind (Networkx.all_simple_paths (graph self) source target 4) (fun all_paths =>
    Ok (Py.slice_to max_paths (Py.sorted_asc_nat (@List.length string) all_paths))).

Definition find_paths_default_max_paths : Z := 3.

(** [any(token in node.name.lower() for token in query_tokens)] *)
Definition node_matches (query_tokens : list string) (n : GraphNode) : bool :=
  existsb (fun token => Str.contains token (Str.lower (name n))) query_tokens.

(** The body of the inner loop of [query] for the pair [node1], [node2]. *)
Definition query_pair (self : GraphRAG) (node1 node2 : GraphNode)
    (acc : list GraphEdge * list (list string))
    : result (list GraphEdge * list (list string)) :=
  let '(relevant_edges, paths) := acc in
  rbind (find_paths self (node_id node1) (node_id node2) 2) (fun node_paths =>
  let paths := paths ++ node_paths in
  if Networkx.has_edge (graph self) (node_id node1) (node_id node2)
  then
    rbind (Networkx.edge_data (graph self) (node_id node1) (node_id node2))
      (fun edge_data =>
    rbind (relationship_of_value (Networkx.ed_relationship edge_data)) (fun r =>
    Ok (relevant_edges ++ [{| source_id := node_id node1;
                              target_id := node_id node2;
                              relationship := r;
                              weight := Networkx.ed_weight edge_data;
                              edge_metadata := [] |}],
        paths)))
  else Ok (relevant_edges, paths)).

(** [for node2 in matching_nodes[i+1:]: ...] *)
Fixpoint query_inner (self : GraphRAG) (node1 : GraphNode) (later : list GraphNode)
    (acc : list GraphEdge * list (list string))
    : result (list GraphEdge * list (list string)) :=
  match later with
  | [] => Ok acc
  | node2 :: rest =>
      rbind (query_pair self node1 node2 acc) (query_inner self node1 rest)
  end.

(** [for i, node1 in enumerate(matching_nodes): ...]; the slice
    [matching_nodes[i+1:]] is what follows [node1] in the list. *)
Fixpoint query_outer (self : GraphRAG) (matching_nodes : list GraphNode)
    (acc : list GraphEdge * list (list string))
    : result (list GraphEdge * list (list string)) :=
  match matching_nodes with
  | [] => Ok acc
  | node1 :: later =>
      rbind (query_inner self node1 later acc) (query_outer self later)
  end.

Definition describe_edge (self : GraphRAG) (e : GraphEdge) : result string :=
  rbind (Dict.getitem (nodes self) (source_id e)) (fun s =>
  rbind (Dict.getitem (nodes self) (target_id e)) (fun t =>
  Ok (name s ++ " " ++ value (relationship e) ++ " " ++ name t)%string)).

Definition describe_path (self : GraphRAG) (path : list string) : string :=
  Str.join " → " (map name (known_nodes self path)).

Definition is_nil {A : Type} (l : list A) : bool :=
  match l with [] => true | _ => false end.

Definition create_subgraph_description (self : GraphRAG) (ns : list GraphNode)
    (es : list GraphEdge) (paths : list (list string)) : result string :=
  let part_nodes :=
    if is_nil ns then []
    else [("Relevant entities: " ++ Str.join ", " (map name ns))%string] in
  rbind (if is_nil es then Ok []
         else rbind (rmap (describe_edge self) (Py.slice_to 5 es)) (fun ds =>
              Ok [("Relationships: " ++ Str.join "; " ds)%string])) (fun part_edges =>
  let part_paths :=
    if is_nil paths then []
    else [("Connection paths: "
           ++ Str.join "; " (map (describe_path self) (Py.slice_to 3 paths)))%string] in
  let description_parts := part_nodes ++ part_edges ++ part_paths in
  Ok (if is_nil description_parts then "No relevant context found"
      else Str.join ". " description_parts)).

Definition matching_nodes (self : GraphRAG) (q : string) (max_nodes : Z)
    : list GraphNode :=
  let query_tokens := Str.split (Str.lower q) in
  Py.slice_to max_nodes
    (filter (node_matches query_tokens) (Dict.values (nodes self))).

Definition query (self : GraphRAG) (q : string) (max_nodes : Z) : result GraphContext :=
  let ms := matching_nodes self q max_nodes in
  rbind (query_outer self ms ([], [])) (fun ep =>
  rbind (create_subgraph_description self ms (fst ep) (snd ep)) (fun d =>
  Ok {| ctx_nodes := ms;
        ctx_edges := fst ep;
        ctx_paths := snd ep;
        subgraph_description := d |})).

Definition query_default_max_nodes : Z := 10.

Definition mk_node (i t n d : string) (m : Dict.t string) : GraphNode :=
  {| node_id := i; entity_type := t; name := n; description := d; node_metadata := m |}.

Definition mk_edge (s t : string) (r : RelationshipType) (w : Q) (d : string) : GraphEdge :=
  {| source_id := s; target_id := t; relationship := r; weight := w;
     edge_metadata := [("description", d)] |}.

Definition build_financial_knowledge_graph : M GraphRAG unit :=
  (add_node (mk_node "var" "metric" "Value at Risk (VaR)"
               "Maximum expected loss at a confidence level"
               [("formula", "Formula 12"); ("category", "risk")]) ;;
   add_node (mk_node "volatility" "metric" "Volatility"
               "Standard deviation of returns"
               [("formula", "Formula 5"); ("category", "risk")]) ;;
   add_node (mk_node "sortino" "metric" "Sortino Ratio"
               "Risk-adjusted return using downside deviation"
               [("formula", "Formula 11"); ("category", "performance")]) ;;
   add_node (mk_node "sharpe" "metric" "Sharpe Ratio"
               "Risk-adjusted return using total volatility"
               [("formula", "Formula 6"); ("category", "performance")]) ;;
   add_node (mk_node "interest_rate" "economic_indicator" "Interest Rate"
               "Federal Reserve interest rate"
               [("category", "monetary_policy")]) ;;
   add_node (mk_node "inflation" "economic_indicator" "Inflation"
               "Rate of price increases"
               [("category", "economic")]) ;;
   add_node (mk_node "bonds" "asset" "Bonds"
               "Fixed income securities"
               [("category", "fixed_income")]) ;;
   add_node (mk_node "stocks" "asset" "Stocks"
               "Equity securities"
               [("category", "equity")]) ;;
   add_edge (mk_edge "volatility" "var" COMPONENT_OF (9 # 10)
               "Volatility is a key input to VaR calculation") ;;
   add_edge (mk_edge "volatility" "sharpe" COMPONENT_OF 1
               "Sharpe Ratio uses total volatility") ;;
   add_edge (mk_edge "interest_rate" "bonds" AFFECTS (95 # 100)
               "Interest rates inversely affect bond prices") ;;
   add_edge (mk_edge "interest_rate" "inflation" INFLUENCES (85 # 100)
               "Central banks use rates to control inflation") ;;
   add_edge (mk_edge "inflation" "stocks" AFFECTS (7 # 10)
               "Inflation affects corporate earnings and valuations"))%monad.

(** The graph [build_financial_knowledge_graph] leaves in a new object. *)
Definition financial_graph : GraphRAG := snd (build_financial_knowledge_graph new_graph_rag).

(** * Notions used in the statements *)

(** The position of the first [x] in [l], counted from 0; the length of [l]
    when there is none. *)
Fixpoint index_of (x : string) (l : list string) : nat :=
  match l with
  | [] => O
  | y :: t => if String.eqb y x then O else S (index_of x t)
  end.

(** The distinct ids of a list, in the order of their first appearance. *)
Definition first_seen (ids : list string) : list string :=
  fold_left (fun seen id => if Networkx.mem_string id seen then seen else seen ++ [id])
            ids [].

(** [1 / (k + rank)] as a rational. *)
Definition reciprocal_rank (k rank : Z) : Q := (1 / inject_Z (k + rank))%Q.

(** The sum of [1 / (k + rank)] over the positions [rank] of [results] that
    hold the document id [id], the first position being [rank]. *)
Fixpoint rrf_contrib (k rank : Z) (results : list (Document * Q)) (id : string) : Q :=
  match results with
  | [] => 0%Q
  | (d, _) :: t =>
      ((if String.eqb (doc_id d) id then reciprocal_rank k rank else 0)
       + rrf_contrib k (rank + 1) t id)%Q
  end.

(** The fused score the formula gives to [id]. *)
Definition rrf_score (k : Z) (dense sparse : list (Document * Q)) (id : string) : Q :=
  (rrf_contrib k 1 dense id + rrf_contrib k 1 sparse id)%Q.

(** The 1-based rank of [id] in a result list that holds it. *)
Definition rank_in (results : list (Document * Q)) (id : string) : Z :=
  Z.of_nat (S (index_of id (doc_ids results))).


(** [a] stands before [b] in a fused list: the score of [a] is at least that
    of [b], and on equal scores [a] was seen first in [order]. *)
Definition by_score_then_first_seen (order : list string) (a b : Document * Q) : Prop :=
  (snd b <= snd a)%Q /\
  ((snd a <= snd b)%Q ->
   (index_of (doc_id (fst a)) order < index_of (doc_id (fst b)) order)%nat).

(** A document with id [id] and nothing else. *)
Definition doc_of_id (id : string) : Document :=
  {| content := ""; metadata := []; doc_id := id; score := 0; source := "" |}.


(** The candidates with the score the pairwise scorer gives to
    (query, content), in their incoming order. *)
Definition rescored (predict : string -> string -> Q) (query : string)
    (candidates : list (Document * Q)) : list (Document * Q) :=
  map (fun c => (fst c, predict query (content (fst c)))) candidates.

(** The items of score [s]. *)
Definition with_score (s : Q) (l : list (Document * Q)) : list (Document * Q) :=
  filter (fun c => Qeq_bool (snd c) s) l.

(** No two candidates receive the same score from the scorer. *)
Definition no_ties (predict : string -> string -> Q) (query : string)
    (candidates : list (Document * Q)) : Prop :=
  NoDup (map (fun c => Qred (predict query (content (fst c)))) candidates).


(** [dot(u, v) / (norm(u) * norm(v))] *)
Definition cosine (norm : list Q -> Q) (u v : list Q) : Q :=
  (Numpy.dot u v / (norm u * norm v))%Q.

(** Results of equal score stand in the order their documents have in the
    corpus. *)
Definition ties_in_corpus_order (corpus : list Document)
    (results : list (Document * Q)) : Prop :=
  forall i j di si dj sj,
    (i < j)%nat ->
    nth_error results i = Some (di, si) ->
    nth_error results j = Some (dj, sj) ->
    (si == sj)%Q ->
    (index_of (doc_id di) (map doc_id corpus)
     < index_of (doc_id dj) (map doc_id corpus))%nat.

(** The Euclidean norm of a vector whose squared length is the square of a
    rational number. *)
Definition norm_exact (v : list Q) : Q :=
  let s := Qred (Numpy.dot v v) in
  (inject_Z (Z.sqrt (Qnum s)) / inject_Z (Z.sqrt (Zpos (Qden s))))%Q.

(** A rising stand-in for [math.log] that vanishes at 1. *)
Definition ln_stub (x : Q) : Q := (x - 1)%Q.


(** A stub embedding that maps every text to one vector. *)
Definition encode_stub (_ : string) : list Q := [3%Q; 4%Q].

(** A stub pairwise scorer: the length of the text. *)
Definition predict_stub (_ text : string) : Q := inject_Z (Z.of_nat (String.length text)).

(** Two chunks of one text under two ids. *)
Definition tie_corpus : list Document :=
  [ {| content := "interest rate"; metadata := []; doc_id := "d0";
       score := 0; source := "" |};
    {| content := "interest rate"; metadata := []; doc_id := "d1";
       score := 0; source := "" |} ].


(** The BM25 score of one tokenised document for a tokenised query: the sum
    of the contributions of the query terms. *)
Definition bm25_document_score (m : RankBM25.BM25Okapi) (query document : list string) : Q :=
  fold_left
    (fun acc q =>
       (acc + RankBM25.term_score m q (RankBM25.frequencies document,
                                       List.length document))%Q)
    query 0%Q.

(** [text.lower().split()] *)
Definition tokens (text : string) : list string := Str.split (Str.lower text).

(** No token of the query is a token of the document. *)
Definition shares_no_term (query : string) (d : Document) : Prop :=
  forall t, In t (tokens query) -> ~ In t (tokens (content d)).


(** The stored score of every document named in [results] is the score the
    call returned for it. *)
Definition scores_written (results : list (Document * Q)) (after : Engine) : Prop :=
  forall d s d',
    In (d, s) results -> In d' (documents after) -> doc_id d' = doc_id d ->
    (score d' == s)%Q.


(** Every stored node stands under its own id, and no id stands twice. *)
Definition nodes_keyed (self : GraphRAG) : Prop :=
  NoDup (Dict.keys (nodes self)) /\
  forall k n, In (k, n) (nodes self) -> node_id n = k.

(** The nodes of the networkx graph are the keys of its adjacency, and every
    successor is a node. *)
Definition graph_closed (G : Networkx.DiGraph) : Prop :=
  (forall u, Networkx.has_node G u = Dict.mem (Networkx.adj G) u) /\
  (forall u nbrs v,
      Dict.get (Networkx.adj G) u = Some nbrs -> In v (Dict.keys nbrs) ->
      Networkx.has_node G v = true).

(** The state of a [GraphRAG] object that [add_node] and [add_edge] build. *)
Definition well_formed (self : GraphRAG) : Prop :=
  nodes_keyed self /\ graph_closed (graph self).

(** [n] with the node [n2] in the place of every node of the id of [n2]. *)
Definition replace_node (n2 n : GraphNode) : GraphNode :=
  if String.eqb (node_id n) (node_id n2) then n2 else n.

(** [node.name.lower() == name.lower()] *)
Definition name_matches (nm : string) (n : GraphNode) : bool :=
  String.eqb (Str.lower (name n)) (Str.lower nm).


(** [v] is a successor of [u]. *)
Definition is_edge (G : Networkx.DiGraph) (u v : string) : Prop :=
  In v (Networkx.successors G u).

(** Every node of [p] has an edge to the next one. *)
Fixpoint is_walk (G : Networkx.DiGraph) (p : list string) : Prop :=
  match p with
  | [] => True
  | x :: t =>
      match t with
      | [] => True
      | y :: _ => is_edge G x y /\ is_walk G t
      end
  end.

(** [p] is a directed path from [s] to [t]. *)
Definition directed_path (G : Networkx.DiGraph) (s t : string) (p : list string) : Prop :=
  hd_error p = Some s /\ last p s = t /\ p <> [] /\ is_walk G p.

(** [p] is a directed path from [s] to [t] that repeats no node and has at
    most [cutoff] edges. *)
Definition simple_path_within (G : Networkx.DiGraph) (cutoff : nat) (s t : string)
    (p : list string) : Prop :=
  directed_path G s t p /\ NoDup p /\ (List.length p <= S cutoff)%nat.


(** Edge attributes pass the search for [rel]: no relationship type is asked
    for, or the edge carries the value of the type asked for. *)
Definition passes (rel : option RelationshipType) (data : Networkx.EdgeData) : Prop :=
  match rel with
  | None => True
  | Some r => Networkx.ed_relationship data = value r
  end.

(** There is an edge from [u] to [v], of the relationship type asked for when
    one is asked for. *)
Definition typed_edge (G : Networkx.DiGraph) (rel : option RelationshipType)
    (u v : string) : Prop :=
  exists data, Networkx.edge_data G u v = Ok data /\ passes rel data.

(** [hops G rel u k v]: [v] is reached from [u] along [k] edges, each of the
    relationship type asked for when one is asked for. *)
Inductive hops (G : Networkx.DiGraph) (rel : option RelationshipType) (u : string)
    : nat -> string -> Prop :=
| hops_here : hops G rel u 0 u
| hops_step (k : nat) (w v : string) :
    hops G rel u k w -> typed_edge G rel w v -> hops G rel u (S k) v.

(** [v] is reached from [u] along at least one and at most [max_depth] kept
    edges. *)
Definition within_hops (G : Networkx.DiGraph) (rel : option RelationshipType)
    (max_depth : Z) (u v : string) : Prop :=
  exists k, (1 <= k)%nat /\ Z.of_nat k <= max_depth /\ hops G rel u k v.

(** The invariant of the search loop. [done] lists the queue entries already
    taken, in the order they were taken. *)
Section BfsInvariant.
Variable G : Networkx.DiGraph.
Variable rel : option RelationshipType.
Variable max_depth : Z.
Variable origin : string.

(** Every entry is a node of the graph with the number of hops of a path
    that reaches it; the origin has depth 0, the others a depth from 1 to
    [max_depth]. *)
Definition labels_ok (entries : list (string * Z)) : Prop :=
  forall v d,
    In (v, d) entries ->
    Networkx.has_node G v = true /\
    ((v = origin /\ d = 0) \/ (v <> origin /\ 1 <= d <= max_depth)) /\
    exists k, Z.of_nat k = d /\ hops G rel origin k v.

(** The visited set is the set of all entries; the related ids are the
    visited ids but the origin. *)
Definition sets_ok (taken : list (string * Z)) (st : bfs_state) : Prop :=
  (forall x, In x (visited st) <-> In x (map fst (taken ++ queue st))) /\
  (forall x, In x (related_ids st) <-> In x (visited st) /\ x <> origin) /\
  NoDup (related_ids st) /\
  In origin (visited st).

(** Depths rise along the queue by at most one in all, and no entry taken
    is deeper than a waiting one. *)
Definition order_ok (taken q : list (string * Z)) : Prop :=
  (forall v d v' d', In (v, d) taken -> In (v', d') q -> d <= d') /\
  StronglySorted (fun a b => snd a <= snd b) q /\
  (forall v d v' d', In (v, d) q -> In (v', d') q -> d' <= d + 1).

(** Every kept edge out of an entry that was expanded leads to an entry at
    most one level deeper. *)
Definition closed_ok (taken entries : list (string * Z)) : Prop :=
  forall u du,
    In (u, du) taken -> du < max_depth ->
    forall w, typed_edge G rel u w ->
              exists dw, In (w, dw) entries /\ dw <= du + 1.

(** The ids of the graph not yet visited. *)
Definition unvisited (st : bfs_state) : list string :=
  filter (fun x => negb (Networkx.mem_string x (visited st)))
         (Dict.keys (Networkx.node G)).

(** What bounds the number of turns left. *)
Definition bfs_measure (st : bfs_state) : nat :=
  (List.length (queue st) + List.length (unvisited st))%nat.

(** The variables of the loop when it starts. *)
Definition bfs_start : bfs_state :=
  {| queue := [(origin, 0)]; visited := [origin]; related_ids := [] |}.

Definition bfs_inv (taken : list (string * Z)) (st : bfs_state) : Prop :=
  sets_ok taken st /\
  labels_ok (taken ++ queue st) /\
  order_ok taken (queue st) /\
  closed_ok taken (taken ++ queue st).

(** The invariant while the successors of [u], taken at depth [du], are
    visited; [seen] are the successors already handled. *)
Definition visit_inv (taken : list (string * Z)) (u : string) (du : Z)
    (seen : list string) (st : bfs_state) : Prop :=
  sets_ok (taken ++ [(u, du)]) st /\
  labels_ok ((taken ++ [(u, du)]) ++ queue st) /\
  order_ok (taken ++ [(u, du)]) (queue st) /\
  (forall v d, In (v, d) taken -> d <= du) /\
  (forall v d, In (v, d) (queue st) -> d <= du + 1) /\
  closed_ok taken ((taken ++ [(u, du)]) ++ queue st) /\
  (forall w, In w seen -> typed_edge G rel u w ->
             exists dw, In (w, dw) ((taken ++ [(u, du)]) ++ queue st) /\ dw <= du + 1).
End BfsInvariant.


(** One step of [first_seen]. *)
Definition seen_step (seen : list string) (id : string) : list string :=
  if Networkx.mem_string id seen then seen else seen ++ [id].

(** The corpus as [index_documents] hands it to BM25. *)
Definition tokenized (docs : list Document) : list (list string) :=
  map (fun doc => Str.split (Str.lower (content doc))) docs.

(** * The callers of the retrieval core *)

(** ** hybrid_search.py: [VectorDatabase] *)

Record VectorDatabase : Type := {
  connection_string : string;
  search_engine : Engine
}.

(** [VectorDatabase(connection_string)]: [None] and the empty string give
    the default connection string. *)
Definition new_vector_database (cs : option string) : VectorDatabase :=
  {| connection_string :=
       match cs with
       | Some s => if Str.is_empty s then "postgresql://localhost/finrisk_db" else s
       | None => "postgresql://localhost/finrisk_db"
       end;
     search_engine := new_engine |}.

(** A method of [self.search_engine] run from a method of the database. *)
Definition on_search_engine {A : Type} (m : M Engine A) : M VectorDatabase A :=
  fun db =>
    let (r, e) := m (search_engine db) in
    (r, {| connection_string := connection_string db; search_engine := e |}).

Section VectorDatabase.
Local Open Scope monad_scope.
Variable encode : string -> list Q.
Variable norm : list Q -> Q.
Variable predict : string -> string -> Q.
Variable ln : Q -> Q.
Variable argsort : list Q -> list nat.

Definition insert (docs : list Document) : M VectorDatabase unit :=
  on_search_engine (index_documents encode ln docs).

(** [hybrid_search(query, top_k)]: the pipeline with its default
    [top_k_dense] and [top_k_sparse] of 100. *)
Definition hybrid_search (query : string) (top_k : Z) : M VectorDatabase (list Document) :=
  result <- on_search_engine
              (advanced_rag_pipeline encode norm predict argsort query 100 100 top_k) ;;
  ret (res_documents result).
End VectorDatabase.

Definition hybrid_search_default_top_k : Z := 5.

(** ** specialized_agents.py: [DataAgent] *)

Record DataAgent : Type := {
  vector_db : VectorDatabase;
  graph_rag : GraphRAG
}.

(** The dictionary [execute] returns. *)
Record DataAgentOutput : Type := {
  rag_context : list Document;
  graph_rag_context : list GraphNode
}.

(** A method of [self.vector_db] run from a method of the agent. *)
Definition on_vector_db {A : Type} (m : M VectorDatabase A) : M DataAgent A :=
  fun agent =>
    let (r, db) := m (vector_db agent) in
    (r, {| vector_db := db; graph_rag := graph_rag agent |}).

Section DataAgent.
Local Open Scope monad_scope.
Variable encode : string -> list Q.
Variable norm : list Q -> Q.
Variable predict : string -> string -> Q.
Variable argsort : list Q -> list nat.

(** [execute(state)], which reads [state.user_query] only. *)
Definition execute (user_query : string) : M DataAgent DataAgentOutput :=
  rag_docs <- on_vector_db (hybrid_search encode norm predict argsort user_query 5) ;;
  self <- get_self ;;
  graph_context <- lift (query (graph_rag self) user_query 10) ;;
  ret {| rag_context := rag_docs; graph_rag_context := ctx_nodes graph_context |}.
End DataAgent.

(** ** state.py: the two context entries of [AgentState.to_dict] *)

(** [[{"content": doc.content, "score": doc.score} for doc in self.rag_context]] *)
Definition rag_context_to_dict (docs : list Document) : list (string * Q) :=
  map (fun doc => (content doc, score doc)) docs.

(** [[{"name": node.name, "description": node.description}
      for node in self.graph_rag_context]] *)
Definition graph_rag_context_to_dict (ns : list GraphNode) : list (string * string) :=
  map (fun node => (name node, description node)) ns.


(** * The states of a [GraphRAG] object *)

(** A call of one of the two methods that write to the object. *)
Inductive call : Type :=
| call_add_node (n : GraphNode)
| call_add_edge (e : GraphEdge).

Definition run_call (c : call) : M GraphRAG unit :=
  match c with
  | call_add_node n => add_node n
  | call_add_edge e => add_edge e
  end.

(** The object after the calls [cs] on a new object, in that order. A call
    that raises leaves what it had written until then. *)
Definition after_calls (cs : list call) : GraphRAG :=
  fold_left (fun self c => snd (run_call c self)) cs new_graph_rag.

(** A node [a] added with [add_node], then an edge from [a] to [b], for which
    no [add_node] was called. *)
Definition edge_to_unstored : GraphRAG :=
  after_calls
    [call_add_node {| node_id := "a"; entity_type := "metric"; name := "A";
                      description := ""; node_metadata := [] |};
     call_add_edge {| source_id := "a"; target_id := "b"; relationship := AFFECTS;
                      weight := 1; edge_metadata := [] |}].

(** Every stored edge carries the value of a [RelationshipType]. *)
Definition edges_typed (G : Networkx.DiGraph) : Prop :=
  forall u v data,
    Networkx.edge_data G u v = Ok data ->
    exists r, Networkx.ed_relationship data = value r.

(** [x] stands before [y] in [l]. *)
Definition before {A : Type} (l : list A) (x y : A) : Prop :=
  exists l1 l2 l3, l = l1 ++ x :: l2 ++ y :: l3.

(** The attributes [add_edge] leaves on the edge of [e]: those of [e], over
    what the metadata of an earlier edge between the same nodes had set. *)
Definition stored_edge (G : Networkx.DiGraph) (e : GraphEdge) : Networkx.EdgeData :=
  {| Networkx.ed_relationship := value (relationship e);
     Networkx.ed_weight := weight e;
     Networkx.ed_extra :=
       match Networkx.edge_data G (source_id e) (target_id e) with
       | Ok old => Networkx.update (Networkx.ed_extra old) (edge_metadata e)
       | Raise _ => edge_metadata e
       end |}.

(** The edge [query] reports for a stored edge from [n1] to [n2]. *)
Definition reported_edge (n1 n2 : GraphNode) (r : RelationshipType)
    (data : Networkx.EdgeData) : GraphEdge :=
  {| source_id := node_id n1;
     target_id := node_id n2;
     relationship := r;
     weight := Networkx.ed_weight data;
     edge_metadata := [] |}.


(** * Properties *)

(** ** The stable sort *)

Section StableSortFacts.
Context {A : Type}.
Variable leb : A -> A -> bool.
Hypothesis leb_total : forall a b, leb a b = true \/ leb b a = true.
Hypothesis leb_trans : forall a b c, leb a b = true -> leb b c = true -> leb a c = true.

Let before (a b : A) : Prop := leb a b = true.
(** [a] and [b] have equal keys. *)
Let tie (a b : A) : bool := leb a b && leb b a.

Lemma insert_stable_perm (x : A) (l : list A) :
  Permutation (Py.insert_stable leb x l) (x :: l).
Proof.
  induction l as [|y t IH]; simpl.
  - apply Permutation_refl.
  - destruct (leb x y).
    + apply Permutation_refl.
    + eapply Permutation_trans; [apply perm_skip, IH | apply perm_swap].
Qed.

Lemma stable_sort_perm (l : list A) : Permutation (Py.stable_sort leb l) l.
Proof.
  induction l as [|x t IH]; simpl.
  - constructor.
  - eapply Permutation_trans; [apply insert_stable_perm | now apply perm_skip].
Qed.

Lemma insert_stable_sorted (x : A) (l : list A) :
  StronglySorted before l -> StronglySorted before (Py.insert_stable leb x l).
Proof.
  induction 1 as [|y t Hs IH Hy]; simpl.
  - repeat constructor.
  - destruct (leb x y) eqn:E.
    + constructor; [now constructor|].
      constructor; [exact E|].
      rewrite Forall_forall in *. intros z Hz.
      unfold before in *. eapply leb_trans; [exact E | now apply Hy].
    + constructor; [exact IH|].
      rewrite Forall_forall in *. intros z Hz.
      apply (Permutation_in _ (insert_stable_perm x t)) in Hz.
      destruct Hz as [<-|Hz]; [|now apply Hy].
      destruct (leb_total x y) as [H|H]; [congruence|exact H].
Qed.

Lemma stable_sort_sorted (l : list A) : StronglySorted before (Py.stable_sort leb l).
Proof.
  induction l as [|x t IH]; simpl; [constructor | now apply insert_stable_sorted].
Qed.

Lemma insert_stable_filter_tie (z x : A) (l : list A) :
  filter (tie z) (Py.insert_stable leb x l) = filter (tie z) (x :: l).
Proof.
  induction l as [|y t IH]; simpl; [reflexivity|].
  destruct (leb x y) eqn:E; [reflexivity|].
  simpl in *. rewrite IH.
  destruct (tie z y) eqn:Ey, (tie z x) eqn:Ex; try reflexivity.
  unfold tie in *. apply andb_prop in Ey, Ex.
  destruct Ey as [Hzy _], Ex as [_ Hxz].
  rewrite (leb_trans _ _ _ Hxz Hzy) in E. discriminate.
Qed.

(** Stability: the items tied with [z] leave the sort in their input order. *)
Lemma stable_sort_stable (z : A) (l : list A) :
  filter (tie z) (Py.stable_sort leb l) = filter (tie z) l.
Proof.
  induction l as [|x t IH]; simpl; [reflexivity|].
  rewrite insert_stable_filter_tie. simpl. now rewrite IH.
Qed.

Section Positions.
Variable pos : A -> nat.

(** Sorted, with ties in rising position. *)
Let lex (a b : A) : Prop := leb a b = true /\ (leb b a = true -> (pos a < pos b)%nat).

Lemma insert_stable_lex (x : A) (l : list A) :
  StronglySorted lex l ->
  Forall (fun y => (pos x < pos y)%nat) l ->
  StronglySorted lex (Py.insert_stable leb x l).
Proof.
  induction 1 as [|y t Hs IH Hy]; intros Hpos; simpl.
  - repeat constructor.
  - inversion Hpos as [|? ? Hxy Hxt]; subst.
    destruct (leb x y) eqn:E.
    + constructor; [now constructor|].
      constructor; [split; auto|].
      rewrite Forall_forall in *. intros w Hw. split.
      * eapply leb_trans; [exact E | apply Hy, Hw].
      * intros _. now apply Hxt.
    + constructor; [now apply IH|].
      rewrite Forall_forall in *. intros w Hw.
      apply (Permutation_in _ (insert_stable_perm x t)) in Hw.
      destruct Hw as [<-|Hw]; [|now apply Hy].
      split; [|congruence].
      destruct (leb_total x y) as [H|H]; [congruence|exact H].
Qed.

Lemma stable_sort_lex (l : list A) :
  StronglySorted (fun a b => (pos a < pos b)%nat) l ->
  StronglySorted lex (Py.stable_sort leb l).
Proof.
  induction 1 as [|x t Hs IH Hx]; simpl; [constructor|].
  apply insert_stable_lex; [exact IH|].
  rewrite Forall_forall in *. intros y Hy.
  apply Hx. exact (Permutation_in _ (stable_sort_perm t) Hy).
Qed.
End Positions.
End StableSortFacts.

(** Two lists with the same items, both sorted for a strict order, are equal. *)
Lemma sorted_strict_unique {A : Type} (R : A -> A -> Prop)
    (asym : forall a b, R a b -> R b a -> False) (l1 : list A) :
  forall l2, StronglySorted R l1 -> StronglySorted R l2 -> Permutation l1 l2 -> l1 = l2.
Proof.
  induction l1 as [|a t1 IH]; intros l2 S1 S2 P.
  - apply Permutation_nil in P. now subst.
  - destruct l2 as [|b t2]; [apply Permutation_sym, Permutation_nil in P; discriminate|].
    inversion S1 as [|? ? S1t F1]; inversion S2 as [|? ? S2t F2]; subst.
    rewrite Forall_forall in F1, F2.
    assert (a = b) as ->.
    { assert (Ha : In a (b :: t2)) by (eapply Permutation_in; [exact P | now left]).
      assert (Hb : In b (a :: t1))
        by (eapply Permutation_in; [apply Permutation_sym, P | now left]).
      destruct Ha as [->|Ha]; [reflexivity|].
      destruct Hb as [->|Hb]; [reflexivity|].
      exfalso. exact (asym _ _ (F1 _ Hb) (F2 _ Ha)). }
    f_equal. apply IH; auto. eapply Permutation_cons_inv; eauto.
Qed.

(** ** Dictionaries *)

Module DictFacts.

Lemma get_set_same {V : Type} (d : Dict.t V) (k : string) (v : V) :
  Dict.get (Dict.set d k v) k = Some v.
Proof.
  induction d as [|[k' v'] r IH]; simpl.
  - now rewrite String.eqb_refl.
  - destruct (String.eqb k' k) eqn:E; simpl; rewrite E; auto.
Qed.

Lemma get_set_other {V : Type} (d : Dict.t V) (k k' : string) (v : V) :
  k <> k' -> Dict.get (Dict.set d k v) k' = Dict.get d k'.
Proof.
  intros N. induction d as [|[k0 v0] r IH]; simpl.
  - destruct (String.eqb_spec k k'); [contradiction | reflexivity].
  - destruct (String.eqb_spec k0 k) as [->|]; simpl.
    + destruct (String.eqb_spec k k'); [contradiction | reflexivity].
    + now rewrite IH.
Qed.

Lemma get_In_keys {V : Type} (d : Dict.t V) (k : string) :
  Dict.mem d k = true <-> In k (Dict.keys d).
Proof.
  unfold Dict.mem. induction d as [|[k' v'] r IH]; simpl.
  - split; [discriminate | tauto].
  - destruct (String.eqb_spec k' k) as [->|N].
    + split; auto.
    + rewrite IH. split; [auto | intros [H|H]; [contradiction | exact H]].
Qed.

Lemma get_None_keys {V : Type} (d : Dict.t V) (k : string) :
  Dict.get d k = None <-> ~ In k (Dict.keys d).
Proof.
  rewrite <- get_In_keys. unfold Dict.mem.
  destruct (Dict.get d k); split; intros; try congruence; auto.
Qed.

Lemma get_Some_In {V : Type} (d : Dict.t V) (k : string) (v : V) :
  Dict.get d k = Some v -> In (k, v) d.
Proof.
  induction d as [|[k' v'] r IH]; simpl; [discriminate|].
  destruct (String.eqb_spec k' k) as [->|N].
  - intros [= ->]. now left.
  - intros H. right. auto.
Qed.

Lemma In_get_Some {V : Type} (d : Dict.t V) (k : string) (v : V) :
  NoDup (Dict.keys d) -> In (k, v) d -> Dict.get d k = Some v.
Proof.
  induction d as [|[k' v'] r IH]; simpl; [tauto|].
  intros ND [H|H].
  - inversion H; subst. now rewrite String.eqb_refl.
  - inversion ND as [|? ? Hn ND']; subst.
    destruct (String.eqb_spec k' k) as [->|N].
    + exfalso. apply Hn. change (In (fst (k, v)) (map fst r)). now apply in_map.
    + auto.
Qed.

(** The keys after [d[k] = v]. *)
Lemma keys_set {V : Type} (d : Dict.t V) (k : string) (v : V) :
  Dict.keys (Dict.set d k v) =
  if Dict.mem d k then Dict.keys d else Dict.keys d ++ [k].
Proof.
  unfold Dict.mem. induction d as [|[k' v'] r IH]; simpl; [reflexivity|].
  destruct (String.eqb_spec k' k) as [->|N]; simpl; [reflexivity|].
  rewrite IH. now destruct (Dict.get r k).
Qed.

Lemma length_set_mem {V : Type} (d : Dict.t V) (k : string) (v : V) :
  Dict.mem d k = true -> List.length (Dict.set d k v) = List.length d.
Proof.
  intros H. pose proof (keys_set d k v) as E. rewrite H in E.
  unfold Dict.keys in E. apply (f_equal (@List.length string)) in E.
  now rewrite !length_map in E.
Qed.

Lemma NoDup_keys_set {V : Type} (d : Dict.t V) (k : string) (v : V) :
  NoDup (Dict.keys d) -> NoDup (Dict.keys (Dict.set d k v)).
Proof.
  intros ND. rewrite keys_set. destruct (Dict.mem d k) eqn:E; [exact ND|].
  apply NoDup_app; [exact ND | repeat constructor; simpl; tauto |].
  intros x Hx [<-|[]]. apply get_In_keys in Hx. congruence.
Qed.

(** Writing over an existing key replaces its value where it stands. *)
Lemma values_set {V : Type} (d : Dict.t V) (k : string) (v : V) :
  Dict.mem d k = true ->
  NoDup (Dict.keys d) ->
  Dict.set d k v = map (fun kv => if String.eqb (fst kv) k then (fst kv, v) else kv) d.
Proof.
  unfold Dict.mem. induction d as [|[k' v'] r IH]; simpl; [discriminate|].
  intros H ND. inversion ND as [|? ? Hn ND']; subst.
  destruct (String.eqb_spec k' k) as [->|N].
  - f_equal. clear IH H ND. induction r as [|[k0 v0] r IH]; simpl; [reflexivity|].
    simpl in Hn. inversion ND' as [|? ? Hn0 ND0]; subst.
    destruct (String.eqb_spec k0 k) as [->|N0]; [tauto|].
    f_equal. apply IH; auto.
  - f_equal. now apply IH.
Qed.

Lemma mem_string_In (x : string) (l : list string) :
  Networkx.mem_string x l = true <-> In x l.
Proof.
  unfold Networkx.mem_string. rewrite existsb_exists. split.
  - intros [y [Hy E]]. apply String.eqb_eq in E. now subst.
  - intros H. exists x. split; [exact H | apply String.eqb_refl].
Qed.

Lemma mem_string_false (x : string) (l : list string) :
  Networkx.mem_string x l = false <-> ~ In x l.
Proof.
  rewrite <- mem_string_In. destruct (Networkx.mem_string x l); split; congruence.
Qed.

End DictFacts.

(** ** Reciprocal rank fusion *)

Lemma mem_keys {V : Type} (d : Dict.t V) (k : string) :
  Dict.mem d k = Networkx.mem_string k (Dict.keys d).
Proof.
  destruct (Networkx.mem_string k (Dict.keys d)) eqn:E.
  - apply DictFacts.get_In_keys, DictFacts.mem_string_In, E.
  - apply DictFacts.mem_string_false in E.
    destruct (Dict.mem d k) eqn:M; [|reflexivity].
    apply DictFacts.get_In_keys in M. contradiction.
Qed.

Lemma seen_fold_NoDup (ids seen : list string) :
  NoDup seen -> NoDup (fold_left seen_step ids seen).
Proof.
  revert seen. induction ids as [|id t IH]; intros seen ND; simpl; [exact ND|].
  apply IH. unfold seen_step.
  destruct (Networkx.mem_string id seen) eqn:E; [exact ND|].
  apply DictFacts.mem_string_false in E.
  apply NoDup_app; [exact ND | repeat constructor; simpl; tauto |].
  intros x Hx [<-|[]]. contradiction.
Qed.

Lemma seen_fold_In (ids seen : list string) (x : string) :
  In x (fold_left seen_step ids seen) <-> In x seen \/ In x ids.
Proof.
  revert seen. induction ids as [|id t IH]; intros seen; simpl; [tauto|].
  rewrite IH. unfold seen_step.
  destruct (Networkx.mem_string id seen) eqn:E.
  - apply DictFacts.mem_string_In in E. split; [tauto|].
    intros [H|[<-|H]]; auto.
  - rewrite in_app_iff. simpl. tauto.
Qed.

Lemma first_seen_NoDup (ids : list string) : NoDup (first_seen ids).
Proof. apply seen_fold_NoDup. constructor. Qed.

Lemma first_seen_In (ids : list string) (x : string) :
  In x (first_seen ids) <-> In x ids.
Proof. unfold first_seen. fold seen_step. rewrite seen_fold_In. simpl. tauto. Qed.

Lemma inject_Z_nonzero (z : Z) : z <> 0 -> Qeq_bool (inject_Z z) 0 = false.
Proof.
  intros N. destruct (Qeq_bool (inject_Z z) 0) eqn:E; [|reflexivity].
  apply Qeq_bool_iff in E. unfold Qeq in E. simpl in E. lia.
Qed.

Lemma truediv_rank (k rank : Z) :
  k + rank <> 0 -> Py.truediv 1 (inject_Z (k + rank)) = Ok (reciprocal_rank k rank).
Proof. intros N. unfold Py.truediv. now rewrite inject_Z_nonzero. Qed.

Lemma get_default_set {V : Type} (d : Dict.t V) (k k' : string) (v dflt : V) :
  Dict.get_default (Dict.set d k v) k' dflt =
  if String.eqb k k' then v else Dict.get_default d k' dflt.
Proof.
  unfold Dict.get_default. destruct (String.eqb_spec k k') as [->|N].
  - now rewrite DictFacts.get_set_same.
  - now rewrite DictFacts.get_set_other.
Qed.

Lemma rrf_accumulate_spec (k : Z) (results : list (Document * Q)) :
  forall (rank : Z) (doc_scores : Dict.t Q),
    0 <= k -> 1 <= rank ->
    exists out,
      rrf_accumulate k rank results doc_scores = Ok out /\
      Dict.keys out = fold_left seen_step (doc_ids results) (Dict.keys doc_scores) /\
      forall id, (Dict.get_default out id 0
                  == Dict.get_default doc_scores id 0 + rrf_contrib k rank results id)%Q.
Proof.
  induction results as [|[d s] t IH]; intros rank ds Hk Hr; simpl.
  - exists ds. repeat split. intros id. ring.
  - rewrite truediv_rank by lia. simpl.
    destruct (IH (rank + 1)
                 (Dict.set ds (doc_id d)
                    (Dict.get_default ds (doc_id d) 0 + reciprocal_rank k rank)%Q)
                 Hk ltac:(lia)) as [out [E [K S]]].
    exists out. split; [exact E|]. split.
    + rewrite K, DictFacts.keys_set, mem_keys. reflexivity.
    + intros id. rewrite S, get_default_set.
      destruct (String.eqb_spec (doc_id d) id) as [->|N]; ring.
Qed.

Lemma doc_lookup_fold (l : list (Document * Q)) :
  forall d0 : Dict.t Document,
    (forall id d, Dict.get d0 id = Some d -> doc_id d = id) ->
    let out := fold_left (fun d p => Dict.set d (doc_id (fst p)) (fst p)) l d0 in
    (forall id d, Dict.get out id = Some d -> doc_id d = id) /\
    (forall id, In id (Dict.keys d0) \/ In id (doc_ids l) -> Dict.mem out id = true).
Proof.
  induction l as [|[d s] t IH]; intros d0 H0; simpl.
  - split; [exact H0|]. intros id [H|[]]. now apply DictFacts.get_In_keys.
  - destruct (IH (Dict.set d0 (doc_id d) d)) as [A B].
    + intros id d'. destruct (String.eqb_spec (doc_id d) id) as [<-|N].
      * rewrite DictFacts.get_set_same. now intros [= <-].
      * rewrite DictFacts.get_set_other by exact N. apply H0.
    + split; [exact A|]. intros id H. apply B.
      rewrite DictFacts.keys_set.
      destruct H as [H|[H|H]]; auto.
      * left. destruct (Dict.mem d0 (doc_id d)); [exact H | apply in_or_app; now left].
      * left. simpl in H. subst id. destruct (Dict.mem d0 (doc_id d)) eqn:E.
        -- now apply DictFacts.get_In_keys.
        -- apply in_or_app. right. now left.
Qed.

Lemma doc_lookup_getitem (l : list (Document * Q)) (id : string) :
  In id (doc_ids l) ->
  exists d, Dict.getitem (doc_lookup l) id = Ok d /\ doc_id d = id.
Proof.
  intros H. destruct (doc_lookup_fold l Dict.empty) as [A B].
  { intros ? ? [=]. }
  specialize (B id (or_intror H)). unfold Dict.mem in B.
  unfold Dict.getitem, doc_lookup.
  destruct (Dict.get _ id) as [d|] eqn:E; [|discriminate].
  exists d. split; [reflexivity | now apply A].
Qed.

Lemma rmap_Forall2 {A B : Type} (f : A -> result B) (P : A -> B -> Prop) (l : list A) :
  (forall x, In x l -> exists y, f x = Ok y /\ P x y) ->
  exists ys, rmap f l = Ok ys /\ Forall2 P l ys.
Proof.
  induction l as [|x t IH]; intros H; simpl.
  - exists []. split; [reflexivity | constructor].
  - destruct (H x (or_introl eq_refl)) as [y [E Py]].
    destruct IH as [ys [Et F]]; [intros z Hz; apply H; now right|].
    exists (y :: ys). rewrite E, Et. simpl. split; [reflexivity | now constructor].
Qed.

Lemma Forall2_In_r {A B : Type} (P : A -> B -> Prop) (l : list A) (l' : list B) (y : B) :
  Forall2 P l l' -> In y l' -> exists x, In x l /\ P x y.
Proof.
  induction 1 as [|a b t t' Hab F IH]; simpl; [tauto|].
  intros [<-|H]; [exists a; auto|].
  destruct (IH H) as [x [Hx Px]]. exists x. auto.
Qed.

Lemma StronglySorted_Forall2 {A B : Type} (P : A -> B -> Prop)
    (R : A -> A -> Prop) (R' : B -> B -> Prop) (l : list A) (l' : list B) :
  (forall a b a' b', P a a' -> P b b' -> R a b -> R' a' b') ->
  Forall2 P l l' -> StronglySorted R l -> StronglySorted R' l'.
Proof.
  intros T. induction 1 as [|a b t t' Hab F IH]; intros S; [constructor|].
  inversion S as [|? ? St Fa]; subst. constructor; [auto|].
  rewrite Forall_forall in *. intros y Hy.
  destruct (Forall2_In_r _ _ _ _ F Hy) as [x [Hx Px]]. eapply T; eauto.
Qed.

Lemma StronglySorted_weaken_In {A : Type} (R R' : A -> A -> Prop) (l : list A) :
  (forall a b, In a l -> In b l -> R a b -> R' a b) ->
  StronglySorted R l -> StronglySorted R' l.
Proof.
  intros T S. induction S as [|a t St IH Fa]; [constructor|].
  constructor.
  - apply IH. intros x y Hx Hy. apply T; now right.
  - rewrite Forall_forall in *. intros y Hy. apply T; simpl; auto.
Qed.

Lemma index_of_cons_other (x y : string) (l : list string) :
  y <> x -> index_of x (y :: l) = S (index_of x l).
Proof. intros N. simpl. destruct (String.eqb_spec y x); [contradiction | reflexivity]. Qed.

(** Along a list without repetition the position rises. *)
Lemma index_of_sorted (l : list string) :
  NoDup l -> StronglySorted (fun a b => (index_of a l < index_of b l)%nat) l.
Proof.
  induction 1 as [|x t Hx ND IH]; [constructor|].
  constructor.
  - eapply StronglySorted_weaken_In; [|exact IH].
    intros a b Ha Hb Hab. cbv beta in Hab.
    rewrite !index_of_cons_other by (intros ->; contradiction). lia.
  - rewrite Forall_forall. intros y Hy.
    rewrite (index_of_cons_other y x t) by (intros ->; contradiction).
    simpl. rewrite String.eqb_refl. lia.
Qed.

Lemma index_of_sorted_items {V : Type} (d : Dict.t V) :
  NoDup (Dict.keys d) ->
  StronglySorted
    (fun a b => (index_of (fst a) (Dict.keys d) < index_of (fst b) (Dict.keys d))%nat) d.
Proof.
  intros ND. pose proof (index_of_sorted _ ND) as S. unfold Dict.keys in *.
  remember (map fst d) as ks eqn:E. clear ND.
  assert (G : forall l : list (string * V),
             StronglySorted (fun a b => (index_of a ks < index_of b ks)%nat) (map fst l) ->
             StronglySorted
               (fun a b => (index_of (fst a) ks < index_of (fst b) ks)%nat) l).
  { induction l as [|p t IH]; intros H; [constructor|].
    simpl in H. inversion H as [|? ? Ht Fp]; subst. constructor; [auto|].
    rewrite Forall_forall in *. intros q Hq. apply Fp. now apply in_map. }
  apply G. now rewrite <- E.
Qed.

Lemma Qle_bool_total (x y : Q) : Qle_bool x y = true \/ Qle_bool y x = true.
Proof.
  rewrite !Qle_bool_iff. destruct (Qlt_le_dec x y) as [H|H]; [left | right]; auto.
  now apply Qlt_le_weak.
Qed.

Lemma Qle_bool_trans (x y z : Q) :
  Qle_bool x y = true -> Qle_bool y z = true -> Qle_bool x z = true.
Proof. rewrite !Qle_bool_iff. apply Qle_trans. Qed.

Lemma rrf_contrib_absent (k : Z) (results : list (Document * Q)) (id : string) :
  forall rank, ~ In id (doc_ids results) -> (rrf_contrib k rank results id == 0)%Q.
Proof.
  induction results as [|[d s] t IH]; intros rank H; simpl; [reflexivity|].
  simpl in H. destruct (String.eqb_spec (doc_id d) id) as [E|N]; [tauto|].
  rewrite IH by tauto. ring.
Qed.

Lemma rrf_contrib_unique (k : Z) (results : list (Document * Q)) (id : string) :
  forall rank,
    NoDup (doc_ids results) -> In id (doc_ids results) ->
    (rrf_contrib k rank results id
     == reciprocal_rank k (rank + Z.of_nat (index_of id (doc_ids results))))%Q.
Proof.
  induction results as [|[d s] t IH]; intros rank ND H; simpl in *; [tauto|].
  inversion ND as [|? ? Hn ND']; subst.
  destruct (String.eqb_spec (doc_id d) id) as [E|N].
  - subst id. rewrite rrf_contrib_absent by exact Hn.
    replace (rank + Z.of_nat 0) with rank by lia. ring.
  - destruct H as [H|H]; [contradiction|].
    rewrite IH by assumption.
    replace (rank + 1 + Z.of_nat (index_of id (doc_ids t)))
      with (rank + Z.of_nat (S (index_of id (doc_ids t)))) by lia.
    ring.
Qed.

Lemma first_seen_app (l1 l2 : list string) :
  fold_left seen_step l2 (first_seen l1) = first_seen (l1 ++ l2).
Proof. unfold first_seen. fold seen_step. now rewrite fold_left_app. Qed.

Lemma doc_ids_app (l1 l2 : list (Document * Q)) :
  doc_ids (l1 ++ l2) = doc_ids l1 ++ doc_ids l2.
Proof. apply map_app. Qed.

(** What [reciprocal_rank_fusion] returns for a constant [k >= 0]. *)
Lemma reciprocal_rank_fusion_general (dense sparse : list (Document * Q)) (k : Z) :
  0 <= k ->
  exists fused,
    reciprocal_rank_fusion dense sparse k = Ok fused /\
    Permutation (doc_ids fused) (first_seen (doc_ids (dense ++ sparse))) /\
    (forall d s, In (d, s) fused -> (s == rrf_score k dense sparse (doc_id d))%Q) /\
    StronglySorted
      (by_score_then_first_seen (first_seen (doc_ids (dense ++ sparse)))) fused.
Proof.
  intros Hk. unfold reciprocal_rank_fusion.
  destruct (rrf_accumulate_spec k dense 1 Dict.empty Hk ltac:(lia)) as [ds1 [E1 [K1 S1]]].
  destruct (rrf_accumulate_spec k sparse 1 ds1 Hk ltac:(lia)) as [ds2 [E2 [K2 S2]]].
  rewrite E1. simpl. rewrite E2. simpl.
  assert (K : Dict.keys ds2 = first_seen (doc_ids (dense ++ sparse))).
  { rewrite K2, K1, doc_ids_app. apply first_seen_app. }
  assert (ND : NoDup (Dict.keys ds2)) by (rewrite K; apply first_seen_NoDup).
  set (leb := fun x y : string * Q => Qle_bool (snd y) (snd x)).
  assert (Lt : forall a b, leb a b = true \/ leb b a = true)
    by (intros; apply Qle_bool_total).
  assert (Ltr : forall a b c, leb a b = true -> leb b c = true -> leb a c = true)
    by (unfold leb; intros a b c H1 H2; eapply Qle_bool_trans; eauto).
  pose proof (stable_sort_perm leb (Dict.items ds2)) as Perm.
  pose proof (stable_sort_lex leb Lt Ltr
                (fun p => index_of (fst p) (Dict.keys ds2)) (Dict.items ds2)
                (index_of_sorted_items ds2 ND)) as Lex.
  fold (Py.sorted_desc snd (Dict.items ds2)) in Perm, Lex.
  set (sorted_docs := Py.sorted_desc snd (Dict.items ds2)) in *.
  destruct (rmap_Forall2
              (fun p : string * Q =>
                 rbind (Dict.getitem (doc_lookup (dense ++ sparse)) (fst p))
                       (fun d => Ok (d, snd p)))
              (fun p o => doc_id (fst o) = fst p /\ snd o = snd p) sorted_docs)
    as [fused [Ef F]].
  { intros [id s] Hp. simpl.
    assert (Hid : In id (doc_ids (dense ++ sparse))).
    { apply first_seen_In. rewrite <- K.
      apply (Permutation_in _ Perm) in Hp.
      change id with (fst (id, s)). now apply in_map. }
    destruct (doc_lookup_getitem _ _ Hid) as [d [Ed Hd]].
    exists (d, s). rewrite Ed. simpl. auto. }
  exists fused. split; [exact Ef|]. split; [|split].
  - rewrite <- K.
    assert (Em : doc_ids fused = map fst sorted_docs).
    { clear -F. induction F as [|p o t t' [H1 H2] F IH]; simpl; [reflexivity|].
      now rewrite H1, IH. }
    rewrite Em. unfold Dict.keys. now apply Permutation_map.
  - intros d s Hin.
    destruct (Forall2_In_r _ _ _ _ F Hin) as [[id s'] [Hp [Hid Hs]]]. simpl in *. subst.
    apply (Permutation_in _ Perm) in Hp.
    pose proof (DictFacts.In_get_Some ds2 _ _ ND Hp) as G.
    specialize (S2 (doc_id d)). specialize (S1 (doc_id d)).
    unfold Dict.get_default in S2 at 1. rewrite G in S2.
    rewrite S2, S1. unfold rrf_score, Dict.get_default. simpl. ring.
  - rewrite <- K.
    eapply StronglySorted_Forall2; [|exact F|exact Lex].
    intros a b a' b' [Ha Sa] [Hb Sb] [L1 L2]. unfold by_score_then_first_seen, leb in *.
    rewrite Ha, Hb, Sa, Sb. rewrite <- !Qle_bool_iff. auto.
Qed.

(** C1. For a constant [k >= 0], [reciprocal_rank_fusion] returns every
    document id of the two lists once, with the score
    [sum of 1 / (k + rank)] over the 1-based positions that hold the id in the
    dense list plus the same sum over the sparse list (one term per list
    when an id stands once in it, none when it is absent), sorted by
    descending score with equal scores in the order of first appearance.
    For dense [A, B, C], sparse [B, A, D] and [k = 60] the result is
    [A, B, C, D] with scores [1/61 + 1/62] for A and B and [1/63] for C and D. *)
Theorem reciprocal_rank_fusion_correct :
  (forall (dense sparse : list (Document * Q)) (k : Z),
      0 <= k ->
      exists fused,
        reciprocal_rank_fusion dense sparse k = Ok fused /\
        Permutation (doc_ids fused) (first_seen (doc_ids (dense ++ sparse))) /\
        (forall d s, In (d, s) fused -> (s == rrf_score k dense sparse (doc_id d))%Q) /\
        StronglySorted
          (by_score_then_first_seen (first_seen (doc_ids (dense ++ sparse)))) fused) /\
  (forall (k : Z) (results : list (Document * Q)) (id : string),
      NoDup (doc_ids results) -> In id (doc_ids results) ->
      (rrf_contrib k 1 results id == 1 / inject_Z (k + rank_in results id))%Q) /\
  (forall (k : Z) (results : list (Document * Q)) (id : string),
      ~ In id (doc_ids results) -> (rrf_contrib k 1 results id == 0)%Q) /\
  (forall s1 s2 s3 s4 s5 s6 : Q,
      let A := doc_of_id "A" in
      let B := doc_of_id "B" in
      let C := doc_of_id "C" in
      let D := doc_of_id "D" in
      exists a b c d : Q,
        reciprocal_rank_fusion [(A, s1); (B, s2); (C, s3)] [(B, s4); (A, s5); (D, s6)]
                               rrf_default_k
        = Ok [(A, a); (B, b); (C, c); (D, d)] /\
        (a == 1 / 61 + 1 / 62)%Q /\ (b == 1 / 62 + 1 / 61)%Q /\ (a == b)%Q /\
        (c == 1 / 63)%Q /\ (d == 1 / 63)%Q /\ (c < a)%Q).
Proof.
  split; [exact reciprocal_rank_fusion_general|]. split; [|split].
  - intros k results id ND H. rewrite rrf_contrib_unique by assumption.
    unfold reciprocal_rank, rank_in.
    replace (1 + Z.of_nat (index_of id (doc_ids results)))
      with (Z.of_nat (S (index_of id (doc_ids results)))) by lia.
    reflexivity.
  - intros k results id H. now apply rrf_contrib_absent.
  - intros s1 s2 s3 s4 s5 s6 A B C D.
    exists (123 # 3782)%Q, (123 # 3782)%Q, (1 # 63)%Q, (1 # 63)%Q.
    split; [vm_compute; reflexivity|].
    repeat split; try reflexivity; vm_compute; reflexivity.
Qed.

Lemma reciprocal_rank_fusion_correct_witness :
  0 <= 60 /\
  exists fused,
    reciprocal_rank_fusion [(doc_of_id "A", 1%Q); (doc_of_id "B", 0%Q)]
                           [(doc_of_id "B", 2%Q)] 60 = Ok fused /\
    Permutation (doc_ids fused) ["A"; "B"].
Proof.
  split; [lia|].
  destruct (proj1 reciprocal_rank_fusion_correct
              [(doc_of_id "A", 1%Q); (doc_of_id "B", 0%Q)] [(doc_of_id "B", 2%Q)] 60
              ltac:(lia)) as [fused [E [P _]]].
  exists fused. split; [exact E | exact P].
Defined.

(** ** Reranking *)

Lemma slice_to_nonneg {A : Type} (n : Z) (l : list A) :
  0 <= n -> Py.slice_to n l = firstn (Z.to_nat n) l.
Proof.
  intros H. unfold Py.slice_to. destruct (0 <=? n) eqn:E; [reflexivity|].
  apply Z.leb_gt in E. lia.
Qed.

Lemma slice_to_length {A : Type} (n : Z) (l : list A) :
  0 <= n -> (List.length (Py.slice_to n l) <= Z.to_nat n)%nat.
Proof. intros H. rewrite slice_to_nonneg by exact H. apply firstn_le_length. Qed.

Lemma firstn_incl {A : Type} (n : nat) (l : list A) (x : A) :
  In x (firstn n l) -> In x l.
Proof.
  intros H. rewrite <- (firstn_skipn n l). apply in_or_app. now left.
Qed.

Lemma slice_to_incl {A : Type} (n : Z) (l : list A) (x : A) :
  In x (Py.slice_to n l) -> In x l.
Proof. unfold Py.slice_to. destruct (0 <=? n); apply firstn_incl. Qed.

Lemma StronglySorted_firstn {A : Type} (R : A -> A -> Prop) (n : nat) (l : list A) :
  StronglySorted R l -> StronglySorted R (firstn n l).
Proof.
  intros S. revert n. induction S as [|a t St IH Fa]; intros [|n]; simpl;
    try constructor; auto.
  rewrite Forall_forall in *. intros y Hy. apply Fa. eapply firstn_incl; eauto.
Qed.

Lemma combine_map_self {A B C : Type} (g : A -> B) (f : A * B -> C) (l : list A) :
  map f (combine l (map g l)) = map (fun x => f (x, g x)) l.
Proof. induction l as [|x t IH]; simpl; [reflexivity | now rewrite IH]. Qed.

Lemma Qtie_bool (x y : Q) : Qle_bool x y && Qle_bool y x = Qeq_bool x y.
Proof.
  destruct (Qeq_bool x y) eqn:E.
  - apply Qeq_bool_iff in E. apply andb_true_intro.
    rewrite !Qle_bool_iff, E. split; apply Qle_refl.
  - destruct (Qle_bool x y && Qle_bool y x) eqn:T; [|reflexivity].
    apply andb_prop in T. destruct T as [T1 T2].
    apply Qle_bool_iff in T1, T2.
    assert (H : (x == y)%Q) by now apply Qle_antisym.
    apply Qeq_bool_iff in H. congruence.
Qed.

Lemma sorted_desc_perm {A : Type} (key : A -> Q) (l : list A) :
  Permutation (Py.sorted_desc key l) l.
Proof. apply stable_sort_perm. Qed.

Lemma sorted_desc_sorted {A : Type} (key : A -> Q) (l : list A) :
  StronglySorted (fun a b => (key b <= key a)%Q) (Py.sorted_desc key l).
Proof.
  pose proof (stable_sort_sorted (fun x y => Qle_bool (key y) (key x))
                (fun a b => Qle_bool_total _ _)
                (fun a b c H1 H2 => Qle_bool_trans _ _ _ H2 H1) l) as S.
  eapply StronglySorted_weaken_In; [|exact S].
  intros a b _ _ H. now apply Qle_bool_iff.
Qed.

Lemma sorted_desc_stable (s : Q) (l : list (Document * Q)) :
  with_score s (Py.sorted_desc snd l) = with_score s l.
Proof.
  pose proof (stable_sort_stable (fun x y : Document * Q => Qle_bool (snd y) (snd x))
                (fun a b c H1 H2 => Qle_bool_trans _ _ _ H2 H1)
                (doc_of_id "", s) l) as S.
  unfold with_score, Py.sorted_desc.
  assert (E : forall c : Document * Q,
             Qeq_bool (snd c) s
             = Qle_bool (snd c) (snd (doc_of_id "", s))
               && Qle_bool (snd (doc_of_id "", s)) (snd c))
    by (intros c; simpl; now rewrite Qtie_bool).
  rewrite (filter_ext _ _ E), (filter_ext _ _ E l). exact S.
Qed.

Lemma sorted_strictly (l : list (Document * Q)) :
  StronglySorted (fun a b => (snd b <= snd a)%Q) l ->
  NoDup (map (fun c => Qred (snd c)) l) ->
  StronglySorted (fun a b => (snd b < snd a)%Q) l.
Proof.
  induction 1 as [|a t St IH Fa]; intros ND; [constructor|].
  simpl in ND. inversion ND as [|? ? Hn ND']; subst.
  constructor; [auto|].
  rewrite Forall_forall in *. intros c Hc.
  destruct (Qle_lt_or_eq _ _ (Fa c Hc)) as [H|H]; [exact H|].
  exfalso. apply Hn. apply Qred_complete in H. rewrite <- H.
  now apply (in_map (fun c => Qred (snd c))).
Qed.

Section RerankFacts.
Variable predict : string -> string -> Q.

Lemma rerank_unfold (query : string) (candidates : list (Document * Q)) (top_k : Z) :
  rerank predict query candidates top_k =
  Py.slice_to top_k (Py.sorted_desc snd (rescored predict query candidates)).
Proof.
  unfold rerank, rescored. do 2 f_equal. rewrite map_map. simpl.
  apply (combine_map_self (fun c => predict query (content (fst c)))
           (fun cs => (fst (fst cs), snd cs))).
Qed.

Lemma rescored_fst (query : string) (c1 c2 : list (Document * Q)) :
  map fst c1 = map fst c2 -> rescored predict query c1 = rescored predict query c2.
Proof.
  unfold rescored. revert c2.
  induction c1 as [|[d s] t IH]; intros [|[d' s'] t'] H; simpl in *;
    try discriminate; [reflexivity|].
  inversion H; subst. f_equal. now apply IH.
Qed.

Lemma no_ties_rescored (query : string) (candidates : list (Document * Q)) :
  no_ties predict query candidates ->
  NoDup (map (fun c => Qred (snd c)) (rescored predict query candidates)).
Proof. unfold no_ties, rescored. now rewrite map_map. Qed.

(** C3. [rerank] gives every candidate the score of the pairwise scorer on
    (query, content), sorts by that score alone, descending and stable, and
    returns the slice [[:top_k]] of the sorted list, which for [top_k >= 0]
    is its first [top_k] items. Candidate lists that differ only in their
    incoming scores give the same result, and so do candidate lists that
    differ only in their order when no two scores are equal. *)
Theorem rerank_correct (query : string) (candidates : list (Document * Q)) (top_k : Z) :
  (exists ranking,
      Permutation ranking (rescored predict query candidates) /\
      StronglySorted (fun a b => (snd b <= snd a)%Q) ranking /\
      (forall s, with_score s ranking
                 = with_score s (rescored predict query candidates)) /\
      rerank predict query candidates top_k = Py.slice_to top_k ranking /\
      (0 <= top_k ->
       rerank predict query candidates top_k = firstn (Z.to_nat top_k) ranking)) /\
  (forall other,
      map fst other = map fst candidates ->
      rerank predict query other top_k = rerank predict query candidates top_k) /\
  (forall other,
      Permutation other candidates ->
      no_ties predict query candidates ->
      rerank predict query other top_k = rerank predict query candidates top_k).
Proof.
  split; [|split].
  - exists (Py.sorted_desc snd (rescored predict query candidates)).
    split; [apply sorted_desc_perm|].
    split; [apply sorted_desc_sorted|].
    split; [intros s; apply sorted_desc_stable|].
    rewrite rerank_unfold. split; [reflexivity|].
    intros Hk. now apply slice_to_nonneg.
  - intros other H. rewrite !rerank_unfold. now rewrite (rescored_fst query _ _ H).
  - intros other P NT. rewrite !rerank_unfold. f_equal.
    assert (P' : Permutation (rescored predict query other)
                             (rescored predict query candidates))
      by (unfold rescored; now apply Permutation_map).
    apply (sorted_strict_unique (fun a b : Document * Q => (snd b < snd a)%Q)).
    + intros a b H1 H2. exact (Qlt_irrefl _ (Qlt_trans _ _ _ H1 H2)).
    + apply sorted_strictly; [apply sorted_desc_sorted|].
      eapply Permutation_NoDup; [|apply (no_ties_rescored query candidates NT)].
      apply Permutation_map, Permutation_sym.
      eapply Permutation_trans; [apply sorted_desc_perm | exact P'].
    + apply sorted_strictly; [apply sorted_desc_sorted|].
      eapply Permutation_NoDup; [|apply (no_ties_rescored query candidates NT)].
      apply Permutation_map, Permutation_sym, sorted_desc_perm.
    + eapply Permutation_trans; [apply sorted_desc_perm|].
      eapply Permutation_trans; [exact P'|].
      apply Permutation_sym, sorted_desc_perm.
Qed.
End RerankFacts.

(** ** Indexing and the two searches *)

Lemma StronglySorted_app {A : Type} (R : A -> A -> Prop) (l1 l2 : list A) :
  StronglySorted R l1 -> StronglySorted R l2 ->
  (forall x y, In x l1 -> In y l2 -> R x y) ->
  StronglySorted R (l1 ++ l2).
Proof.
  induction 1 as [|a t St IH Fa]; intros S2 H; simpl; [exact S2|].
  constructor.
  - apply IH; [exact S2|]. intros x y Hx Hy. apply H; simpl; auto.
  - rewrite Forall_forall in *. intros y Hy. apply in_app_or in Hy.
    destruct Hy as [Hy|Hy]; [now apply Fa | apply H; simpl; auto].
Qed.

Lemma StronglySorted_rev {A : Type} (R : A -> A -> Prop) (l : list A) :
  StronglySorted R l -> StronglySorted (fun a b => R b a) (rev l).
Proof.
  induction 1 as [|a t St IH Fa]; simpl; [constructor|].
  apply StronglySorted_app; [exact IH | repeat constructor |].
  rewrite Forall_forall in Fa. intros x y Hx [<-|[]].
  apply Fa. now apply in_rev.
Qed.

(** The stable argsort does what numpy promises of [np.argsort]. *)
Lemma stable_argsort_ok : Numpy.is_argsort Numpy.stable_argsort.
Proof.
  intros a. split; [apply stable_sort_perm|].
  pose proof (stable_sort_sorted (fun i j => Qle_bool (nth i a 0%Q) (nth j a 0%Q))
                (fun i j => Qle_bool_total _ _)
                (fun i j k H1 H2 => Qle_bool_trans _ _ _ H1 H2)
                (seq 0 (List.length a))) as S.
  eapply StronglySorted_weaken_In; [|exact S].
  intros i j _ _ H. now apply Qle_bool_iff.
Qed.

Section ArgsortFacts.
(** [np.argsort]: any function that does what numpy promises. *)
Variable argsort : list Q -> list nat.
Hypothesis argsort_ok : Numpy.is_argsort argsort.

Lemma argsort_perm (a : list Q) : Permutation (argsort a) (seq 0 (List.length a)).
Proof. apply argsort_ok. Qed.

(** The reversed argsort is descending by score. *)
Lemma rev_argsort_sorted (a : list Q) :
  StronglySorted (fun i j => (nth j a 0 <= nth i a 0)%Q) (rev (argsort a)).
Proof. apply StronglySorted_rev. apply argsort_ok. Qed.

Lemma top_indices_bound (a : list Q) (top_k : Z) (i : nat) :
  In i (top_indices argsort a top_k) -> (i < List.length a)%nat.
Proof.
  intros H. apply slice_to_incl, in_rev in H.
  apply (Permutation_in _ (argsort_perm a)), in_seq in H. lia.
Qed.
End ArgsortFacts.

Lemma getitem_Ok {A : Type} (l : list A) (i : nat) :
  (i < List.length l)%nat -> exists x, Numpy.getitem l i = Ok x /\ nth_error l i = Some x.
Proof.
  intros H. unfold Numpy.getitem. destruct (nth_error l i) as [x|] eqn:E.
  - exists x. auto.
  - apply nth_error_None in E. lia.
Qed.

Lemma dot_comm (u v : list Q) : (Numpy.dot u v == Numpy.dot v u)%Q.
Proof.
  revert v. induction u as [|x u IH]; intros [|y v]; simpl; try reflexivity.
  rewrite IH. ring.
Qed.

Section EngineFacts.
Variable encode : string -> list Q.
Variable norm : list Q -> Q.
Variable predict : string -> string -> Q.
Variable ln : Q -> Q.
(** [np.argsort]: any function that does what numpy promises. *)
Variable argsort : list Q -> list nat.
Hypothesis argsort_ok : Numpy.is_argsort argsort.

(** The run of [index_documents]: the documents and the embeddings are
    stored before the BM25 index is built, and stay when building raises. *)
Lemma index_documents_run (docs : list Document) (self : Engine) :
  index_documents encode ln docs self =
  match RankBM25.make ln (tokenized docs) with
  | Ok index =>
      (Ok tt, {| documents := docs;
                 embeddings := Some (map encode (map content docs));
                 bm25 := Some index |})
  | Raise e =>
      (Raise e, {| documents := docs;
                   embeddings := Some (map encode (map content docs));
                   bm25 := bm25 self |})
  end.
Proof.
  unfold index_documents, bind, get_self, put_self, lift, tokenized. simpl.
  destruct (RankBM25.make ln _); reflexivity.
Qed.

Lemma index_documents_ok (docs : list Document) (self self' : Engine) :
  index_documents encode ln docs self = (Ok tt, self') ->
  documents self' = docs /\
  embeddings self' = Some (map encode (map content docs)) /\
  exists index, RankBM25.make ln (tokenized docs) = Ok index /\ bm25 self' = Some index.
Proof.
  rewrite index_documents_run. destruct (RankBM25.make ln _) as [index|e] eqn:E.
  - intros [= <-]. simpl. repeat split. exists index. auto.
  - discriminate.
Qed.

Lemma cosine_similarities_length (E : list (list Q)) (q : list Q) :
  List.length (cosine_similarities norm E q) = List.length E.
Proof. apply length_map. Qed.

Lemma cosine_similarities_nth (docs : list Document) (q : list Q) (i : nat)
    (d : Document) (s : Q) :
  nth_error docs i = Some d ->
  nth_error (cosine_similarities norm (map encode (map content docs)) q) i = Some s ->
  (s == cosine norm q (encode (content d)))%Q.
Proof.
  unfold cosine_similarities. rewrite !map_map. intros Hd Hs.
  rewrite nth_error_map, Hd in Hs. simpl in Hs. injection Hs as <-.
  unfold cosine. rewrite (dot_comm (encode (content d)) q).
  now rewrite (Qmult_comm (norm (encode (content d)))).
Qed.

(** C2, as the code has it. For every [argsort] that does what numpy
    promises, after indexing, and when no norm is 0: [dense_search] with
    [top_k >= 0] returns the first [top_k] documents of a ranking of the
    whole corpus that is descending by cosine similarity to the query, each
    with that similarity as its score, and so the scores returned never
    rise. Nothing is said of the order of documents of equal similarity:
    it is the order [np.argsort] leaves them in, reversed. *)
Theorem dense_search_correct (docs : list Document) (self0 self : Engine)
    (query : string) (top_k : Z) :
  index_documents encode ln docs self0 = (Ok tt, self) ->
  0 <= top_k ->
  (forall d, In d docs ->
             ~ (norm (encode query) * norm (encode (content d)) == 0)%Q) ->
  let similarities :=
    cosine_similarities norm (map encode (map content docs)) (encode query) in
  exists ranking results,
    fst (dense_search encode norm argsort query top_k self) = Ok results /\
    Permutation ranking (seq 0 (List.length docs)) /\
    StronglySorted (fun i j => (nth j similarities 0 <= nth i similarities 0)%Q) ranking /\
    Forall2 (fun idx r =>
               nth_error docs idx = Some (fst r) /\
               nth_error similarities idx = Some (snd r) /\
               (snd r == cosine norm (encode query) (encode (content (fst r))))%Q)
            (firstn (Z.to_nat top_k) ranking) results /\
    StronglySorted (fun a b => (snd b <= snd a)%Q) results /\
    (List.length results <= Z.to_nat top_k)%nat.
Proof.
  intros Hidx Hk _ sims.
  destruct (index_documents_ok _ _ _ Hidx) as [Hd [He _]].
  assert (Hlen : List.length sims = List.length docs)
    by (unfold sims; now rewrite cosine_similarities_length, !length_map).
  exists (rev (argsort sims)).
  unfold dense_search, bind, get_self, lift. simpl. rewrite He, Hd. fold sims.
  destruct (rmap_Forall2
              (fun idx => rbind (Numpy.getitem docs idx) (fun d =>
                          rbind (Numpy.getitem sims idx) (fun s => Ok (d, s))))
              (fun idx r =>
                 nth_error docs idx = Some (fst r) /\
                 nth_error sims idx = Some (snd r) /\
                 (snd r == cosine norm (encode query) (encode (content (fst r))))%Q)
              (top_indices argsort sims top_k)) as [results [Er F]].
  { intros idx Hin. apply (top_indices_bound argsort argsort_ok) in Hin.
    destruct (getitem_Ok docs idx) as [d [Gd Nd]]; [lia|].
    destruct (getitem_Ok sims idx) as [s [Gs Ns]]; [lia|].
    exists (d, s). rewrite Gd. simpl. rewrite Gs. simpl.
    repeat split; auto. eapply cosine_similarities_nth; eauto. }
  exists results. simpl. split; [exact Er|].
  split; [rewrite <- Hlen; eapply Permutation_trans;
          [apply Permutation_sym, Permutation_rev | apply (argsort_perm argsort argsort_ok)]|].
  split; [now apply (rev_argsort_sorted argsort argsort_ok)|].
  unfold top_indices in F. rewrite slice_to_nonneg in F by exact Hk.
  split; [exact F|]. split.
  - eapply (StronglySorted_Forall2 _
              (fun i j => (nth j sims 0 <= nth i sims 0)%Q)
              (fun a b : Document * Q => (snd b <= snd a)%Q)); [|exact F|].
    + intros i j a b [_ [Ni _]] [_ [Nj _]] H.
      now rewrite <- (nth_error_nth _ _ 0%Q Ni), <- (nth_error_nth _ _ 0%Q Nj).
    + apply StronglySorted_firstn. now apply (rev_argsort_sorted argsort argsort_ok).
  - rewrite <- (Forall2_length F). apply firstn_le_length.
Qed.
End EngineFacts.

Lemma rerank_correct_witness :
  let X := {| content := "short"; metadata := []; doc_id := "X";
              score := 0; source := "" |} in
  let Y := {| content := "a longer text"; metadata := []; doc_id := "Y";
              score := 0; source := "" |} in
  Permutation [(Y, (1 # 2)%Q); (X, (9 # 10)%Q)] [(X, (9 # 10)%Q); (Y, (1 # 2)%Q)] /\
  no_ties predict_stub "q" [(X, (9 # 10)%Q); (Y, (1 # 2)%Q)] /\
  rerank predict_stub "q" [(Y, (1 # 2)%Q); (X, (9 # 10)%Q)] 2
  = rerank predict_stub "q" [(X, (9 # 10)%Q); (Y, (1 # 2)%Q)] 2 /\
  map (fun r => doc_id (fst r)) (rerank predict_stub "q" [(X, (9 # 10)%Q); (Y, (1 # 2)%Q)] 2)
  = ["Y"; "X"].
Proof.
  intros X Y.
  assert (P : Permutation [(Y, (1 # 2)%Q); (X, (9 # 10)%Q)]
                          [(X, (9 # 10)%Q); (Y, (1 # 2)%Q)]) by apply perm_swap.
  assert (N : no_ties predict_stub "q" [(X, (9 # 10)%Q); (Y, (1 # 2)%Q)]).
  { unfold no_ties. simpl. constructor.
    - intros [H|[]]. vm_compute in H. discriminate.
    - constructor; [intros [] | constructor]. }
  split; [exact P|]. split; [exact N|]. split.
  - exact (proj2 (proj2 (rerank_correct predict_stub "q"
                           [(X, (9 # 10)%Q); (Y, (1 # 2)%Q)] 2)) _ P N).
  - reflexivity.
Defined.

(** The original C2 fails on two documents of equal similarity: with the
    argsort that leaves equal values in index order, which is an argsort
    numpy may run, they come out in the reverse of their corpus order, the
    later one first. *)
Lemma dense_search_ties_counterexample :
  exists self results,
    Numpy.is_argsort Numpy.stable_argsort /\
    index_documents encode_stub ln_stub tie_corpus new_engine = (Ok tt, self) /\
    fst (dense_search encode_stub norm_exact Numpy.stable_argsort "interest rate" 2 self)
    = Ok results /\
    map (fun r => doc_id (fst r)) results = ["d1"; "d0"] /\
    ~ ties_in_corpus_order tie_corpus results.
Proof.
  eexists. eexists.
  split; [exact stable_argsort_ok|].
  split; [vm_compute; reflexivity|].
  split; [vm_compute; reflexivity|].
  split; [reflexivity|].
  intros H.
  specialize (H 0%nat 1%nat _ _ _ _ ltac:(lia) eq_refl eq_refl ltac:(reflexivity)).
  vm_compute in H. lia.
Qed.

Lemma dense_search_correct_witness :
  exists self,
    Numpy.is_argsort Numpy.stable_argsort /\
    index_documents encode_stub ln_stub tie_corpus new_engine = (Ok tt, self) /\
    0 <= 1 /\
    (forall d, In d tie_corpus ->
               ~ (norm_exact (encode_stub "interest rate")
                  * norm_exact (encode_stub (content d)) == 0)%Q) /\
    exists ranking results,
      fst (dense_search encode_stub norm_exact Numpy.stable_argsort "interest rate" 1 self)
      = Ok results /\
      Permutation ranking [0; 1]%nat /\
      (List.length results <= 1)%nat.
Proof.
  assert (N : forall d, In d tie_corpus ->
                        ~ (norm_exact (encode_stub "interest rate")
                           * norm_exact (encode_stub (content d)) == 0)%Q).
  { intros d _ H. vm_compute in H. discriminate. }
  eexists. split; [exact stable_argsort_ok|].
  split; [vm_compute; reflexivity|]. split; [lia|]. split; [exact N|].
  destruct (dense_search_correct encode_stub norm_exact ln_stub Numpy.stable_argsort
              stable_argsort_ok tie_corpus new_engine _
              "interest rate" 1 eq_refl ltac:(lia) N)
    as [ranking [results [E [P [_ [_ [_ L]]]]]]].
  exists ranking, results. split; [exact E|]. split; [exact P | exact L].
Defined.

(** ** BM25 *)

Lemma numpy_add_length (x y : list Q) :
  List.length y = List.length x -> List.length (Numpy.add x y) = List.length x.
Proof.
  revert y. induction x as [|a x IH]; intros [|b y] H; simpl in *; try discriminate; auto.
Qed.

Lemma numpy_add_nth (x y : list Q) (i : nat) (a b : Q) :
  nth_error x i = Some a -> nth_error y i = Some b ->
  nth_error (Numpy.add x y) i = Some (a + b)%Q.
Proof.
  revert y i. induction x as [|a0 x IH]; intros [|b0 y] [|i] Ha Hb; simpl in *;
    try discriminate; try congruence.
  now apply IH.
Qed.

Lemma make_fields (ln : Q -> Q) (corpus : list (list string)) (m : RankBM25.BM25Okapi) :
  RankBM25.make ln corpus = Ok m ->
  RankBM25.corpus_size m = List.length corpus /\
  RankBM25.doc_freqs m = map RankBM25.frequencies corpus /\
  RankBM25.doc_len m = map (@List.length string) corpus.
Proof.
  unfold RankBM25.make.
  destruct (Py.truediv _ _) as [avg|e]; simpl; [|discriminate].
  destruct (RankBM25.idf_pass ln _ _) as [[tbl idf_sum] neg].
  destruct (Py.truediv _ _) as [average|e]; simpl; [|discriminate].
  intros [= <-]. simpl. auto.
Qed.

Section Scores.
Variable m : RankBM25.BM25Okapi.
Variable corpus : list (list string).
Hypothesis size_ok : RankBM25.corpus_size m = List.length corpus.
Hypothesis freqs_ok : RankBM25.doc_freqs m = map RankBM25.frequencies corpus.
Hypothesis len_ok : RankBM25.doc_len m = map (@List.length string) corpus.

Let per_doc : list (Dict.t Z * nat) :=
  combine (RankBM25.doc_freqs m) (RankBM25.doc_len m).

Lemma per_doc_nth (i : nat) (document : list string) :
  nth_error corpus i = Some document ->
  nth_error per_doc i = Some (RankBM25.frequencies document, List.length document).
Proof.
  unfold per_doc. rewrite freqs_ok, len_ok. clear.
  revert i. induction corpus as [|d t IH]; intros [|i]; simpl; try discriminate.
  - now intros [= ->].
  - apply IH.
Qed.

Lemma per_doc_length : List.length per_doc = List.length corpus.
Proof.
  unfold per_doc. rewrite length_combine, freqs_ok, len_ok, !length_map. lia.
Qed.

Lemma scores_fold (query : list string) :
  forall acc : list Q,
    List.length acc = List.length corpus ->
    let out := fold_left
                 (fun score q => Numpy.add score (map (RankBM25.term_score m q) per_doc))
                 query acc in
    List.length out = List.length corpus /\
    forall i document a,
      nth_error corpus i = Some document ->
      nth_error acc i = Some a ->
      nth_error out i
      = Some (fold_left
                (fun acc q =>
                   (acc + RankBM25.term_score m q
                            (RankBM25.frequencies document, List.length document))%Q)
                query a).
Proof.
  induction query as [|q t IH]; intros acc Hl; simpl.
  - split; [exact Hl|]. intros i document a _ Ha. exact Ha.
  - assert (Hl' : List.length (Numpy.add acc (map (RankBM25.term_score m q) per_doc))
                  = List.length corpus).
    { rewrite numpy_add_length; [exact Hl|].
      now rewrite length_map, per_doc_length. }
    destruct (IH _ Hl') as [L N]. split; [exact L|].
    intros i document a Hd Ha. apply N; [exact Hd|].
    apply numpy_add_nth; [exact Ha|].
    rewrite nth_error_map, (per_doc_nth i document Hd). reflexivity.
Qed.

Lemma get_scores_length (query : list string) :
  List.length (RankBM25.get_scores m query) = List.length corpus.
Proof.
  unfold RankBM25.get_scores. fold per_doc.
  apply scores_fold. now rewrite repeat_length.
Qed.

Lemma get_scores_nth (query : list string) (i : nat) (document : list string) :
  nth_error corpus i = Some document ->
  nth_error (RankBM25.get_scores m query) i
  = Some (bm25_document_score m query document).
Proof.
  intros Hd. unfold RankBM25.get_scores, bm25_document_score. fold per_doc.
  apply scores_fold; [now rewrite repeat_length | exact Hd|].
  apply nth_error_repeat. rewrite size_ok. apply nth_error_Some. congruence.
Qed.
End Scores.

Lemma frequencies_keys (document : list string) (w : string) :
  In w (Dict.keys (RankBM25.frequencies document)) <-> In w document.
Proof.
  unfold RankBM25.frequencies.
  assert (G : forall (l : list string) (d : Dict.t Z),
             In w (Dict.keys
                     (fold_left (fun fr word =>
                                   Dict.set fr word (Dict.get_default fr word 0 + 1))
                                l d))
             <-> In w (Dict.keys d) \/ In w l).
  { induction l as [|x t IH]; intros d; simpl; [tauto|].
    rewrite IH, DictFacts.keys_set.
    destruct (Dict.mem d x) eqn:E.
    - apply DictFacts.get_In_keys in E. split; [tauto|].
      intros [H|[<-|H]]; auto.
    - rewrite in_app_iff. simpl. tauto. }
  rewrite G. simpl. tauto.
Qed.

Lemma term_score_absent (m : RankBM25.BM25Okapi) (q : string) (document : list string) :
  ~ In q document ->
  (RankBM25.term_score m q (RankBM25.frequencies document, List.length document) == 0)%Q.
Proof.
  intros H. unfold RankBM25.term_score. simpl.
  assert (E : Dict.get_default (RankBM25.frequencies document) q 0 = 0).
  { unfold Dict.get_default.
    destruct (Dict.get (RankBM25.frequencies document) q) eqn:G; [|reflexivity].
    exfalso. apply H, frequencies_keys.
    apply DictFacts.get_In_keys. unfold Dict.mem. now rewrite G. }
  rewrite E. unfold Qdiv. change (inject_Z 0) with 0%Q. ring.
Qed.

Lemma bm25_no_shared_term (m : RankBM25.BM25Okapi) (query document : list string) :
  (forall t, In t query -> ~ In t document) ->
  (bm25_document_score m query document == 0)%Q.
Proof.
  unfold bm25_document_score. intros H.
  assert (G : forall (l : list string) (a : Q),
             (forall t, In t l -> ~ In t document) ->
             (fold_left
                (fun acc q =>
                   acc + RankBM25.term_score m q
                           (RankBM25.frequencies document, List.length document))
                l a == a)%Q).
  { induction l as [|q t IH]; intros a Hl; simpl; [reflexivity|].
    rewrite IH by (intros; apply Hl; now right).
    rewrite term_score_absent by (apply Hl; now left). ring. }
  now apply G.
Qed.

Lemma positive_results_spec (docs : list Document) (scores : list Q) (idxs : list nat) :
  (forall idx, In idx idxs ->
               (idx < List.length docs)%nat /\ (idx < List.length scores)%nat) ->
  exists results,
    positive_results docs scores idxs = Ok results /\
    (List.length results <= List.length idxs)%nat /\
    forall d s, In (d, s) results ->
                exists idx, In idx idxs /\ nth_error docs idx = Some d /\
                            nth_error scores idx = Some s /\ (0 < s)%Q.
Proof.
  induction idxs as [|idx t IH]; intros H; simpl.
  - exists []. split; [reflexivity|]. split; [simpl; lia|]. intros ? ? [].
  - destruct IH as [rest [E [L P]]]; [intros; apply H; now right|].
    destruct (H idx (or_introl eq_refl)) as [Hd Hs].
    destruct (getitem_Ok scores idx Hs) as [s [Gs Ns]].
    destruct (getitem_Ok docs idx Hd) as [d [Gd Nd]].
    rewrite Gs. simpl. destruct (Qlt_le_dec 0 s) as [Pos|Neg].
    + rewrite Gd. simpl. rewrite E. simpl.
      exists ((d, s) :: rest). split; [reflexivity|]. split; [simpl; lia|].
      intros d' s' [[= <- <-]|Hin].
      * exists idx. auto.
      * destruct (P _ _ Hin) as [i [Hi R]]. exists i. auto.
    + exists rest. split; [exact E|]. split; [simpl; lia|].
      intros d' s' Hin. destruct (P _ _ Hin) as [i [Hi R]]. exists i. auto.
Qed.

Section SparseFacts.
Variable encode : string -> list Q.
Variable ln : Q -> Q.
(** [np.argsort]: any function that does what numpy promises. *)
Variable argsort : list Q -> list nat.
Hypothesis argsort_ok : Numpy.is_argsort argsort.

(** The run of [sparse_search] on an indexed engine: no index is out of
    range, and what is returned is a prefix of the positively scored
    documents among the top indices. *)
Lemma sparse_search_run (docs : list Document) (self0 self : Engine)
    (query : string) (top_k : Z) :
  index_documents encode ln docs self0 = (Ok tt, self) ->
  exists index found,
    RankBM25.make ln (tokenized docs) = Ok index /\
    bm25 self = Some index /\
    fst (sparse_search argsort query top_k self) = Ok (Py.slice_to top_k found) /\
    forall d s, In (d, s) found ->
                exists idx, nth_error docs idx = Some d /\
                            nth_error (RankBM25.get_scores index (tokens query)) idx
                            = Some s /\
                            (0 < s)%Q.
Proof.
  intros Hidx.
  destruct (index_documents_ok _ _ _ _ _ Hidx) as [Hd [_ [index [Hm Hb]]]].
  destruct (make_fields _ _ _ Hm) as [Hsize [Hfr Hlen]].
  set (scores := RankBM25.get_scores index (tokens query)).
  assert (Ls : List.length scores = List.length docs).
  { unfold scores.
    rewrite (get_scores_length index (tokenized docs) Hsize Hfr Hlen).
    unfold tokenized. now rewrite length_map. }
  destruct (positive_results_spec docs scores (top_indices argsort scores top_k))
    as [found [E [_ P]]].
  { intros idx Hin. apply (top_indices_bound argsort argsort_ok) in Hin. lia. }
  exists index, found. split; [exact Hm|]. split; [exact Hb|]. split.
  - unfold sparse_search, bind, get_self, lift, ret. simpl. rewrite Hb, Hd.
    fold (tokens query). fold scores. now rewrite E.
  - intros d s Hin. destruct (P _ _ Hin) as [idx [_ R]]. exists idx. exact R.
Qed.

(** C4. After indexing, every pair [sparse_search] returns holds a document
    of the corpus with its BM25 score for the query, and that score is
    strictly positive. Hence a document whose score is not strictly
    positive, and so a document that shares no term with the query (its
    score is 0), is never returned, whatever [top_k]; and for [top_k >= 0]
    at most [top_k] pairs are returned. *)
Theorem sparse_search_positive (docs : list Document) (self0 self : Engine)
    (query : string) (top_k : Z) :
  index_documents encode ln docs self0 = (Ok tt, self) ->
  exists index results,
    bm25 self = Some index /\
    fst (sparse_search argsort query top_k self) = Ok results /\
    (forall d s,
        In (d, s) results ->
        In d docs /\ (0 < s)%Q /\
        (s == bm25_document_score index (tokens query) (tokens (content d)))%Q) /\
    (forall d,
        (bm25_document_score index (tokens query) (tokens (content d)) <= 0)%Q ->
        ~ In d (map fst results)) /\
    (forall d, shares_no_term query d -> ~ In d (map fst results)) /\
    (0 <= top_k -> (List.length results <= Z.to_nat top_k)%nat).
Proof.
  intros Hidx.
  destruct (sparse_search_run docs self0 self query top_k Hidx)
    as [index [found [Hm [Hb [E P]]]]].
  destruct (make_fields _ _ _ Hm) as [Hsize [Hfr Hlen]].
  assert (R : forall d s,
             In (d, s) (Py.slice_to top_k found) ->
             In d docs /\ (0 < s)%Q /\
             (s == bm25_document_score index (tokens query) (tokens (content d)))%Q).
  { intros d s Hin. apply slice_to_incl in Hin.
    destruct (P _ _ Hin) as [idx [Nd [Ns Pos]]].
    split; [eapply nth_error_In; eauto|]. split; [exact Pos|].
    rewrite (get_scores_nth index (tokenized docs) Hsize Hfr Hlen
               (tokens query) idx (tokens (content d))) in Ns.
    - injection Ns as <-. reflexivity.
    - unfold tokenized. rewrite nth_error_map, Nd. reflexivity. }
  assert (Neg : forall d,
             (bm25_document_score index (tokens query) (tokens (content d)) <= 0)%Q ->
             ~ In d (map fst (Py.slice_to top_k found))).
  { intros d Hle Hin. apply in_map_iff in Hin. destruct Hin as [[d' s] [<- Hin]].
    destruct (R _ _ Hin) as [_ [Pos Es]]. simpl in Hle. rewrite <- Es in Hle.
    exact (Qlt_irrefl _ (Qlt_le_trans _ _ _ Pos Hle)). }
  exists index, (Py.slice_to top_k found).
  split; [exact Hb|]. split; [exact E|].
  split; [exact R|]. split; [exact Neg|]. split.
  - intros d Hno. apply Neg. rewrite bm25_no_shared_term by exact Hno. apply Qle_refl.
  - intros Hk. now apply slice_to_length.
Qed.
End SparseFacts.

Lemma dict_set_not_nil {V : Type} (d : Dict.t V) (k : string) (v : V) :
  Dict.set d k v <> [].
Proof. destruct d as [|[k' v'] r]; simpl; [|destruct (String.eqb k' k)]; discriminate. Qed.

Lemma frequencies_not_nil (document : list string) :
  document <> [] -> RankBM25.frequencies document <> [].
Proof.
  intros H E. destruct document as [|w t]; [congruence|].
  assert (In w (Dict.keys (RankBM25.frequencies (w :: t))))
    by (apply frequencies_keys; now left).
  rewrite E in *. contradiction.
Qed.

Lemma count_document_not_nil (nd fr : Dict.t Z) :
  nd <> [] \/ fr <> [] -> RankBM25.count_document nd fr <> [].
Proof.
  unfold RankBM25.count_document, Dict.items. revert nd.
  induction fr as [|wf t IH]; intros nd H; simpl.
  - destruct H; congruence.
  - apply IH. left. apply dict_set_not_nil.
Qed.

Lemma count_documents_not_nil (frs : list (Dict.t Z)) :
  forall nd, nd <> [] \/ (exists fr, In fr frs /\ fr <> []) ->
             fold_left RankBM25.count_document frs nd <> [].
Proof.
  induction frs as [|fr t IH]; intros nd H; simpl.
  - destruct H as [H|[fr [[] _]]]. exact H.
  - apply IH. destruct H as [H|[fr' [[<-|Hin] Hne]]].
    + left. apply count_document_not_nil. now left.
    + left. apply count_document_not_nil. now right.
    + right. exists fr'. auto.
Qed.

Lemma idf_pass_not_nil (ln : Q -> Q) (n : nat) (nd : Dict.t Z) :
  nd <> [] -> fst (fst (RankBM25.idf_pass ln n nd)) <> [].
Proof.
  unfold RankBM25.idf_pass, Dict.items.
  assert (G : forall (l : list (string * Z)) (acc : Dict.t Q * Q * list string),
             l <> [] \/ fst (fst acc) <> [] ->
             fst (fst (fold_left
               (fun (acc : Dict.t Q * Q * list string) (wf : string * Z) =>
                  let '(tbl, idf_sum, negative_idfs) := acc in
                  let i := (ln (inject_Z (Z.of_nat n) - inject_Z (snd wf) + (1 # 2))
                            - ln (inject_Z (snd wf) + (1 # 2)))%Q in
                  (Dict.set tbl (fst wf) i, (idf_sum + i)%Q,
                   if Qlt_le_dec i 0 then negative_idfs ++ [fst wf] else negative_idfs))
               l acc)) <> []).
  { induction l as [|wf t IH]; intros [[tbl s] neg] H; simpl.
    - destruct H; [congruence | assumption].
    - apply IH. right. simpl. apply dict_set_not_nil. }
  intros H. apply G. now left.
Qed.

(** Building the BM25 index succeeds on a corpus with at least one token. *)
Lemma make_ok (ln : Q -> Q) (corpus : list (list string)) :
  (exists document, In document corpus /\ document <> []) ->
  exists m, RankBM25.make ln corpus = Ok m.
Proof.
  intros [document [Hin Hne]]. unfold RankBM25.make.
  assert (Hn : List.length corpus <> O) by (destruct corpus; [destruct Hin | discriminate]).
  unfold Py.truediv at 1. rewrite inject_Z_nonzero by lia. simpl.
  pose proof (idf_pass_not_nil ln (List.length corpus)
                (fold_left RankBM25.count_document
                           (map RankBM25.frequencies corpus) Dict.empty)) as T.
  destruct (RankBM25.idf_pass ln _ _) as [[tbl idf_sum] neg]. simpl in T.
  assert (Ht : tbl <> []).
  { apply T. apply count_documents_not_nil. right.
    exists (RankBM25.frequencies document). split.
    - now apply in_map.
    - now apply frequencies_not_nil. }
  unfold Py.truediv. rewrite inject_Z_nonzero.
  - simpl. eexists. reflexivity.
  - destruct tbl; [congruence | simpl; lia].
Qed.

Section ErrorFacts.
Variable encode : string -> list Q.
Variable norm : list Q -> Q.
Variable predict : string -> string -> Q.
Variable ln : Q -> Q.
(** [np.argsort]: any function that does what numpy promises. *)
Variable argsort : list Q -> list nat.
Hypothesis argsort_ok : Numpy.is_argsort argsort.

(** C8. On an engine on which nothing was indexed, [dense_search] and
    [sparse_search] raise the not-indexed error, which the pipeline passes
    on to its caller. After [index_documents] has returned, both searches
    return results; and [index_documents] returns on every corpus that
    holds at least one token. *)
Theorem not_indexed_error :
  (forall query top_k,
      fst (dense_search encode norm argsort query top_k new_engine) = Raise not_indexed /\
      fst (sparse_search argsort query top_k new_engine) = Raise not_indexed) /\
  (forall query kd ks kf,
      fst (advanced_rag_pipeline encode norm predict argsort query kd ks kf new_engine)
      = Raise not_indexed) /\
  (forall docs self0 self query top_k,
      index_documents encode ln docs self0 = (Ok tt, self) ->
      (exists results, fst (dense_search encode norm argsort query top_k self) = Ok results) /\
      (exists results, fst (sparse_search argsort query top_k self) = Ok results)) /\
  (forall docs self0,
      (exists d, In d docs /\ tokens (content d) <> []) ->
      exists self, index_documents encode ln docs self0 = (Ok tt, self)).
Proof.
  split; [|split; [|split]].
  - intros query top_k. split; reflexivity.
  - intros query kd ks kf. reflexivity.
  - intros docs self0 self query top_k Hidx. split.
    + destruct (index_documents_ok _ _ _ _ _ Hidx) as [Hd [He _]].
      unfold dense_search, bind, get_self, lift. simpl. rewrite He, Hd.
      set (sims := cosine_similarities norm _ _).
      destruct (rmap_Forall2
                  (fun idx => rbind (Numpy.getitem docs idx) (fun d =>
                              rbind (Numpy.getitem sims idx) (fun s => Ok (d, s))))
                  (fun _ _ => True) (top_indices argsort sims top_k)) as [results [Er _]].
      { intros idx Hin. apply (top_indices_bound argsort argsort_ok) in Hin.
        assert (Hl : List.length sims = List.length docs)
          by (unfold sims; now rewrite cosine_similarities_length, !length_map).
        destruct (getitem_Ok docs idx) as [d [Gd _]]; [lia|].
        destruct (getitem_Ok sims idx) as [s [Gs _]]; [lia|].
        exists (d, s). rewrite Gd. simpl. rewrite Gs. auto. }
      exists results. simpl. exact Er.
    + destruct (sparse_search_run encode ln argsort argsort_ok docs self0 self query top_k Hidx)
        as [index [found [_ [_ [E _]]]]].
      eexists. exact E.
  - intros docs self0 [d [Hin Hne]]. rewrite index_documents_run.
    destruct (make_ok ln (tokenized docs)) as [m E].
    + exists (tokens (content d)). split; [|exact Hne].
      unfold tokenized. now apply (in_map (fun doc => Str.split (Str.lower (content doc)))).
    + rewrite E. eexists. reflexivity.
Qed.
End ErrorFacts.

Lemma sparse_search_positive_witness :
  exists self,
    index_documents encode_stub ln_stub tie_corpus new_engine = (Ok tt, self) /\
    exists index results,
      bm25 self = Some index /\
      fst (sparse_search Numpy.stable_argsort "bond yield" 5 self) = Ok results /\
      (forall d, shares_no_term "bond yield" d -> ~ In d (map fst results)).
Proof.
  eexists. split; [vm_compute; reflexivity|].
  destruct (sparse_search_positive encode_stub ln_stub
      Numpy.stable_argsort stable_argsort_ok tie_corpus new_engine _
              "bond yield" 5 eq_refl)
    as [index [results [B [E [_ [_ [N _]]]]]]].
  exists index, results. split; [exact B|]. split; [exact E | exact N].
Defined.

Lemma not_indexed_error_witness :
  exists self,
    index_documents encode_stub ln_stub tie_corpus new_engine = (Ok tt, self) /\
    (exists results,
        fst (dense_search encode_stub norm_exact
            Numpy.stable_argsort "interest" 3 self) = Ok results) /\
    (exists results, fst (sparse_search Numpy.stable_argsort "interest" 3 self) = Ok results).
Proof.
  eexists. split; [vm_compute; reflexivity|].
  exact (proj1 (proj2 (proj2 (not_indexed_error encode_stub norm_exact predict_stub ln_stub
      Numpy.stable_argsort stable_argsort_ok)))
           tie_corpus new_engine _ "interest" 3 eq_refl).
Defined.

(** ** The searches read the engine and write nothing *)

Lemma rmap_inv {A B : Type} (f : A -> result B) (l : list A) :
  forall ys, rmap f l = Ok ys -> Forall2 (fun x y => f x = Ok y) l ys.
Proof.
  induction l as [|x t IH]; simpl; intros ys H.
  - injection H as <-. constructor.
  - destruct (f x) as [y|e] eqn:E; simpl in H; [|discriminate].
    destruct (rmap f t) as [ys'|e] eqn:Et; simpl in H; [|discriminate].
    injection H as <-. constructor; auto.
Qed.

Lemma getitem_In {A : Type} (l : list A) (i : nat) (x : A) :
  Numpy.getitem l i = Ok x -> In x l.
Proof.
  unfold Numpy.getitem. destruct (nth_error l i) eqn:E; [|discriminate].
  intros [= <-]. eapply nth_error_In; eauto.
Qed.

Lemma positive_results_docs (docs : list Document) (scores : list Q) (idxs : list nat) :
  forall results,
    positive_results docs scores idxs = Ok results ->
    forall d s, In (d, s) results -> In d docs.
Proof.
  induction idxs as [|idx t IH]; simpl; intros results H d s Hin.
  - injection H as <-. destruct Hin.
  - destruct (Numpy.getitem scores idx) as [s0|e]; simpl in H; [|discriminate].
    destruct (Qlt_le_dec 0 s0); [|eauto].
    destruct (Numpy.getitem docs idx) as [d0|e] eqn:G; simpl in H; [|discriminate].
    destruct (positive_results docs scores t) as [r|e]; simpl in H; [|discriminate].
    injection H as <-. destruct Hin as [[= <- <-]|Hin]; [|eauto].
    eapply getitem_In; eauto.
Qed.

Lemma doc_lookup_In (l : list (Document * Q)) (id : string) (d : Document) :
  Dict.get (doc_lookup l) id = Some d -> In d (map fst l).
Proof.
  unfold doc_lookup.
  assert (G : forall (t : list (Document * Q)) (d0 : Dict.t Document) (seen : list Document),
             (forall i x, Dict.get d0 i = Some x -> In x seen) ->
             forall i x,
               Dict.get (fold_left (fun d p => Dict.set d (doc_id (fst p)) (fst p)) t d0) i
               = Some x ->
               In x (seen ++ map fst t)).
  { induction t as [|[d1 s1] t IH]; intros d0 seen H0 i x; simpl.
    - rewrite app_nil_r. apply H0.
    - intros H. apply (IH _ (seen ++ [d1])) in H.
      + now rewrite <- app_assoc in H.
      + intros j y. destruct (String.eqb_spec (doc_id d1) j) as [<-|N].
        * rewrite DictFacts.get_set_same. intros [= <-]. apply in_or_app. right. now left.
        * rewrite DictFacts.get_set_other by exact N. intros Hy.
          apply in_or_app. left. eauto. }
  intros H. apply (G l Dict.empty [] (fun i x (E : None = Some x) => ltac:(discriminate)) id d H).
Qed.

Lemma reciprocal_rank_fusion_docs (dense sparse fused : list (Document * Q)) (k : Z) :
  reciprocal_rank_fusion dense sparse k = Ok fused ->
  forall d s, In (d, s) fused -> In d (map fst (dense ++ sparse)).
Proof.
  unfold reciprocal_rank_fusion.
  destruct (rrf_accumulate k 1 dense Dict.empty) as [ds1|e]; simpl; [|discriminate].
  destruct (rrf_accumulate k 1 sparse ds1) as [ds2|e]; simpl; [|discriminate].
  intros H d s Hin. apply rmap_inv in H.
  destruct (Forall2_In_r _ _ _ _ H Hin) as [p [_ E]].
  unfold Dict.getitem in E.
  destruct (Dict.get (doc_lookup (dense ++ sparse)) (fst p)) as [d'|] eqn:G;
    simpl in E; [|discriminate].
  injection E as <- _. eapply doc_lookup_In; eauto.
Qed.

Section FrameFacts.
Variable encode : string -> list Q.
Variable norm : list Q -> Q.
Variable predict : string -> string -> Q.
(** [np.argsort]: any function that does what numpy promises. *)
Variable argsort : list Q -> list nat.
Hypothesis argsort_ok : Numpy.is_argsort argsort.

Lemma dense_search_state (query : string) (top_k : Z) (self : Engine) :
  snd (dense_search encode norm argsort query top_k self) = self.
Proof.
  unfold dense_search, bind, get_self, lift, raise. simpl.
  destruct (embeddings self); reflexivity.
Qed.

Lemma sparse_search_state (query : string) (top_k : Z) (self : Engine) :
  snd (sparse_search argsort query top_k self) = self.
Proof.
  unfold sparse_search, bind, get_self, lift, raise, ret. simpl.
  destruct (bm25 self); [|reflexivity].
  destruct (positive_results _ _ _); reflexivity.
Qed.

Lemma dense_search_docs (query : string) (top_k : Z) (self : Engine)
    (results : list (Document * Q)) :
  fst (dense_search encode norm argsort query top_k self) = Ok results ->
  forall d s, In (d, s) results -> In d (documents self).
Proof.
  unfold dense_search, bind, get_self, lift, raise. simpl.
  destruct (embeddings self) as [E|]; simpl; [|discriminate].
  intros H d s Hin. apply rmap_inv in H.
  destruct (Forall2_In_r _ _ _ _ H Hin) as [idx [_ G]].
  destruct (Numpy.getitem (documents self) idx) as [d'|e] eqn:Gd; simpl in G; [|discriminate].
  destruct (Numpy.getitem _ idx) as [s'|e] in G; simpl in G; [|discriminate].
  injection G as <- _. eapply getitem_In; eauto.
Qed.

Lemma sparse_search_docs (query : string) (top_k : Z) (self : Engine)
    (results : list (Document * Q)) :
  fst (sparse_search argsort query top_k self) = Ok results ->
  forall d s, In (d, s) results -> In d (documents self).
Proof.
  unfold sparse_search, bind, get_self, lift, raise, ret. simpl.
  destruct (bm25 self) as [index|]; simpl; [|discriminate].
  destruct (positive_results _ _ _) as [r|e] eqn:P; simpl; [|discriminate].
  intros [= <-] d s Hin. apply slice_to_incl in Hin.
  eapply positive_results_docs; eauto.
Qed.

Lemma pipeline_run (query : string) (kd ks kf : Z) (self : Engine) :
  snd (advanced_rag_pipeline encode norm predict argsort query kd ks kf self) = self /\
  forall r,
    fst (advanced_rag_pipeline encode norm predict argsort query kd ks kf self) = Ok r ->
    forall d, In d (res_documents r) -> In d (documents self).
Proof.
  unfold advanced_rag_pipeline, bind.
  pose proof (dense_search_state query kd self) as Sd.
  pose proof (dense_search_docs query kd self) as Dd.
  destruct (dense_search encode norm argsort query kd self) as [[dr|e] s1]; simpl in *;
    subst s1; [|split; [reflexivity | discriminate]].
  pose proof (sparse_search_state query ks self) as Ss.
  pose proof (sparse_search_docs query ks self) as Ds.
  destruct (sparse_search argsort query ks self) as [[sr|e] s2]; simpl in *;
    subst s2; [|split; [reflexivity | discriminate]].
  unfold lift, get_self, ret.
  destruct (reciprocal_rank_fusion dr sr rrf_default_k) as [fused|e] eqn:F; simpl;
    [|split; [reflexivity | discriminate]].
  split; [reflexivity|].
  intros r [= <-] d Hin. simpl in Hin.
  apply in_map_iff in Hin. destruct Hin as [[d' s] [<- Hin]]. simpl.
  rewrite rerank_unfold in Hin. apply slice_to_incl in Hin.
  apply (Permutation_in _ (sorted_desc_perm snd _)) in Hin.
  unfold rescored in Hin. apply in_map_iff in Hin.
  destruct Hin as [[d0 s0] [[= <- _] Hin]]. simpl.
  pose proof (reciprocal_rank_fusion_docs _ _ _ _ F _ _ Hin) as M.
  rewrite map_app in M. apply in_app_or in M.
  destruct M as [M|M]; apply in_map_iff in M; destruct M as [[d1 s1] [<- M]]; simpl.
  - eapply Dd; eauto.
  - eapply Ds; eauto.
Qed.

(** C9, as the code has it. No retrieval call writes to the engine: after
    [dense_search], [sparse_search] and the pipeline the engine, and with it
    every field of every stored document, is what it was before, and the
    documents a call returns are stored documents as they are; the score of
    the call is the second component of the returned pair only. *)
Theorem retrieval_writes_nothing (query : string) (top_k kd ks kf : Z) (self : Engine) :
  snd (dense_search encode norm argsort query top_k self) = self /\
  snd (sparse_search argsort query top_k self) = self /\
  snd (advanced_rag_pipeline encode norm predict argsort query kd ks kf self) = self /\
  (forall results,
      fst (dense_search encode norm argsort query top_k self) = Ok results ->
      forall d s, In (d, s) results -> In d (documents self)) /\
  (forall results,
      fst (sparse_search argsort query top_k self) = Ok results ->
      forall d s, In (d, s) results -> In d (documents self)) /\
  (forall r,
      fst (advanced_rag_pipeline encode norm predict argsort query kd ks kf self) = Ok r ->
      forall d, In d (res_documents r) -> In d (documents self)).
Proof.
  split; [apply dense_search_state|].
  split; [apply sparse_search_state|].
  split; [apply pipeline_run|].
  split; [apply dense_search_docs|].
  split; [apply sparse_search_docs | apply pipeline_run].
Qed.
End FrameFacts.

(** After a dense search that scored both documents 1, their stored score is
    still 0. *)
Lemma score_not_written_counterexample :
  exists self results,
    index_documents encode_stub ln_stub tie_corpus new_engine = (Ok tt, self) /\
    dense_search encode_stub norm_exact
        Numpy.stable_argsort "interest rate" 2 self = (Ok results, self) /\
    ~ scores_written results self.
Proof.
  eexists. eexists.
  split; [vm_compute; reflexivity|].
  split; [vm_compute; reflexivity|].
  intros H.
  specialize (H (nth 1 tie_corpus (doc_of_id "")) (25 # 25)%Q (nth 1 tie_corpus (doc_of_id ""))
                ltac:(left; reflexivity) ltac:(right; left; reflexivity) eq_refl).
  vm_compute in H. discriminate.
Qed.

Lemma retrieval_writes_nothing_witness :
  exists self,
    index_documents encode_stub ln_stub tie_corpus new_engine = (Ok tt, self) /\
    snd (dense_search encode_stub norm_exact Numpy.stable_argsort "interest rate" 2 self) = self.
Proof.
  eexists. split; [vm_compute; reflexivity|].
  exact (proj1 (retrieval_writes_nothing encode_stub norm_exact predict_stub Numpy.stable_argsort
                  "interest rate" 2 2 2 2 _)).
Defined.

(** ** The knowledge graph: states *)

Lemma add_node_nodes (n : GraphNode) (self : GraphRAG) :
  nodes (snd (add_node n self)) = Dict.set (nodes self) (node_id n) n.
Proof.
  unfold add_node, bind, get_self, put_self, raise. simpl.
  destruct (keyword_clash _ _); reflexivity.
Qed.

Lemma add_node_graph (n : GraphNode) (self : GraphRAG) :
  graph (snd (add_node n self)) =
  match fst (add_node n self) with
  | Ok _ => Networkx.add_node (graph self) (node_id n)
              (Networkx.update
                 [("entity_type", entity_type n); ("name", name n);
                  ("description", description n)] (node_metadata n))
  | Raise _ => graph self
  end.
Proof.
  unfold add_node, bind, get_self, put_self, raise. simpl.
  destruct (keyword_clash _ _); reflexivity.
Qed.

Lemma add_edge_nodes (e : GraphEdge) (self : GraphRAG) :
  nodes (snd (add_edge e self)) = nodes self.
Proof.
  unfold add_edge, bind, get_self, put_self, raise. simpl.
  destruct (keyword_clash _ _); reflexivity.
Qed.

Lemma nodes_keyed_set (self : GraphRAG) (n : GraphNode) (G : Networkx.DiGraph) :
  nodes_keyed self ->
  nodes_keyed {| graph := G; nodes := Dict.set (nodes self) (node_id n) n |}.
Proof.
  intros [ND K]. split; simpl.
  - now apply DictFacts.NoDup_keys_set.
  - intros k m Hin.
    assert (G0 : Dict.get (Dict.set (nodes self) (node_id n) n) k = Some m)
      by (apply DictFacts.In_get_Some; [now apply DictFacts.NoDup_keys_set | exact Hin]).
    destruct (String.eqb_spec (node_id n) k) as [<-|N].
    + rewrite DictFacts.get_set_same in G0. now injection G0 as <-.
    + rewrite DictFacts.get_set_other in G0 by exact N.
      apply K. now apply DictFacts.get_Some_In.
Qed.

Lemma add_node_keyed (n : GraphNode) (self : GraphRAG) :
  nodes_keyed self -> nodes_keyed (snd (add_node n self)).
Proof.
  intros H. pose proof (nodes_keyed_set self n (graph (snd (add_node n self))) H) as K.
  unfold nodes_keyed in *. now rewrite add_node_nodes.
Qed.

Lemma values_replace (d : Dict.t GraphNode) (n2 : GraphNode) :
  NoDup (Dict.keys d) ->
  (forall k n, In (k, n) d -> node_id n = k) ->
  Dict.mem d (node_id n2) = true ->
  Dict.values (Dict.set d (node_id n2) n2) = map (replace_node n2) (Dict.values d).
Proof.
  intros ND K M. rewrite (DictFacts.values_set d (node_id n2) n2 M ND).
  unfold Dict.values. rewrite !map_map. apply map_ext_in.
  intros [k n] Hin. simpl. unfold replace_node. rewrite (K _ _ Hin).
  now destruct (String.eqb k (node_id n2)).
Qed.

(** C10. Adding [n1] and then [n2] of the same id to a graph leaves [n2]
    under that id: the lookup of the id gives [n2], the number of stored
    nodes is what it was after the first call (and so is the number of nodes
    of the networkx graph when both calls return), the stored nodes are those
    after the first call with [n2] in the place of [n1], and
    [find_node_by_name] searches these, so that a node of that id it returns
    is [n2]. *)
Theorem add_node_overwrites (self : GraphRAG) (n1 n2 : GraphNode) :
  nodes_keyed self ->
  node_id n1 = node_id n2 ->
  let self1 := snd (add_node n1 self) in
  let self2 := snd (add_node n2 self1) in
  Dict.get (nodes self2) (node_id n1) = Some n2 /\
  List.length (nodes self2) = List.length (nodes self1) /\
  (fst (add_node n1 self) = Ok tt -> fst (add_node n2 self1) = Ok tt ->
   Networkx.number_of_nodes (graph self2) = Networkx.number_of_nodes (graph self1)) /\
  Dict.values (nodes self2) = map (replace_node n2) (Dict.values (nodes self1)) /\
  (forall nm,
      find_node_by_name self2 nm
      = find (name_matches nm) (map (replace_node n2) (Dict.values (nodes self1)))) /\
  (forall nm r,
      find_node_by_name self2 nm = Some r -> node_id r = node_id n2 -> r = n2).
Proof.
  intros K E self1 self2.
  assert (K1 : nodes_keyed self1) by now apply add_node_keyed.
  assert (M1 : Dict.mem (nodes self1) (node_id n2) = true).
  { unfold self1. rewrite add_node_nodes, E. unfold Dict.mem.
    now rewrite DictFacts.get_set_same. }
  assert (V : Dict.values (nodes self2) = map (replace_node n2) (Dict.values (nodes self1))).
  { unfold self2. rewrite add_node_nodes. destruct K1 as [ND1 Kd1].
    now apply values_replace. }
  split; [|split; [|split; [|split; [|split]]]].
  - unfold self2. rewrite add_node_nodes, E. apply DictFacts.get_set_same.
  - unfold self2. rewrite add_node_nodes. now apply DictFacts.length_set_mem.
  - intros R1 R2. unfold self2. rewrite add_node_graph, R2.
    assert (H1 : Networkx.has_node (graph self1) (node_id n2) = true).
    { unfold self1. rewrite add_node_graph, R1, <- E.
      unfold Networkx.add_node, Networkx.has_node.
      destruct (Dict.mem (Networkx.node (graph self)) (node_id n1)) eqn:M; simpl;
        unfold Dict.mem; now rewrite DictFacts.get_set_same. }
    unfold Networkx.add_node. rewrite H1. unfold Networkx.number_of_nodes. simpl.
    now apply DictFacts.length_set_mem.
  - exact V.
  - intros nm. unfold find_node_by_name. now rewrite V.
  - intros nm r F Hid. unfold find_node_by_name in F. rewrite V in F.
    apply find_some in F. destruct F as [Hin _].
    apply in_map_iff in Hin. destruct Hin as [n [<- _]].
    unfold replace_node in *.
    destruct (String.eqb_spec (node_id n) (node_id n2)); [reflexivity | contradiction].
Qed.

(** ** Path search *)

Lemma is_walk_cons (G : Networkx.DiGraph) (x y : string) (t : list string) :
  is_walk G (x :: y :: t) <-> is_edge G x y /\ is_walk G (y :: t).
Proof. reflexivity. Qed.

Lemma last_nonempty {A : Type} (l : list A) (d d' : A) :
  l <> [] -> last l d = last l d'.
Proof.
  induction l as [|x t IH]; intros H; [congruence|].
  destruct t as [|y t]; [reflexivity|]. simpl in *. apply IH. discriminate.
Qed.

Lemma last_In {A : Type} (l : list A) (d : A) : l <> [] -> In (last l d) l.
Proof.
  induction l as [|x t IH]; intros H; [congruence|].
  destruct t as [|y t]; [now left|]. right. apply IH. discriminate.
Qed.

Lemma simple_path_single (G : Networkx.DiGraph) (b : nat) (v : string) :
  simple_path_within G b v v [v].
Proof.
  split; [|split].
  - split; [reflexivity|]. split; [reflexivity|]. split; [discriminate | exact I].
  - constructor; [intros [] | constructor].
  - simpl. lia.
Qed.

(** A simple path from a node to itself is the single node. *)
Lemma simple_path_loop (G : Networkx.DiGraph) (b : nat) (v : string) (q : list string) :
  simple_path_within G b v v q -> q = [v].
Proof.
  intros [[Hh [Hl [Hne Hw]]] [ND L]].
  destruct q as [|x t]; [congruence|]. simpl in Hh. injection Hh as ->.
  destruct t as [|y t]; [reflexivity|]. exfalso.
  inversion ND as [|? ? Hn _]; subst. apply Hn.
  change (last (v :: y :: t) v) with (last (y :: t) v) in Hl.
  rewrite <- Hl at 1. apply last_In. discriminate.
Qed.

(** A simple path from [v] to another node is [v], an edge, and a simple
    path from a successor that avoids [v]. *)
Lemma simple_path_step (G : Networkx.DiGraph) (b : nat) (v target : string)
    (q : list string) :
  v <> target ->
  (simple_path_within G (S b) v target q <->
   exists w q', q = v :: q' /\ is_edge G v w /\ ~ In v q' /\
                simple_path_within G b w target q').
Proof.
  intros N. split.
  - intros [[Hh [Hl [Hne Hw]]] [ND L]].
    destruct q as [|x t]; [congruence|]. simpl in Hh. injection Hh as ->.
    destruct t as [|w t]; [simpl in Hl; congruence|].
    destruct Hw as [He Hw]. inversion ND as [|? ? Hn ND']; subst.
    exists w, (w :: t). split; [reflexivity|]. split; [exact He|]. split; [exact Hn|].
    split; [|split; [exact ND' | simpl in *; lia]].
    split; [reflexivity|]. split; [|split; [discriminate | exact Hw]].
    change (last (v :: w :: t) v) with (last (w :: t) v).
    apply last_nonempty. discriminate.
  - intros [w [q' [-> [He [Hn [[Hh [Hl [Hne Hw]]] [ND L]]]]]]].
    destruct q' as [|x t]; [congruence|]. simpl in Hh. injection Hh as ->.
    split; [|split; [now constructor | simpl in *; lia]].
    split; [reflexivity|]. split; [|split; [discriminate | split; assumption]].
    change (last (v :: w :: t) v) with (last (w :: t) v).
    rewrite <- Hl. apply last_nonempty. discriminate.
Qed.

Lemma simple_path_zero (G : Networkx.DiGraph) (v target : string) (q : list string) :
  v <> target -> ~ simple_path_within G 0 v target q.
Proof.
  intros N [[Hh [Hl [Hne Hw]]] [ND L]].
  destruct q as [|x [|y t]]; simpl in *; try congruence; lia.
Qed.

Lemma simple_paths_from_eq (G : Networkx.DiGraph) (target : string) (budget : nat)
    (path : list string) (v : string) :
  Networkx.simple_paths_from G target budget path v =
  if String.eqb v target then [rev (v :: path)]
  else
    match budget with
    | O => []
    | S budget' =>
        flat_map
          (fun w =>
             if Networkx.mem_string w (v :: path) then []
             else Networkx.simple_paths_from G target budget' (v :: path) w)
          (Networkx.successors G v)
    end.
Proof. destruct budget; reflexivity. Qed.

Lemma simple_paths_from_spec (G : Networkx.DiGraph) (target : string) (budget : nat) :
  forall (path : list string) (v : string) (p : list string),
    ~ In v path ->
    (In p (Networkx.simple_paths_from G target budget path v) <->
     exists q,
       p = rev path ++ q /\
       simple_path_within G budget v target q /\
       (forall x, In x q -> ~ In x path)).
Proof.
  assert (Hit : forall b path v p, ~ In v path ->
            (In p [rev (v :: path)] <->
             exists q, p = rev path ++ q /\ simple_path_within G b v v q /\
                       (forall x, In x q -> ~ In x path))).
  { intros b path v p Hv. split.
    - intros [<-|[]]. exists [v]. split; [reflexivity|].
      split; [apply simple_path_single|]. intros x [<-|[]]. exact Hv.
    - intros [q [-> [Hq _]]]. apply simple_path_loop in Hq. subst. now left. }
  induction budget as [|b IH]; intros path v p Hv; rewrite simple_paths_from_eq.
  - destruct (String.eqb_spec v target) as [->|N]; [now apply Hit|].
    split; [intros H; destruct H|]. intros [q [_ [Hq _]]]. exact (simple_path_zero _ _ _ _ N Hq).
  - destruct (String.eqb_spec v target) as [->|N]; [now apply Hit|].
    rewrite in_flat_map. split.
    + intros [w [Hw Hin]].
      destruct (Networkx.mem_string w (v :: path)) eqn:M; [simpl in Hin; contradiction|].
      apply DictFacts.mem_string_false in M.
      apply (IH (v :: path) w p M) in Hin.
      destruct Hin as [q [-> [Hq Hd]]].
      exists (v :: q). simpl. rewrite <- app_assoc. split; [reflexivity|]. split.
      * apply simple_path_step; [exact N|]. exists w, q.
        split; [reflexivity|]. split; [exact Hw|]. split; [|exact Hq].
        intros Hc. apply (Hd v Hc). now left.
      * intros x [<-|Hx]; [exact Hv|]. intros Hp. apply (Hd x Hx). now right.
    + intros [q [-> [Hq Hd]]].
      apply simple_path_step in Hq; [|exact N].
      destruct Hq as [w [q' [-> [He [Hn Hq']]]]].
      assert (Hw : In w q').
      { destruct Hq' as [[Hh _] _]. destruct q'; [discriminate|].
        simpl in Hh. injection Hh as ->. now left. }
      assert (M : ~ In w (v :: path)).
      { intros [<-|Hc]; [contradiction|]. apply (Hd w); [now right | exact Hc]. }
      exists w. split; [exact He|].
      rewrite (proj2 (DictFacts.mem_string_false _ _) M).
      apply (IH (v :: path) w); [exact M|].
      exists q'. simpl. rewrite <- app_assoc. split; [reflexivity|].
      split; [exact Hq'|].
      intros x Hx [<-|Hc]; [contradiction|]. apply (Hd x); [now right | exact Hc].
Qed.

Lemma sorted_asc_nat_perm {A : Type} (key : A -> nat) (l : list A) :
  Permutation (Py.sorted_asc_nat key l) l.
Proof. apply stable_sort_perm. Qed.

Lemma sorted_asc_nat_sorted {A : Type} (key : A -> nat) (l : list A) :
  StronglySorted (fun a b => (key a <= key b)%nat) (Py.sorted_asc_nat key l).
Proof.
  pose proof (stable_sort_sorted (fun x y => Nat.leb (key x) (key y))) as S.
  eapply StronglySorted_weaken_In; [|apply S].
  - intros a b _ _ H. now apply Nat.leb_le.
  - intros a b. rewrite !Nat.leb_le. lia.
  - intros a b c. rewrite !Nat.leb_le. lia.
Qed.

Lemma all_simple_paths_spec (G : Networkx.DiGraph) (source target : string) :
  Networkx.has_node G source = true ->
  Networkx.has_node G target = true ->
  exists all,
    Networkx.all_simple_paths G source target 4 = Ok all /\
    forall p, In p all <-> simple_path_within G 4 source target p.
Proof.
  intros Hs Ht. unfold Networkx.all_simple_paths. rewrite Hs, Ht.
  change (4 <? 0) with false. cbv beta iota delta [negb].
  change (Z.to_nat 4) with 4%nat.
  eexists. split; [reflexivity|]. intros p.
  rewrite simple_paths_from_spec by (intros []). simpl. split.
  - intros [q [-> [Hq _]]]. exact Hq.
  - intros Hq. exists p. split; [reflexivity|]. split; [exact Hq|]. intros x _ [].
Qed.



Lemma add_node_overwrites_witness :
  nodes_keyed new_graph_rag /\
  Dict.get (nodes (snd (add_node (mk_node "var" "metric" "VaR (new)" "" [])
                          (snd (add_node (mk_node "var" "metric" "VaR" "" [])
                                         new_graph_rag)))))
           "var"
  = Some (mk_node "var" "metric" "VaR (new)" "" []).
Proof.
  assert (K : nodes_keyed new_graph_rag).
  { split; [constructor | intros k n []]. }
  split; [exact K|].
  exact (proj1 (add_node_overwrites new_graph_rag
                  (mk_node "var" "metric" "VaR" "" [])
                  (mk_node "var" "metric" "VaR (new)" "" []) K eq_refl)).
Defined.

(** ** Graph queries *)

(** The nodes [query] matches: the stored nodes, in insertion order, whose
    lowered name contains a token of the lowered query; for [max_nodes >= 0]
    the first [max_nodes] of them. *)
Lemma query_nodes (self : GraphRAG) (q : string) (max_nodes : Z) (ctx : GraphContext) :
  0 <= max_nodes ->
  query self q max_nodes = Ok ctx ->
  ctx_nodes ctx
  = firstn (Z.to_nat max_nodes)
      (filter (fun n => existsb (fun token => Str.contains token (Str.lower (name n)))
                                (tokens q))
              (Dict.values (nodes self))).
Proof.
  intros Hk. unfold query.
  destruct (query_outer _ _ _) as [ep|e]; simpl; [|discriminate].
  destruct (create_subgraph_description _ _ _ _) as [d|e]; simpl; [|discriminate].
  intros [= <-]. simpl. unfold matching_nodes. now rewrite slice_to_nonneg.
Qed.

(** C7 on the graph of [build_financial_knowledge_graph]: the query
    ["var volatility"] matches the nodes [var] and [volatility], the graph
    has the edge from [volatility] to [var], and the context holds no edge.
    [query] looks for an edge from a matched node to the matched nodes after
    it only, and [var] was stored before [volatility]. *)
Theorem query_misses_edge_to_earlier_node :
  exists ctx,
    query financial_graph "var volatility" query_default_max_nodes = Ok ctx /\
    map node_id (ctx_nodes ctx) = ["var"; "volatility"] /\
    Networkx.has_edge (graph financial_graph) "volatility" "var" = true /\
    ctx_edges ctx = [].
Proof.
  eexists. split; [vm_compute; reflexivity|].
  split; [reflexivity|]. split; reflexivity.
Qed.

(** ** Breadth-first search *)

Lemma edge_data_of_key (G : Networkx.DiGraph) (u w : string) (nbrs : Dict.t Networkx.EdgeData) :
  Dict.get (Networkx.adj G) u = Some nbrs ->
  In w (Dict.keys nbrs) ->
  exists data, Networkx.edge_data G u w = Ok data.
Proof.
  intros Hu Hw. unfold Networkx.edge_data, Dict.getitem. rewrite Hu. simpl.
  destruct (Dict.get nbrs w) as [data|] eqn:E; [now exists data|].
  apply DictFacts.get_None_keys in E. contradiction.
Qed.

Lemma edge_data_key (G : Networkx.DiGraph) (u w : string) (data : Networkx.EdgeData) :
  Networkx.edge_data G u w = Ok data ->
  exists nbrs, Dict.get (Networkx.adj G) u = Some nbrs /\ In w (Dict.keys nbrs).
Proof.
  unfold Networkx.edge_data, Dict.getitem.
  destruct (Dict.get (Networkx.adj G) u) as [nbrs|]; simpl; [|discriminate].
  destruct (Dict.get nbrs w) eqn:E; [|discriminate].
  intros _. exists nbrs. split; [reflexivity|].
  apply DictFacts.get_In_keys. unfold Dict.mem. now rewrite E.
Qed.

Lemma filter_length_lt {A : Type} (f g : A -> bool) (l : list A) (w : A) :
  (forall x, f x = true -> g x = true) ->
  In w l -> g w = true -> f w = false ->
  (List.length (filter f l) < List.length (filter g l))%nat.
Proof.
  intros Hfg. induction l as [|x t IH]; intros Hin Hg Hf; [destruct Hin|].
  assert (Le : (List.length (filter f t) <= List.length (filter g t))%nat).
  { clear -Hfg. induction t as [|y t IH]; simpl; [lia|].
    destruct (f y) eqn:Fy; [rewrite (Hfg _ Fy); simpl; lia|].
    destruct (g y); simpl; lia. }
  simpl. destruct Hin as [->|Hin].
  - rewrite Hg, Hf. simpl. lia.
  - specialize (IH Hin Hg Hf).
    destruct (f x) eqn:Fx; [rewrite (Hfg _ Fx); simpl; lia|].
    destruct (g x); simpl; lia.
Qed.

(** The filter of the search loop drops exactly the edges that do not pass. *)
Lemma filtered_out_passes (rel : option RelationshipType) (data : Networkx.EdgeData) :
  filtered_out rel data = false <-> passes rel data.
Proof.
  destruct rel as [r|]; simpl; [|tauto].
  rewrite negb_false_iff. apply String.eqb_eq.
Qed.

Section BfsFacts.
Variable G : Networkx.DiGraph.
Variable rel : option RelationshipType.
Variable max_depth : Z.
Variable origin : string.
Hypothesis closed : graph_closed G.

Lemma visit_neighbor_step (taken : list (string * Z)) (u : string) (du : Z)
    (nbrs : Dict.t Networkx.EdgeData) (seen : list string) (st : bfs_state) (w : string) :
  Dict.get (Networkx.adj G) u = Some nbrs ->
  In w (Dict.keys nbrs) ->
  0 <= du < max_depth ->
  visit_inv G rel max_depth origin taken u du seen st ->
  exists st',
    visit_neighbor G rel u du (Ok st) w = Ok st' /\
    visit_inv G rel max_depth origin taken u du (seen ++ [w]) st' /\
    (bfs_measure G st' <= bfs_measure G st)%nat.
Proof.
  intros Hu Hw Hdu [Sets [Lab [Ord [Below [Span [Clo Part]]]]]].
  destruct (edge_data_of_key G u w nbrs Hu Hw) as [data Ed].
  unfold visit_neighbor. simpl.
  destruct (Networkx.mem_string w (visited st)) eqn:M.
  - (* already visited *)
    exists st. split; [reflexivity|]. split; [|lia].
    split; [exact Sets|]. split; [exact Lab|]. split; [exact Ord|].
    split; [exact Below|]. split; [exact Span|]. split; [exact Clo|].
    intros w' Hin He. apply in_app_or in Hin. destruct Hin as [Hin|[<-|[]]]; [now apply Part|].
    apply DictFacts.mem_string_In in M.
    destruct Sets as [Sv _]. apply Sv in M. apply in_map_iff in M.
    destruct M as [[w0 dw] [E Hin]]. simpl in E. subst w0.
    exists dw. split; [exact Hin|].
    apply in_app_or in Hin. destruct Hin as [Hin|Hin]; [|now apply (Span w)].
    apply in_app_or in Hin. destruct Hin as [Hin|[[= _ <-]|[]]]; [|lia].
    specialize (Below _ _ Hin). lia.
  - rewrite Ed. simpl. destruct (filtered_out rel data) eqn:F.
    + (* the filter drops the edge *)
      exists st. split; [reflexivity|]. split; [|lia].
      split; [exact Sets|]. split; [exact Lab|]. split; [exact Ord|].
      split; [exact Below|]. split; [exact Span|]. split; [exact Clo|].
      intros w' Hin He. apply in_app_or in Hin.
      destruct Hin as [Hin|[<-|[]]]; [now apply Part|].
      destruct He as [data' [Ed' F']]. rewrite Ed in Ed'. injection Ed' as <-.
      apply filtered_out_passes in F'. congruence.
    + (* a new node *)
      apply DictFacts.mem_string_false in M.
      destruct Sets as [Sv [Sr [Nr So]]].
      assert (Hn : w <> origin) by (intros ->; contradiction).
      assert (Hnode : Networkx.has_node G w = true)
        by (destruct closed as [_ C]; exact (C _ _ _ Hu Hw)).
      assert (Hu_in : In (u, du) ((taken ++ [(u, du)]) ++ queue st))
        by (apply in_or_app; left; apply in_or_app; right; now left).
      eexists. split; [reflexivity|]. split.
      * unfold visit_inv, sets_ok. simpl.
        rewrite !(app_assoc (taken ++ [(u, du)]) (queue st) [(w, du + 1)]).
        set (old := (taken ++ [(u, du)]) ++ queue st) in *.
        split; [|split; [|split; [|split; [|split; [|split]]]]].
        -- (* sets *)
           split; [|split; [|split]]; simpl.
           ++ intros x. rewrite map_app, !in_app_iff, Sv. simpl. tauto.
           ++ intros x. rewrite !in_app_iff, Sr. simpl. split.
              ** intros [[H1 H2]|[<-|[]]]; auto.
              ** intros [[H1|[<-|[]]] H2]; auto.
           ++ apply NoDup_app; [exact Nr | repeat constructor; simpl; tauto|].
              intros x Hx [<-|[]]. apply Sr in Hx. tauto.
           ++ apply in_or_app. now left.
        -- (* labels *)
           intros v d Hin. apply in_app_or in Hin.
           destruct Hin as [Hin|[[= <- <-]|[]]]; [now apply Lab|].
           split; [exact Hnode|]. split; [right; split; [exact Hn | lia]|].
           destruct (Lab _ _ Hu_in) as [_ [_ [k [Ek Hk]]]].
           exists (S k). split; [lia|].
           eapply hops_step; [exact Hk|]. exists data.
           split; [exact Ed | now apply filtered_out_passes].
        -- (* order *)
           destruct Ord as [O1 [O2 O3]]. split; [|split].
           ++ intros v d v' d' Hin Hin'. apply in_app_or in Hin'.
              destruct Hin' as [Hin'|[[= <- <-]|[]]]; [eapply O1; eauto|].
              apply in_app_or in Hin. destruct Hin as [Hin|[[= <- <-]|[]]]; [|lia].
              specialize (Below _ _ Hin). lia.
           ++ apply StronglySorted_app; [exact O2 | repeat constructor|].
              intros [v d] y Hin [<-|[]]. simpl. eapply Span; eauto.
           ++ assert (Low : forall v d, In (v, d) (queue st ++ [(w, du + 1)]) ->
                                        du <= d <= du + 1).
              { intros v d Hin. apply in_app_or in Hin.
                destruct Hin as [Hin|[[= <- <-]|[]]]; [|lia].
                split; [|eapply Span; eauto].
                eapply (O1 u du); [apply in_or_app; right; now left | exact Hin]. }
              intros v d v' d' Hin Hin'. apply Low in Hin, Hin'. lia.
        -- exact Below.
        -- intros v d Hin. apply in_app_or in Hin.
           destruct Hin as [Hin|[[= <- <-]|[]]]; [eapply Span; eauto | lia].
        -- intros x dx Hx Hlt y Hy. destruct (Clo x dx Hx Hlt y Hy) as [dy [Hin Hle]].
           exists dy. split; [apply in_or_app; now left | exact Hle].
        -- intros y Hy He. apply in_app_or in Hy. destruct Hy as [Hy|[<-|[]]].
           ++ destruct (Part y Hy He) as [dy [Hin Hle]].
              exists dy. split; [apply in_or_app; now left | exact Hle].
           ++ exists (du + 1). split; [apply in_or_app; right; now left | lia].
      * unfold bfs_measure, unvisited. simpl. rewrite length_app. simpl.
        assert (L : (List.length
                       (filter (fun x => negb (Networkx.mem_string x (visited st ++ [w])))
                               (Dict.keys (Networkx.node G)))
                     < List.length
                         (filter (fun x => negb (Networkx.mem_string x (visited st)))
                                 (Dict.keys (Networkx.node G))))%nat).
        { apply (filter_length_lt _ _ _ w).
          - intros x Hx. apply negb_true_iff in Hx. apply negb_true_iff.
            apply DictFacts.mem_string_false in Hx. apply DictFacts.mem_string_false.
            intros Hc. apply Hx. apply in_or_app. now left.
          - apply DictFacts.get_In_keys. exact Hnode.
          - apply negb_true_iff. now apply DictFacts.mem_string_false.
          - apply negb_false_iff. apply DictFacts.mem_string_In.
            apply in_or_app. right. now left. }
        lia.
Qed.

Lemma visit_neighbors_fold (taken : list (string * Z)) (u : string) (du : Z)
    (nbrs : Dict.t Networkx.EdgeData) (ws : list string) :
  Dict.get (Networkx.adj G) u = Some nbrs ->
  0 <= du < max_depth ->
  (forall w, In w ws -> In w (Dict.keys nbrs)) ->
  forall seen st,
    visit_inv G rel max_depth origin taken u du seen st ->
    exists st',
      fold_left (visit_neighbor G rel u du) ws (Ok st) = Ok st' /\
      visit_inv G rel max_depth origin taken u du (seen ++ ws) st' /\
      (bfs_measure G st' <= bfs_measure G st)%nat.
Proof.
  intros Hu Hdu. induction ws as [|w t IH]; intros Hws seen st Inv.
  - exists st. rewrite app_nil_r. simpl. auto.
  - destruct (visit_neighbor_step taken u du nbrs seen st w Hu
                (Hws w (or_introl eq_refl)) Hdu Inv) as [st1 [E1 [Inv1 M1]]].
    destruct (IH (fun x Hx => Hws x (or_intror Hx)) (seen ++ [w]) st1 Inv1)
      as [st2 [E2 [Inv2 M2]]].
    exists st2. cbn [fold_left]. rewrite E1, E2. rewrite <- app_assoc in Inv2.
    split; [reflexivity|]. split; [exact Inv2 | lia].
Qed.

(** Taking the head of the queue. *)
Lemma pop_inv (taken : list (string * Z)) (st : bfs_state) (u : string) (du : Z)
    (rest : list (string * Z)) :
  bfs_inv G rel max_depth origin taken st ->
  queue st = (u, du) :: rest ->
  visit_inv G rel max_depth origin taken u du []
    {| queue := rest; visited := visited st; related_ids := related_ids st |}.
Proof.
  intros [Sets [Lab [[O1 [O2 O3]] Clo]]] Q. unfold sets_ok in Sets. rewrite Q in *.
  assert (E : (taken ++ [(u, du)]) ++ rest = taken ++ (u, du) :: rest)
    by now rewrite <- app_assoc.
  inversion O2 as [|? ? Srest Fu]; subst. rewrite Forall_forall in Fu.
  unfold visit_inv, sets_ok. simpl. rewrite !E.
  split; [exact Sets|]. split; [exact Lab|]. split; [|split; [|split; [|split]]].
  - split; [|split].
    + intros v d v' d' Hin Hin'. apply in_app_or in Hin.
      destruct Hin as [Hin|[[= <- <-]|[]]].
      * eapply O1; [exact Hin | right; exact Hin'].
      * exact (Fu (v', d') Hin').
    + exact Srest.
    + intros v d v' d' Hin Hin'. eapply O3; right; eauto.
  - intros v d Hin. eapply O1; [exact Hin | left; reflexivity].
  - intros v d Hin. eapply (O3 u du v d); [left; reflexivity | right; exact Hin].
  - exact Clo.
  - intros w [].
Qed.

(** All successors of [u] are handled, or [u] is too deep to be expanded. *)
Lemma finish_visit (taken : list (string * Z)) (u : string) (du : Z)
    (seen : list string) (st : bfs_state) :
  visit_inv G rel max_depth origin taken u du seen st ->
  max_depth <= du \/ (forall w, typed_edge G rel u w -> In w seen) ->
  bfs_inv G rel max_depth origin (taken ++ [(u, du)]) st.
Proof.
  intros [Sets [Lab [Ord [Below [Span [Clo Part]]]]]] H.
  split; [exact Sets|]. split; [exact Lab|]. split; [exact Ord|].
  intros x dx Hin Hlt w He. apply in_app_or in Hin.
  destruct Hin as [Hin|[[= <- <-]|[]]]; [now apply (Clo x dx)|].
  destruct H as [H|H]; [lia|]. apply Part; auto.
Qed.

Lemma bfs_loop_nil (fuel : nat) (st : bfs_state) :
  queue st = [] -> bfs_loop fuel G rel max_depth st = Some (Ok st).
Proof. intros Q. destruct fuel; simpl; now rewrite Q. Qed.

Lemma measure_pop (st : bfs_state) (e : string * Z) (rest : list (string * Z)) :
  queue st = e :: rest ->
  bfs_measure G st
  = S (bfs_measure G {| queue := rest; visited := visited st; related_ids := related_ids st |}).
Proof. intros Q. unfold bfs_measure, unvisited. simpl. now rewrite Q. Qed.

(** The loop ends with an empty queue and keeps the invariant. *)
Lemma bfs_loop_inv (fuel : nat) :
  forall taken st,
    bfs_inv G rel max_depth origin taken st ->
    (bfs_measure G st <= fuel)%nat ->
    exists taken' st',
      bfs_loop fuel G rel max_depth st = Some (Ok st') /\
      bfs_inv G rel max_depth origin taken' st' /\
      queue st' = [].
Proof.
  induction fuel as [|fuel IH]; intros taken st Inv M.
  - destruct (queue st) as [|e rest] eqn:Q.
    + exists taken, st. rewrite bfs_loop_nil by exact Q. auto.
    + rewrite (measure_pop st e rest Q) in M. lia.
  - destruct (queue st) as [|[u du] rest] eqn:Q.
    + exists taken, st. rewrite bfs_loop_nil by exact Q. auto.
    + pose proof (pop_inv taken st u du rest Inv Q) as V.
      rewrite (measure_pop st _ rest Q) in M.
      simpl. rewrite Q.
      destruct (max_depth <=? du) eqn:D.
      * apply Z.leb_le in D. apply (IH (taken ++ [(u, du)])); [|lia].
        eapply finish_visit; [exact V | now left].
      * apply Z.leb_gt in D.
        destruct Inv as [_ [Lab _]].
        destruct (Lab u du) as [Hnode [Hd _]];
          [rewrite Q; apply in_or_app; right; now left|].
        destruct closed as [C1 _]. rewrite C1 in Hnode. unfold Dict.mem in Hnode.
        unfold Networkx.neighbors.
        destruct (Dict.get (Networkx.adj G) u) as [nbrs|] eqn:Hu; [|discriminate].
        destruct (visit_neighbors_fold taken u du nbrs (Dict.keys nbrs) Hu
                    ltac:(lia) (fun w Hw => Hw) [] _ V) as [st' [E [V' M']]].
        rewrite E. apply (IH (taken ++ [(u, du)])); [|lia].
        eapply finish_visit; [exact V'|]. right.
        intros w [data [Ed _]]. simpl.
        destruct (edge_data_key G u w data Ed) as [nbrs' [Hu' Hw]].
        rewrite Hu in Hu'. now injection Hu' as <-.
Qed.

Hypothesis origin_node : Networkx.has_node G origin = true.

Lemma bfs_start_inv : bfs_inv G rel max_depth origin [] (bfs_start origin).
Proof.
  split; [|split; [|split]].
  - split; [|split; [|split]]; simpl.
    + tauto.
    + intros x. split; [intros [] | intros [[->|[]] H]; congruence].
    + constructor.
    + now left.
  - intros v d [[= <- <-]|[]]. split; [exact origin_node|].
    split; [now left|]. exists O. split; [reflexivity | constructor].
  - split; [|split]; simpl.
    + intros v d v' d' [].
    + repeat constructor.
    + intros v d v' d' [[= <- <-]|[]] [[= <- <-]|[]]. lia.
  - intros u du [].
Qed.

Lemma bfs_start_measure : (bfs_measure G (bfs_start origin) <= Networkx.number_of_nodes G)%nat.
Proof.
  unfold bfs_measure, unvisited, Networkx.number_of_nodes, bfs_start.
  cbn [queue visited related_ids List.length].
  assert (L : (List.length
                 (filter (fun x => negb (Networkx.mem_string x [origin]))
                         (Dict.keys (Networkx.node G)))
               < List.length (filter (fun _ => true) (Dict.keys (Networkx.node G))))%nat).
  { apply (filter_length_lt _ _ _ origin); auto.
    - apply DictFacts.get_In_keys. exact origin_node.
    - apply negb_false_iff. apply DictFacts.mem_string_In. now left. }
  rewrite filter_true in L. unfold Dict.keys in *. rewrite length_map in L. lia.
Qed.

(** What the loop has found when it ends. *)
Lemma bfs_final (taken : list (string * Z)) (st : bfs_state) :
  bfs_inv G rel max_depth origin taken st ->
  queue st = [] ->
  NoDup (related_ids st) /\
  forall x, In x (related_ids st)
            <-> within_hops G rel max_depth origin x /\ x <> origin.
Proof.
  intros [[Sv [Sr [Nr So]]] [Lab [_ Clo]]] Q. rewrite Q, app_nil_r in *.
  assert (Complete : forall k v,
             hops G rel origin k v -> Z.of_nat k <= max_depth ->
             exists d, In (v, d) taken /\ d <= Z.of_nat k).
  { intros k v H. induction H as [|k w v H IH E]; intros Hk.
    - apply Sv in So. apply in_map_iff in So. destruct So as [[o d] [Eo Hin]].
      simpl in Eo. subst o. exists d. split; [exact Hin|].
      destruct (Lab _ _ Hin) as [_ [[[_ ->]|[N _]] _]]; [simpl; lia | congruence].
    - destruct IH as [dw [Hin Hle]]; [lia|].
      destruct (Clo w dw Hin ltac:(lia) v E) as [dv [Hv Hlv]].
      exists dv. split; [exact Hv | lia]. }
  split; [exact Nr|]. intros x. rewrite Sr. split.
  - intros [Hx N]. split; [|exact N]. apply Sv in Hx. apply in_map_iff in Hx.
    destruct Hx as [[x' d] [Ex Hin]]. simpl in Ex. subst x'.
    destruct (Lab _ _ Hin) as [_ [[[E _]|[_ Hd]] [k [Ek Hk]]]]; [congruence|].
    exists k. split; [lia|]. split; [lia | exact Hk].
  - intros [[k [H1 [H2 H3]]] N]. split; [|exact N].
    destruct (Complete k x H3 H2) as [d [Hin _]].
    apply Sv. apply in_map_iff. exists (x, d). auto.
Qed.

(** The search loop of [find_related_nodes] ends within its fuel, raises
    nothing, and finds the ids within [max_depth] kept hops of the origin,
    each once and without the origin. *)
Lemma bfs_loop_correct :
  exists st,
    bfs_loop (Networkx.number_of_nodes G) G rel max_depth (bfs_start origin) = Some (Ok st) /\
    NoDup (related_ids st) /\
    forall x, In x (related_ids st)
              <-> within_hops G rel max_depth origin x /\ x <> origin.
Proof.
  destruct (bfs_loop_inv (Networkx.number_of_nodes G) [] (bfs_start origin)
              bfs_start_inv bfs_start_measure) as [taken [st [E [Inv Q]]]].
  exists st. split; [exact E|]. eapply bfs_final; eauto.
Qed.
End BfsFacts.

Lemma known_nodes_In (self : GraphRAG) (ids : list string) (r : GraphNode) :
  nodes_keyed self ->
  (In r (known_nodes self ids)
   <-> In (node_id r) ids /\ Dict.get (nodes self) (node_id r) = Some r).
Proof.
  intros [_ K]. unfold known_nodes. rewrite in_flat_map. split.
  - intros [id [Hid Hin]].
    destruct (Dict.get (nodes self) id) as [n|] eqn:E; [|destruct Hin].
    destruct Hin as [->|[]].
    pose proof (K _ _ (DictFacts.get_Some_In _ _ _ E)) as Hk. subst id. auto.
  - intros [Hid E]. exists (node_id r). split; [exact Hid|]. rewrite E. now left.
Qed.

Lemma known_nodes_NoDup (self : GraphRAG) (ids : list string) :
  nodes_keyed self -> NoDup ids -> NoDup (known_nodes self ids).
Proof.
  intros K. induction 1 as [|id t Hn ND IH]; [constructor|].
  change (known_nodes self (id :: t))
    with ((match Dict.get (nodes self) id with Some n => [n] | None => [] end)
          ++ known_nodes self t).
  destruct (Dict.get (nodes self) id) as [n|] eqn:E; [|exact IH].
  simpl. constructor; [|exact IH]. intros Hin.
  apply (known_nodes_In self t n K) in Hin. destruct Hin as [Hin _].
  destruct K as [_ K]. rewrite (K _ _ (DictFacts.get_Some_In _ _ _ E)) in Hin. contradiction.
Qed.

Lemma typed_edge_any (G : Networkx.DiGraph) (u v : string) :
  typed_edge G None u v <-> is_edge G u v.
Proof.
  unfold is_edge, Networkx.successors, Dict.get_default. split.
  - intros [data [Ed _]]. destruct (edge_data_key G u v data Ed) as [nbrs [Hu Hv]].
    now rewrite Hu.
  - intros H. destruct (Dict.get (Networkx.adj G) u) as [nbrs|] eqn:Hu; [|destruct H].
    destruct (edge_data_of_key G u v nbrs Hu H) as [data Ed].
    exists data. split; [exact Ed | exact I].
Qed.

Lemma hops_one (G : Networkx.DiGraph) (rel : option RelationshipType) (u v : string) :
  hops G rel u 1 v <-> typed_edge G rel u v.
Proof.
  split.
  - intros H. inversion H as [|k w v' H0 E]; subst. inversion H0; subst. exact E.
  - intros E. eapply hops_step; [constructor | exact E].
Qed.

Lemma within_one_hop (G : Networkx.DiGraph) (rel : option RelationshipType) (u v : string) :
  within_hops G rel 1 u v <-> typed_edge G rel u v.
Proof.
  rewrite <- hops_one. split.
  - intros [k [H1 [H2 H3]]]. assert (k = 1%nat) as -> by lia. exact H3.
  - intros H. exists 1%nat. split; [lia|]. split; [lia | exact H].
Qed.

(** C5, as the code has it. On a graph built by [add_node] and [add_edge],
    for a node [n] of the graph, [find_related_nodes] ends and raises
    nothing; it returns, each once, the stored nodes other than [n] that are
    reached from [n] along at least one and at most [max_depth] outgoing
    edges, each of the relationship type asked for when one is asked for;
    [n] itself is never returned. A node of the graph that has no entry in
    [self.nodes] is never returned. So with [max_depth = 1] the ids returned
    are the direct successors of [n] other than [n] that are stored nodes:
    all of them without a filter, and with a filter those whose edge from
    [n] carries the value of the type asked for. *)
Theorem find_related_nodes_correct (self : GraphRAG) (n : string)
    (rel : option RelationshipType) (max_depth : Z) :
  well_formed self ->
  Networkx.has_node (graph self) n = true ->
  exists found,
    find_related_nodes self n rel max_depth = Some (Ok found) /\
    (forall r, In r found <->
               within_hops (graph self) rel max_depth n (node_id r) /\
               node_id r <> n /\
               Dict.get (nodes self) (node_id r) = Some r) /\
    NoDup found /\
    (forall r, In r found -> node_id r <> n) /\
    (max_depth = 1 -> rel = None ->
     forall r, In r found <->
               is_edge (graph self) n (node_id r) /\
               node_id r <> n /\
               Dict.get (nodes self) (node_id r) = Some r) /\
    (max_depth = 1 -> rel = None ->
     forall v, In v (map node_id found) <->
               is_edge (graph self) n v /\ v <> n /\ Dict.mem (nodes self) v = true) /\
    (max_depth = 1 ->
     forall t, rel = Some t ->
     forall v, In v (map node_id found) <->
               (exists data,
                   Networkx.edge_data (graph self) n v = Ok data /\
                   Networkx.ed_relationship data = value t) /\
               v <> n /\ Dict.mem (nodes self) v = true).
Proof.
  intros [K C] Hn.
  destruct (bfs_loop_correct (graph self) rel max_depth n C Hn) as [st [E [ND R]]].
  unfold find_related_nodes. rewrite Hn. simpl negb. cbv iota.
  unfold bfs_start in E. rewrite E.
  exists (known_nodes self (related_ids st)). split; [reflexivity|].
  assert (Char : forall r, In r (known_nodes self (related_ids st)) <->
                           within_hops (graph self) rel max_depth n (node_id r) /\
                           node_id r <> n /\
                           Dict.get (nodes self) (node_id r) = Some r).
  { intros r. rewrite (known_nodes_In self _ r K), R. tauto. }
  assert (One : max_depth = 1 -> rel = None ->
                forall r, In r (known_nodes self (related_ids st)) <->
                          is_edge (graph self) n (node_id r) /\
                          node_id r <> n /\
                          Dict.get (nodes self) (node_id r) = Some r).
  { intros -> -> r. rewrite Char, within_one_hop, typed_edge_any. tauto. }
  assert (Ids : forall v, In v (map node_id (known_nodes self (related_ids st))) <->
                          within_hops (graph self) rel max_depth n v /\
                          v <> n /\ Dict.mem (nodes self) v = true).
  { intros v. rewrite in_map_iff. unfold Dict.mem. split.
    - intros [r [<- Hin]]. apply Char in Hin. destruct Hin as [H1 [H2 H3]].
      rewrite H3. auto.
    - intros [H1 [H2 H3]].
      destruct (Dict.get (nodes self) v) as [r|] eqn:G; [|discriminate].
      assert (Hid : node_id r = v)
        by (destruct K as [_ K]; apply K; now apply DictFacts.get_Some_In).
      exists r. split; [exact Hid|]. apply Char. rewrite Hid. auto. }
  split; [exact Char|]. split; [now apply known_nodes_NoDup|].
  split; [|split; [exact One|split]].
  - intros r Hr. apply Char in Hr. tauto.
  - intros Hd Hr v. rewrite Ids. subst max_depth rel.
    rewrite within_one_hop, typed_edge_any. tauto.
  - intros Hd t Hr v. rewrite Ids. subst max_depth rel.
    rewrite within_one_hop. unfold typed_edge, passes. tauto.
Qed.

(** ** The states [add_node] and [add_edge] build are well formed *)

Lemma mem_set {V : Type} (d : Dict.t V) (k k' : string) (v : V) :
  Dict.mem (Dict.set d k v) k' = String.eqb k k' || Dict.mem d k'.
Proof.
  unfold Dict.mem. destruct (String.eqb_spec k k') as [->|N].
  - now rewrite DictFacts.get_set_same.
  - now rewrite DictFacts.get_set_other.
Qed.

Lemma graph_closed_empty : graph_closed Networkx.empty.
Proof. split; [reflexivity | intros u nbrs v H; discriminate]. Qed.

Lemma graph_closed_new_node (G : Networkx.DiGraph) (n : string) (attr : Dict.t string) :
  graph_closed G ->
  graph_closed {| Networkx.node := Dict.set (Networkx.node G) n attr;
                  Networkx.adj := Dict.set (Networkx.adj G) n [] |}.
Proof.
  intros [C1 C2]. split; unfold Networkx.has_node in *; simpl.
  - intros u. now rewrite !mem_set, C1.
  - intros u nbrs v. destruct (String.eqb_spec n u) as [->|N].
    + rewrite DictFacts.get_set_same. intros [= <-] [].
    + rewrite DictFacts.get_set_other by exact N. intros Hu Hv.
      rewrite mem_set, (C2 _ _ _ Hu Hv). apply orb_true_r.
Qed.

Lemma graph_closed_ensure_node (G : Networkx.DiGraph) (n : string) :
  graph_closed G -> graph_closed (Networkx.ensure_node G n).
Proof.
  intros C. unfold Networkx.ensure_node.
  destruct (Networkx.has_node G n); [exact C | now apply graph_closed_new_node].
Qed.

Lemma ensure_node_has (G : Networkx.DiGraph) (n m : string) :
  Networkx.has_node G m = true \/ m = n ->
  Networkx.has_node (Networkx.ensure_node G n) m = true.
Proof.
  unfold Networkx.ensure_node. intros H.
  destruct (Networkx.has_node G n) eqn:E.
  - destruct H as [H| ->]; assumption.
  - unfold Networkx.has_node in *. simpl. rewrite mem_set.
    destruct H as [-> | ->]; [apply orb_true_r | now rewrite String.eqb_refl].
Qed.

Lemma graph_closed_add_node (G : Networkx.DiGraph) (n : string) (attr : Dict.t string) :
  graph_closed G -> graph_closed (Networkx.add_node G n attr).
Proof.
  intros C. unfold Networkx.add_node.
  destruct (Networkx.has_node G n) eqn:E; [|now apply graph_closed_new_node].
  destruct C as [C1 C2]. split; unfold Networkx.has_node in *; simpl.
  - intros u. rewrite mem_set, <- C1.
    destruct (String.eqb_spec n u) as [<-|N]; [now rewrite E | reflexivity].
  - intros u nbrs v Hu Hv. rewrite mem_set, (C2 _ _ _ Hu Hv). apply orb_true_r.
Qed.

Lemma graph_closed_add_edge (G : Networkx.DiGraph) (u v : string) (attr : Networkx.EdgeData) :
  graph_closed G -> graph_closed (Networkx.add_edge G u v attr).
Proof.
  intros C. unfold Networkx.add_edge.
  set (G2 := Networkx.ensure_node (Networkx.ensure_node G u) v).
  assert (C' : graph_closed G2) by (unfold G2; now do 2 apply graph_closed_ensure_node).
  assert (Hu : Networkx.has_node G2 u = true).
  { unfold G2. apply ensure_node_has. left. apply ensure_node_has. now right. }
  assert (Hv : Networkx.has_node G2 v = true)
    by (unfold G2; apply ensure_node_has; now right).
  destruct C' as [C1 C2].
  set (succ_u := Dict.get_default (Networkx.adj G2) u []).
  set (datadict := match Dict.get succ_u v with Some _ => _ | None => _ end).
  split; unfold Networkx.has_node in *; simpl.
  - intros x. rewrite mem_set, C1.
    destruct (String.eqb_spec u x) as [<-|N]; [|reflexivity].
    rewrite <- C1. now rewrite Hu.
  - intros x nbrs w. destruct (String.eqb_spec u x) as [<-|N].
    + rewrite DictFacts.get_set_same. intros [= <-].
      rewrite DictFacts.keys_set. intros Hw.
      assert (Old : In w (Dict.keys succ_u) -> Dict.mem (Networkx.node G2) w = true).
      { unfold succ_u, Dict.get_default.
        destruct (Dict.get (Networkx.adj G2) u) as [nbrs|] eqn:E; [|intros []].
        apply (C2 _ _ _ E). }
      destruct (Dict.mem succ_u v); [now apply Old|].
      apply in_app_or in Hw. destruct Hw as [Hw|[<-|[]]]; [now apply Old | exact Hv].
    + rewrite DictFacts.get_set_other by exact N. apply C2.
Qed.

Lemma well_formed_new : well_formed new_graph_rag.
Proof.
  split; [split; [constructor | intros k n []] | exact graph_closed_empty].
Qed.

Lemma well_formed_add_node (n : GraphNode) (self : GraphRAG) :
  well_formed self -> well_formed (snd (add_node n self)).
Proof.
  intros [K C]. split; [now apply add_node_keyed|].
  rewrite add_node_graph. destruct (fst (add_node n self)); [|exact C].
  now apply graph_closed_add_node.
Qed.

Lemma well_formed_add_edge (e : GraphEdge) (self : GraphRAG) :
  well_formed self -> well_formed (snd (add_edge e self)).
Proof.
  intros [K C]. unfold add_edge, bind, get_self, put_self, raise. simpl.
  destruct (keyword_clash _ _); simpl; [now split|].
  split; [exact K | now apply graph_closed_add_edge].
Qed.

Lemma well_formed_seq (m k : M GraphRAG unit) :
  (forall s, well_formed s -> well_formed (snd (m s))) ->
  (forall s, well_formed s -> well_formed (snd (k s))) ->
  forall s, well_formed s -> well_formed (snd (bind m (fun _ => k) s)).
Proof.
  intros Hm Hk s W. unfold bind. specialize (Hm s W).
  destruct (m s) as [[a|e] s']; simpl in *; [now apply Hk | exact Hm].
Qed.

Lemma well_formed_build :
  forall s, well_formed s -> well_formed (snd (build_financial_knowledge_graph s)).
Proof.
  unfold build_financial_knowledge_graph.
  repeat (apply well_formed_seq;
          [first [exact (well_formed_add_node _) | exact (well_formed_add_edge _)]|]).
  exact (well_formed_add_edge _).
Qed.

Lemma well_formed_financial_graph : well_formed financial_graph.
Proof. exact (well_formed_build new_graph_rag well_formed_new). Qed.

(** With the filter [AFFECTS], of the two successors of [interest_rate]
    only [bonds] is returned: the edge to [inflation] is of another type. *)
Lemma find_related_nodes_correct_witness :
  well_formed financial_graph /\
  Networkx.has_node (graph financial_graph) "interest_rate" = true /\
  is_edge (graph financial_graph) "interest_rate" "inflation" /\
  exists found,
    find_related_nodes financial_graph "interest_rate" (Some AFFECTS) 1
    = Some (Ok found) /\
    map node_id found = ["bonds"] /\
    forall v, In v (map node_id found) <->
              (exists data,
                  Networkx.edge_data (graph financial_graph) "interest_rate" v = Ok data /\
                  Networkx.ed_relationship data = value AFFECTS) /\
              v <> "interest_rate" /\ Dict.mem (nodes financial_graph) v = true.
Proof.
  split; [exact well_formed_financial_graph|]. split; [reflexivity|].
  split; [vm_compute; tauto|].
  destruct (find_related_nodes_correct financial_graph "interest_rate" (Some AFFECTS) 1
              well_formed_financial_graph eq_refl)
    as [found [E [_ [_ [_ [_ [_ H]]]]]]].
  exists found. split; [exact E|]. split; [|exact (H eq_refl AFFECTS eq_refl)].
  vm_compute in E. injection E as <-. reflexivity.
Defined.

(** The original C5 fails on a graph the two writing methods build: [b] is a
    direct successor of [a] and is not [a], and the search from [a] returns
    nothing, because [b] has no entry in [self.nodes]. *)
Lemma find_related_nodes_unstored_counterexample :
  well_formed edge_to_unstored /\
  Networkx.has_node (graph edge_to_unstored) "a" = true /\
  Networkx.has_node (graph edge_to_unstored) "b" = true /\
  is_edge (graph edge_to_unstored) "a" "b" /\
  "b" <> "a" /\
  find_related_nodes edge_to_unstored "a" None 1 = Some (Ok []).
Proof.
  split.
  - unfold edge_to_unstored, after_calls. cbn [fold_left run_call].
    apply well_formed_add_edge, well_formed_add_node, well_formed_new.
  - split; [reflexivity|]. split; [reflexivity|]. split; [vm_compute; tauto|].
    split; [discriminate | reflexivity].
Qed.

(** * Further properties of the retrieval core *)

(** ** Indexing *)

Lemma frequencies_nil : RankBM25.frequencies [] = [].
Proof. reflexivity. Qed.

Lemma count_documents_nil (corpus : list (list string)) :
  (forall document, In document corpus -> document = []) ->
  fold_left RankBM25.count_document (map RankBM25.frequencies corpus) Dict.empty
  = Dict.empty.
Proof.
  induction corpus as [|document t IH]; intros H; simpl; [reflexivity|].
  rewrite (H document (or_introl eq_refl)). simpl.
  apply IH. intros d Hd. apply H. now right.
Qed.

(** Building the BM25 index raises on a corpus without any token. *)
Lemma make_raises (ln : Q -> Q) (corpus : list (list string)) :
  (forall document, In document corpus -> document = []) ->
  RankBM25.make ln corpus = Raise ZeroDivisionError.
Proof.
  intros H. unfold RankBM25.make. destruct corpus as [|document t].
  - reflexivity.
  - assert (Hn : List.length (document :: t) <> O) by discriminate.
    revert H Hn. generalize (document :: t). intros c H Hn.
    unfold Py.truediv at 1. rewrite inject_Z_nonzero by lia. cbn [rbind].
    rewrite (count_documents_nil c H). reflexivity.
Qed.

Lemma has_token_dec (corpus : list (list string)) :
  (exists document, In document corpus /\ document <> []) \/
  (forall document, In document corpus -> document = []).
Proof.
  induction corpus as [|document t IH].
  - right. intros d [].
  - destruct document as [|w r].
    + destruct IH as [[d [Hd Hn]]|IH].
      * left. exists d. split; [now right | exact Hn].
      * right. intros d [<-|Hd]; auto.
    + left. exists (w :: r). split; [now left | discriminate].
Qed.

Section IndexFacts.
Variable encode : string -> list Q.
Variable ln : Q -> Q.

(** [index_documents] returns exactly on the corpora that hold a token, and
    raises [ZeroDivisionError] (out of the BM25 constructor) on the others,
    the empty corpus among them. *)
Theorem index_documents_succeeds_iff (docs : list Document) (self : Engine) :
  (fst (index_documents encode ln docs self) = Ok tt
   <-> exists d, In d docs /\ tokens (content d) <> []) /\
  ((forall d, In d docs -> tokens (content d) = []) ->
   fst (index_documents encode ln docs self) = Raise ZeroDivisionError) /\
  fst (index_documents encode ln [] self) = Raise ZeroDivisionError.
Proof.
  assert (Fail : (forall d, In d docs -> tokens (content d) = []) ->
                 fst (index_documents encode ln docs self) = Raise ZeroDivisionError).
  { intros H. rewrite index_documents_run, make_raises; [reflexivity|].
    intros document Hin. unfold tokenized in Hin. apply in_map_iff in Hin.
    destruct Hin as [d [<- Hd]]. exact (H d Hd). }
  split; [|split; [exact Fail | reflexivity]].
  split.
  - intros Hok.
    destruct (has_token_dec (tokenized docs)) as [[document [Hin Hne]]|None].
    + unfold tokenized in Hin. apply in_map_iff in Hin. destruct Hin as [d [<- Hd]].
      exists d. split; [exact Hd | exact Hne].
    + rewrite index_documents_run, (make_raises ln _ None) in Hok. discriminate.
  - intros [d [Hd Hne]]. rewrite index_documents_run.
    destruct (make_ok ln (tokenized docs)) as [m E].
    + exists (tokens (content d)). split; [|exact Hne].
      unfold tokenized. now apply (in_map (fun doc => Str.split (Str.lower (content doc)))).
    + now rewrite E.
Qed.

(** Indexing replaces the corpus: the engine a successful call leaves does
    not depend on the engine it started from. A call that raises has
    already replaced the documents and the embeddings, and leaves the BM25
    index of before. *)
Theorem index_documents_replaces (docs : list Document) :
  (forall self1 self2 self,
      index_documents encode ln docs self1 = (Ok tt, self) ->
      index_documents encode ln docs self2 = (Ok tt, self)) /\
  (forall self e self',
      index_documents encode ln docs self = (Raise e, self') ->
      documents self' = docs /\
      embeddings self' = Some (map encode (map content docs)) /\
      bm25 self' = bm25 self).
Proof.
  split.
  - intros self1 self2 self. rewrite !index_documents_run.
    destruct (RankBM25.make ln (tokenized docs)); [auto | discriminate].
  - intros self e self'. rewrite index_documents_run.
    destruct (RankBM25.make ln (tokenized docs)); [discriminate|].
    intros [= _ <-]. auto.
Qed.
End IndexFacts.

(** ** Reciprocal rank fusion: errors, symmetry, agreement *)

Lemma truediv_zero (x : Q) : Py.truediv x (inject_Z 0) = Raise ZeroDivisionError.
Proof. reflexivity. Qed.

Lemma rrf_accumulate_raises (k : Z) (results : list (Document * Q)) :
  forall (rank : Z) (doc_scores : Dict.t Q),
    rank <= - k < rank + Z.of_nat (List.length results) ->
    rrf_accumulate k rank results doc_scores = Raise ZeroDivisionError.
Proof.
  induction results as [|[d s] t IH]; intros rank ds H; simpl in *; [lia|].
  destruct (Z.eq_dec (k + rank) 0) as [E|N].
  - rewrite E. reflexivity.
  - rewrite truediv_rank by exact N. simpl. apply IH. lia.
Qed.

Lemma rrf_accumulate_returns (k : Z) (results : list (Document * Q)) :
  forall (rank : Z) (doc_scores : Dict.t Q),
    ~ (rank <= - k < rank + Z.of_nat (List.length results)) ->
    exists out,
      rrf_accumulate k rank results doc_scores = Ok out /\
      Dict.keys out = fold_left seen_step (doc_ids results) (Dict.keys doc_scores).
Proof.
  induction results as [|[d s] t IH]; intros rank ds H; simpl in *.
  - exists ds. auto.
  - rewrite truediv_rank by lia. simpl.
    destruct (IH (rank + 1)
                 (Dict.set ds (doc_id d)
                    (Dict.get_default ds (doc_id d) 0 + reciprocal_rank k rank)%Q)
                 ltac:(lia)) as [out [E K]].
    exists out. split; [exact E|].
    rewrite K, DictFacts.keys_set, mem_keys. reflexivity.
Qed.

(** [reciprocal_rank_fusion] raises [ZeroDivisionError] exactly when [- k]
    is a rank of one of the two lists, and returns a list otherwise. *)
Theorem reciprocal_rank_fusion_zero_division (dense sparse : list (Document * Q)) (k : Z) :
  (1 <= - k <= Z.of_nat (Nat.max (List.length dense) (List.length sparse)) ->
   reciprocal_rank_fusion dense sparse k = Raise ZeroDivisionError) /\
  (~ (1 <= - k <= Z.of_nat (Nat.max (List.length dense) (List.length sparse))) ->
   exists fused, reciprocal_rank_fusion dense sparse k = Ok fused).
Proof.
  unfold reciprocal_rank_fusion. split.
  - intros H.
    destruct (Z_le_gt_dec (- k) (Z.of_nat (List.length dense))) as [Hd|Hd].
    + rewrite rrf_accumulate_raises by lia. reflexivity.
    + destruct (rrf_accumulate_returns k dense 1 Dict.empty ltac:(lia)) as [ds1 [E1 _]].
      rewrite E1. simpl. rewrite rrf_accumulate_raises by lia. reflexivity.
  - intros H.
    destruct (rrf_accumulate_returns k dense 1 Dict.empty ltac:(lia)) as [ds1 [E1 K1]].
    destruct (rrf_accumulate_returns k sparse 1 ds1 ltac:(lia)) as [ds2 [E2 K2]].
    rewrite E1. simpl. rewrite E2. simpl.
    assert (K : Dict.keys ds2 = first_seen (doc_ids (dense ++ sparse))).
    { rewrite K2, K1, doc_ids_app. apply first_seen_app. }
    destruct (rmap_Forall2
                (fun p : string * Q =>
                   rbind (Dict.getitem (doc_lookup (dense ++ sparse)) (fst p))
                         (fun d => Ok (d, snd p)))
                (fun _ _ => True) (Py.sorted_desc snd (Dict.items ds2)))
      as [fused [Ef _]].
    { intros [id s] Hp. simpl.
      assert (Hid : In id (doc_ids (dense ++ sparse))).
      { apply first_seen_In. rewrite <- K.
        apply (Permutation_in _ (sorted_desc_perm snd _)) in Hp.
        change id with (fst (id, s)). now apply in_map. }
      destruct (doc_lookup_getitem _ _ Hid) as [d [Ed _]].
      exists (d, s). rewrite Ed. simpl. auto. }
    exists fused. exact Ef.
Qed.

Lemma reciprocal_rank_fusion_zero_division_witness :
  1 <= - (-2) <= Z.of_nat (Nat.max (List.length [(doc_of_id "A", 0%Q); (doc_of_id "B", 0%Q)])
                                   (List.length (@nil (Document * Q)))) /\
  reciprocal_rank_fusion [(doc_of_id "A", 0%Q); (doc_of_id "B", 0%Q)] [] (-2)
  = Raise ZeroDivisionError.
Proof.
  assert (H : 1 <= - (-2)
              <= Z.of_nat (Nat.max (List.length [(doc_of_id "A", 0%Q); (doc_of_id "B", 0%Q)])
                                   (List.length (@nil (Document * Q))))) by (simpl; lia).
  split; [exact H|].
  exact (proj1 (reciprocal_rank_fusion_zero_division
                  [(doc_of_id "A", 0%Q); (doc_of_id "B", 0%Q)] [] (-2)) H).
Defined.

Lemma rrf_score_comm (k : Z) (dense sparse : list (Document * Q)) (id : string) :
  (rrf_score k dense sparse id == rrf_score k sparse dense id)%Q.
Proof. unfold rrf_score. ring. Qed.

Lemma first_seen_swap (l1 l2 : list string) :
  Permutation (first_seen (l1 ++ l2)) (first_seen (l2 ++ l1)).
Proof.
  apply NoDup_Permutation; try apply first_seen_NoDup.
  intros x. rewrite !first_seen_In, !in_app_iff. tauto.
Qed.

(** Fusion treats its two lists alike: with the lists exchanged the same ids
    come out, each with the same score. *)
Theorem reciprocal_rank_fusion_symmetric (dense sparse : list (Document * Q)) (k : Z) :
  0 <= k ->
  exists fused fused',
    reciprocal_rank_fusion dense sparse k = Ok fused /\
    reciprocal_rank_fusion sparse dense k = Ok fused' /\
    Permutation (doc_ids fused) (doc_ids fused') /\
    forall d s d' s',
      In (d, s) fused -> In (d', s') fused' -> doc_id d = doc_id d' -> (s == s')%Q.
Proof.
  intros Hk.
  destruct (reciprocal_rank_fusion_general dense sparse k Hk) as [fused [E [P [S _]]]].
  destruct (reciprocal_rank_fusion_general sparse dense k Hk) as [fused' [E' [P' [S' _]]]].
  exists fused, fused'. split; [exact E|]. split; [exact E'|]. split.
  - eapply Permutation_trans; [exact P|].
    eapply Permutation_trans; [|apply Permutation_sym, P'].
    rewrite !doc_ids_app. apply first_seen_swap.
  - intros d s d' s' H H' Hid.
    rewrite (S _ _ H), (S' _ _ H'), Hid. apply rrf_score_comm.
Qed.

Lemma reciprocal_rank_fusion_symmetric_witness :
  0 <= 60 /\
  exists fused fused',
    reciprocal_rank_fusion [(doc_of_id "A", 0%Q)] [(doc_of_id "B", 0%Q)] 60 = Ok fused /\
    reciprocal_rank_fusion [(doc_of_id "B", 0%Q)] [(doc_of_id "A", 0%Q)] 60 = Ok fused' /\
    Permutation (doc_ids fused) (doc_ids fused').
Proof.
  split; [lia|].
  destruct (reciprocal_rank_fusion_symmetric
              [(doc_of_id "A", 0%Q)] [(doc_of_id "B", 0%Q)] 60 ltac:(lia))
    as [fused [fused' [E [E' [P _]]]]].
  exists fused, fused'. auto.
Defined.

Lemma reciprocal_rank_antitone (k a b : Z) :
  0 < k + a -> a <= b -> (reciprocal_rank k b <= reciprocal_rank k a)%Q.
Proof.
  intros Ha Hab. unfold reciprocal_rank.
  destruct (k + a) as [|p|p] eqn:Ea; try lia.
  destruct (k + b) as [|q|q] eqn:Eb; try lia.
  unfold Qle, Qdiv, Qmult, Qinv, inject_Z. simpl. lia.
Qed.

Lemma reciprocal_rank_strict (k a : Z) :
  0 < k + a -> (reciprocal_rank k (a + 1) < reciprocal_rank k a)%Q.
Proof.
  intros Ha. unfold reciprocal_rank.
  destruct (k + a) as [|p|p] eqn:Ea; try lia.
  destruct (k + (a + 1)) as [|q|q] eqn:Eb; try lia.
  unfold Qlt, Qdiv, Qmult, Qinv, inject_Z. simpl. lia.
Qed.

Lemma reciprocal_rank_nonneg (k a : Z) : 0 < k + a -> (0 <= reciprocal_rank k a)%Q.
Proof.
  intros Ha. unfold reciprocal_rank.
  destruct (k + a) as [|p|p] eqn:Ea; try lia.
  unfold Qle, Qdiv, Qmult, Qinv, inject_Z. simpl. lia.
Qed.

(** Below rank [rank], an id contributes at most [1 / (k + rank)]. *)
Lemma rrf_contrib_bound (k rank : Z) (results : list (Document * Q)) (id : string) :
  0 < k + rank ->
  NoDup (doc_ids results) ->
  (rrf_contrib k rank results id <= reciprocal_rank k rank)%Q.
Proof.
  intros Hk ND.
  destruct (in_dec string_dec id (doc_ids results)) as [Hin|Hout].
  - rewrite (rrf_contrib_unique k results id rank ND Hin).
    apply reciprocal_rank_antitone; lia.
  - rewrite (rrf_contrib_absent k results id rank Hout).
    now apply reciprocal_rank_nonneg.
Qed.

Lemma rrf_contrib_head (k : Z) (d : Document) (s : Q) (t : list (Document * Q)) :
  NoDup (doc_ids ((d, s) :: t)) ->
  (rrf_contrib k 1 ((d, s) :: t) (doc_id d) == reciprocal_rank k 1)%Q.
Proof.
  intros ND. rewrite (rrf_contrib_unique k _ (doc_id d) 1 ND) by now left.
  simpl. rewrite String.eqb_refl. reflexivity.
Qed.

Lemma rrf_contrib_not_head (k : Z) (d : Document) (s : Q) (t : list (Document * Q))
    (id : string) :
  0 <= k ->
  NoDup (doc_ids ((d, s) :: t)) ->
  id <> doc_id d ->
  (rrf_contrib k 1 ((d, s) :: t) id <= reciprocal_rank k 2)%Q.
Proof.
  intros Hk ND N. simpl.
  destruct (String.eqb_spec (doc_id d) id) as [E|_]; [congruence|].
  inversion ND; subst. rewrite Qplus_0_l.
  apply (rrf_contrib_bound k 2 t id); [lia | assumption].
Qed.

(** A document that both searches rank first comes first out of the fusion. *)
Theorem reciprocal_rank_fusion_agreement (k : Z) (d1 d2 : Document) (s1 s2 : Q)
    (dense sparse : list (Document * Q)) :
  0 <= k ->
  NoDup (doc_ids ((d1, s1) :: dense)) ->
  NoDup (doc_ids ((d2, s2) :: sparse)) ->
  doc_id d1 = doc_id d2 ->
  exists d s rest,
    reciprocal_rank_fusion ((d1, s1) :: dense) ((d2, s2) :: sparse) k
    = Ok ((d, s) :: rest) /\
    doc_id d = doc_id d1 /\
    (s == 1 / inject_Z (k + 1) + 1 / inject_Z (k + 1))%Q.
Proof.
  intros Hk ND1 ND2 Hid.
  destruct (reciprocal_rank_fusion_general ((d1, s1) :: dense) ((d2, s2) :: sparse) k Hk)
    as [fused [E [P [S Srt]]]].
  assert (Top : (rrf_score k ((d1, s1) :: dense) ((d2, s2) :: sparse) (doc_id d1)
                 == reciprocal_rank k 1 + reciprocal_rank k 1)%Q).
  { unfold rrf_score. rewrite (rrf_contrib_head k d1 s1 dense ND1).
    rewrite Hid at 1. rewrite (rrf_contrib_head k d2 s2 sparse ND2). reflexivity. }
  assert (Hin : In (doc_id d1) (doc_ids fused)).
  { apply (Permutation_in _ (Permutation_sym P)), first_seen_In. now left. }
  unfold doc_ids in Hin. apply in_map_iff in Hin. destruct Hin as [[d s] [Hd Hin]].
  simpl in Hd.
  destruct fused as [|[h sh] rest]; [destruct Hin|].
  exists h, sh, rest. split; [exact E|].
  destruct (string_dec (doc_id h) (doc_id d1)) as [Eh|Nh].
  - split; [exact Eh|]. rewrite (S h sh (or_introl eq_refl)), Eh. exact Top.
  - exfalso. destruct Hin as [[= -> ->]|Hin]; [contradiction|].
    inversion Srt as [|? ? _ F]; subst. rewrite Forall_forall in F.
    destruct (F _ Hin) as [Hle _]. simpl in Hle.
    rewrite (S d s (or_intror Hin)), Hd, Top in Hle.
    rewrite (S h sh (or_introl eq_refl)) in Hle. unfold rrf_score in Hle.
    pose proof (rrf_contrib_not_head k d1 s1 dense (doc_id h) Hk ND1 Nh) as B1.
    pose proof (rrf_contrib_not_head k d2 s2 sparse (doc_id h) Hk ND2
                  ltac:(congruence)) as B2.
    pose proof (reciprocal_rank_strict k 1 ltac:(lia)) as St. simpl in St.
    assert (Lt : (rrf_contrib k 1 ((d1, s1) :: dense) (doc_id h)
                  + rrf_contrib k 1 ((d2, s2) :: sparse) (doc_id h)
                  < reciprocal_rank k 1 + reciprocal_rank k 1)%Q).
    { eapply Qle_lt_trans; [apply Qplus_le_compat; eassumption|].
      apply Qplus_lt_le_compat; [exact St | apply Qlt_le_weak, St]. }
    exact (Qlt_irrefl _ (Qlt_le_trans _ _ _ Lt Hle)).
Qed.

Lemma reciprocal_rank_fusion_agreement_witness :
  0 <= 60 /\
  exists d s rest,
    reciprocal_rank_fusion [(doc_of_id "A", 0%Q); (doc_of_id "B", 0%Q)]
                           [(doc_of_id "A", 0%Q); (doc_of_id "C", 0%Q)] 60
    = Ok ((d, s) :: rest) /\
    doc_id d = "A".
Proof.
  split; [lia|].
  assert (ND1 : NoDup (doc_ids [(doc_of_id "A", 0%Q); (doc_of_id "B", 0%Q)])).
  { simpl. constructor; [intros [H|[]]; discriminate|]. constructor; [intros []|constructor]. }
  assert (ND2 : NoDup (doc_ids [(doc_of_id "A", 0%Q); (doc_of_id "C", 0%Q)])).
  { simpl. constructor; [intros [H|[]]; discriminate|]. constructor; [intros []|constructor]. }
  destruct (reciprocal_rank_fusion_agreement 60 (doc_of_id "A") (doc_of_id "A") 0 0
              [(doc_of_id "B", 0%Q)] [(doc_of_id "C", 0%Q)] ltac:(lia) ND1 ND2 eq_refl)
    as [d [s [rest [E [Hd _]]]]].
  exists d, s, rest. split; [exact E | exact Hd].
Defined.

(** ** Reranking: size and repetition *)

Lemma stable_sort_sorted_id {A : Type} (leb : A -> A -> bool) (l : list A) :
  StronglySorted (fun a b => leb a b = true) l -> Py.stable_sort leb l = l.
Proof.
  induction 1 as [|x t St IH Fx]; [reflexivity|].
  change (Py.stable_sort leb (x :: t))
    with (Py.insert_stable leb x (Py.stable_sort leb t)).
  rewrite IH. destruct t as [|y t']; [reflexivity|]. simpl.
  inversion Fx as [|? ? Hxy _]; subst. now rewrite Hxy.
Qed.

Lemma sorted_desc_sorted_id {A : Type} (key : A -> Q) (l : list A) :
  StronglySorted (fun a b => (key b <= key a)%Q) l -> Py.sorted_desc key l = l.
Proof.
  intros S. apply stable_sort_sorted_id.
  eapply StronglySorted_weaken_In; [|exact S].
  intros a b _ _ H. now apply Qle_bool_iff.
Qed.

Section RerankMore.
Variable predict : string -> string -> Q.

Lemma rescored_fixed (query : string) (l : list (Document * Q)) :
  (forall c, In c l -> snd c = predict query (content (fst c))) ->
  rescored predict query l = l.
Proof.
  unfold rescored. induction l as [|[d s] t IH]; intros H; simpl; [reflexivity|].
  rewrite IH by (intros; apply H; now right).
  pose proof (H (d, s) (or_introl eq_refl)) as E. simpl in E. now rewrite <- E.
Qed.

Lemma rescored_scores (query : string) (l : list (Document * Q)) (c : Document * Q) :
  In c (rescored predict query l) ->
  snd c = predict query (content (fst c)) /\ In (fst c) (map fst l).
Proof.
  unfold rescored. intros H. apply in_map_iff in H. destruct H as [x [<- Hx]].
  simpl. split; [reflexivity | now apply in_map].
Qed.

(** [rerank] returns [min(top_k, n)] of its [n] candidates, each with the
    score of the scorer on (query, content); none for no candidate. *)
Theorem rerank_size (query : string) (candidates : list (Document * Q)) (top_k : Z) :
  0 <= top_k ->
  List.length (rerank predict query candidates top_k)
  = Nat.min (Z.to_nat top_k) (List.length candidates) /\
  (forall d s,
      In (d, s) (rerank predict query candidates top_k) ->
      s = predict query (content d) /\ In d (map fst candidates)) /\
  rerank predict query [] top_k = [].
Proof.
  intros Hk. rewrite !rerank_unfold, !slice_to_nonneg by exact Hk.
  split; [|split].
  - rewrite length_firstn, (Permutation_length (sorted_desc_perm snd _)).
    unfold rescored. now rewrite length_map.
  - intros d s Hin. apply firstn_incl in Hin.
    apply (Permutation_in _ (sorted_desc_perm snd _)) in Hin.
    exact (rescored_scores query candidates (d, s) Hin).
  - simpl. apply firstn_nil.
Qed.

(** Reranking what [rerank] returned, for the same query, changes nothing. *)
Theorem rerank_idempotent (query : string) (candidates : list (Document * Q)) (top_k : Z) :
  0 <= top_k ->
  rerank predict query (rerank predict query candidates top_k) top_k
  = rerank predict query candidates top_k.
Proof.
  intros Hk. rewrite (rerank_unfold predict query candidates).
  rewrite rerank_unfold, !slice_to_nonneg by exact Hk.
  set (ranking := Py.sorted_desc snd (rescored predict query candidates)).
  rewrite rescored_fixed.
  - rewrite sorted_desc_sorted_id.
    + rewrite firstn_firstn. f_equal. lia.
    + apply StronglySorted_firstn, sorted_desc_sorted.
  - intros c Hc. apply firstn_incl in Hc.
    apply (Permutation_in _ (sorted_desc_perm snd _)) in Hc.
    exact (proj1 (rescored_scores query candidates c Hc)).
Qed.
End RerankMore.

Lemma rerank_size_witness :
  0 <= 1 /\
  List.length (rerank predict_stub "q" [(doc_of_id "A", 0%Q); (doc_of_id "B", 0%Q)] 1)
  = 1%nat.
Proof.
  split; [lia|].
  exact (proj1 (rerank_size predict_stub "q"
                  [(doc_of_id "A", 0%Q); (doc_of_id "B", 0%Q)] 1 ltac:(lia))).
Defined.

Lemma rerank_idempotent_witness :
  0 <= 1 /\
  rerank predict_stub "q"
    (rerank predict_stub "q" [(doc_of_id "A", 0%Q); (doc_of_id "B", 0%Q)] 1) 1
  = rerank predict_stub "q" [(doc_of_id "A", 0%Q); (doc_of_id "B", 0%Q)] 1.
Proof.
  split; [lia|].
  exact (rerank_idempotent predict_stub "q"
           [(doc_of_id "A", 0%Q); (doc_of_id "B", 0%Q)] 1 ltac:(lia)).
Defined.

(** ** The two searches as prefixes of one ranking *)

Lemma rmap_firstn {A B : Type} (f : A -> result B) (l : list A) :
  forall (ys : list B) (n : nat),
    rmap f l = Ok ys -> rmap f (firstn n l) = Ok (firstn n ys).
Proof.
  induction l as [|x t IH]; intros ys n H; simpl in H.
  - injection H as <-. now rewrite !firstn_nil.
  - destruct (f x) as [y|e] eqn:E; simpl in H; [|discriminate].
    destruct (rmap f t) as [ys'|e] eqn:Et; simpl in H; [|discriminate].
    injection H as <-. destruct n as [|n]; [reflexivity|].
    simpl. rewrite E, (IH ys' n eq_refl). reflexivity.
Qed.

Lemma rmap_length {A B : Type} (f : A -> result B) (l : list A) (ys : list B) :
  rmap f l = Ok ys -> List.length ys = List.length l.
Proof. intros H. apply rmap_inv in H. symmetry. exact (Forall2_length H). Qed.

Lemma rmap_slice_to {A B : Type} (f : A -> result B) (l : list A) (ys : list B) (k : Z) :
  rmap f l = Ok ys -> rmap f (Py.slice_to k l) = Ok (Py.slice_to k ys).
Proof.
  intros H. unfold Py.slice_to. rewrite (rmap_length f l ys H).
  destruct (0 <=? k); now apply rmap_firstn.
Qed.

Lemma map_nth_error_seq {A : Type} (l : list A) :
  map (nth_error l) (seq 0 (List.length l)) = map Some l.
Proof.
  induction l as [|x t IH]; [reflexivity|].
  simpl. f_equal. rewrite <- seq_shift, map_map. exact IH.
Qed.

(** A list read at a permutation of its positions is a permutation of it. *)
Lemma read_at_permutation {A B : Type} (l : list A) (idxs : list nat) (out : list B)
    (proj : B -> A) :
  Permutation idxs (seq 0 (List.length l)) ->
  Forall2 (fun idx r => nth_error l idx = Some (proj r)) idxs out ->
  Permutation (map proj out) l.
Proof.
  intros P F.
  assert (E : map Some (map proj out) = map (nth_error l) idxs).
  { clear P. induction F as [|i r t t' H F IH]; simpl; [reflexivity|].
    now rewrite H, IH. }
  assert (P' : Permutation (map Some (map proj out)) (map Some l)).
  { rewrite E, <- map_nth_error_seq. now apply Permutation_map. }
  destruct (Permutation_map_inv Some l P') as [l3 [E3 P3]].
  assert (E4 : map proj out = l3).
  { clear -E3. revert l3 E3. induction (map proj out) as [|a t IH];
      intros [|b t'] H; simpl in H; try discriminate; [reflexivity|].
    injection H as -> H. f_equal. now apply IH. }
  rewrite E4. now apply Permutation_sym.
Qed.

Section SearchPrefix.
Variable encode : string -> list Q.
Variable norm : list Q -> Q.
Variable ln : Q -> Q.
(** [np.argsort]: any function that does what numpy promises. *)
Variable argsort : list Q -> list nat.
Hypothesis argsort_ok : Numpy.is_argsort argsort.

(** The ranking of the whole corpus that [dense_search] cuts. *)
Lemma dense_search_ranked (docs : list Document) (self : Engine) (query : string) :
  documents self = docs ->
  embeddings self = Some (map encode (map content docs)) ->
  exists idxs full,
    Permutation idxs (seq 0 (List.length docs)) /\
    Forall2 (fun idx r => nth_error docs idx = Some (fst r)) idxs full /\
    forall top_k,
      fst (dense_search encode norm argsort query top_k self) = Ok (Py.slice_to top_k full).
Proof.
  intros Hd He.
  set (sims := cosine_similarities norm (map encode (map content docs)) (encode query)).
  assert (Hlen : List.length sims = List.length docs)
    by (unfold sims; now rewrite cosine_similarities_length, !length_map).
  destruct (rmap_Forall2
              (fun idx => rbind (Numpy.getitem docs idx) (fun d =>
                          rbind (Numpy.getitem sims idx) (fun s => Ok (d, s))))
              (fun idx r => nth_error docs idx = Some (fst r))
              (rev (argsort sims))) as [full [Ef F]].
  { intros idx Hin. apply in_rev in Hin.
    apply (Permutation_in _ (argsort_perm argsort argsort_ok sims)), in_seq in Hin.
    destruct (getitem_Ok docs idx) as [d [Gd Nd]]; [lia|].
    destruct (getitem_Ok sims idx) as [s [Gs _]]; [lia|].
    exists (d, s). rewrite Gd. simpl. rewrite Gs. auto. }
  exists (rev (argsort sims)), full. split; [|split; [exact F|]].
  - rewrite <- Hlen. eapply Permutation_trans;
      [apply Permutation_sym, Permutation_rev | apply (argsort_perm argsort argsort_ok)].
  - intros top_k. unfold dense_search, bind, get_self, lift. simpl.
    rewrite He, Hd. fold sims. simpl. unfold top_indices.
    now apply rmap_slice_to.
Qed.

Lemma dense_search_full (docs : list Document) (self0 self : Engine) (query : string) :
  index_documents encode ln docs self0 = (Ok tt, self) ->
  exists idxs full,
    Permutation idxs (seq 0 (List.length docs)) /\
    Forall2 (fun idx r => nth_error docs idx = Some (fst r)) idxs full /\
    forall top_k,
      fst (dense_search encode norm argsort query top_k self) = Ok (Py.slice_to top_k full).
Proof.
  intros Hidx.
  destruct (index_documents_ok _ _ _ _ _ Hidx) as [Hd [He _]].
  exact (dense_search_ranked docs self query Hd He).
Qed.

(** Every [dense_search(query, top_k)] is the slice [[:top_k]] of one
    ranking of the corpus that holds every indexed document once: all of
    them come back when [top_k] is at least the size of the corpus, and
    none for [top_k = 0]. *)
Theorem dense_search_prefix (docs : list Document) (self0 self : Engine) (query : string) :
  index_documents encode ln docs self0 = (Ok tt, self) ->
  exists full,
    Permutation (map fst full) docs /\
    (forall top_k,
        fst (dense_search encode norm argsort query top_k self) = Ok (Py.slice_to top_k full)) /\
    (forall top_k,
        Z.of_nat (List.length docs) <= top_k ->
        fst (dense_search encode norm argsort query top_k self) = Ok full) /\
    fst (dense_search encode norm argsort query 0 self) = Ok [].
Proof.
  intros Hidx.
  destruct (dense_search_full docs self0 self query Hidx) as [idxs [full [P [F Run]]]].
  assert (Lf : List.length full = List.length docs).
  { rewrite <- (Forall2_length F), (Permutation_length P). apply length_seq. }
  exists full. split; [|split; [exact Run|split]].
  - exact (read_at_permutation docs idxs full fst P F).
  - intros top_k Hk. rewrite Run, slice_to_nonneg by lia.
    f_equal. apply firstn_all2. lia.
  - rewrite Run. reflexivity.
Qed.
End SearchPrefix.

Lemma dense_search_prefix_witness :
  exists self,
    index_documents encode_stub ln_stub tie_corpus new_engine = (Ok tt, self) /\
    exists full : list (Document * Q),
      Permutation (map fst full) tie_corpus /\
      fst (dense_search encode_stub norm_exact Numpy.stable_argsort "rate" 0 self) = Ok [].
Proof.
  eexists. split; [vm_compute; reflexivity|].
  destruct (dense_search_prefix encode_stub norm_exact ln_stub
      Numpy.stable_argsort stable_argsort_ok tie_corpus new_engine _
              "rate" eq_refl) as [full [P [_ [_ Z0]]]].
  exists full. split; [exact P | exact Z0].
Defined.

Lemma getitem_nth_error {A : Type} (l : list A) (i : nat) (x : A) :
  nth_error l i = Some x -> Numpy.getitem l i = Ok x.
Proof. intros H. unfold Numpy.getitem. now rewrite H. Qed.

Lemma positive_results_none (docs : list Document) (scores : list Q) (idxs : list nat) :
  (forall idx, In idx idxs -> exists s, nth_error scores idx = Some s /\ (s <= 0)%Q) ->
  positive_results docs scores idxs = Ok [].
Proof.
  induction idxs as [|idx t IH]; intros H; simpl; [reflexivity|].
  destruct (H idx (or_introl eq_refl)) as [s [Ns Hs]].
  rewrite (getitem_nth_error _ _ _ Ns). simpl.
  destruct (Qlt_le_dec 0 s) as [Pos|_].
  - exfalso. exact (Qlt_irrefl _ (Qlt_le_trans _ _ _ Pos Hs)).
  - apply IH. intros i Hi. apply H. now right.
Qed.

Section PositiveResults.
Variable docs : list Document.
Variable scores : list Q.

Let in_range (idxs : list nat) : Prop :=
  forall idx, In idx idxs ->
              (idx < List.length docs)%nat /\ (idx < List.length scores)%nat.

Let descending (idxs : list nat) : Prop :=
  StronglySorted (fun i j => (nth j scores 0 <= nth i scores 0)%Q) idxs.

Lemma nth_of_nth_error (i : nat) (s : Q) :
  nth_error scores i = Some s -> nth i scores 0%Q = s.
Proof. intros H. now apply nth_error_nth. Qed.

Lemma positive_results_after_nonpositive (idx : nat) (t : list nat) (s : Q) :
  in_range (idx :: t) -> descending (idx :: t) ->
  nth_error scores idx = Some s -> (s <= 0)%Q ->
  forall sub, (forall i, In i sub -> In i t) ->
              positive_results docs scores sub = Ok [].
Proof.
  intros R D Ns Hs sub Hsub. apply positive_results_none.
  intros i Hi. specialize (Hsub i Hi).
  destruct (R i (or_intror Hsub)) as [_ Hl].
  destruct (nth_error scores i) as [si|] eqn:Ei;
    [|apply nth_error_None in Ei; lia].
  exists si. split; [reflexivity|].
  inversion D as [|? ? _ F]; subst. rewrite Forall_forall in F.
  specialize (F i Hsub). rewrite (nth_of_nth_error _ _ Ns), (nth_of_nth_error _ _ Ei) in F.
  eapply Qle_trans; eauto.
Qed.

(** The positive results among the first [k] indices of a descending list
    are the first positive results of the whole list. *)
Lemma positive_results_prefix (idxs : list nat) :
  in_range idxs -> descending idxs ->
  forall found,
    positive_results docs scores idxs = Ok found ->
    forall k, exists found_k,
      positive_results docs scores (firstn k idxs) = Ok found_k /\
      firstn k found_k = firstn k found.
Proof.
  induction idxs as [|idx t IH]; intros R D found H k.
  - simpl in H. injection H as <-. exists []. rewrite firstn_nil. auto.
  - destruct k as [|k]; [exists []; auto|].
    assert (Rt : in_range t) by (intros i Hi; apply R; now right).
    assert (Dt : descending t) by (inversion D; assumption).
    simpl in *.
    destruct (Numpy.getitem scores idx) as [s|e] eqn:Gs; simpl in *; [|discriminate].
    assert (Ns : nth_error scores idx = Some s).
    { unfold Numpy.getitem in Gs. destruct (nth_error scores idx); congruence. }
    destruct (Qlt_le_dec 0 s) as [Pos|Neg].
    + destruct (Numpy.getitem docs idx) as [d|e]; simpl in *; [|discriminate].
      destruct (positive_results docs scores t) as [r|e] eqn:Et; simpl in *; [|discriminate].
      injection H as <-.
      destruct (IH Rt Dt r eq_refl k) as [rk [Ek Fk]].
      exists ((d, s) :: rk). rewrite Ek. simpl. now rewrite Fk.
    + rewrite (positive_results_after_nonpositive idx t s R D Ns Neg t (fun i H => H)) in H.
      injection H as <-.
      rewrite (positive_results_after_nonpositive idx t s R D Ns Neg (firstn k t)
                 (fun i H => firstn_incl _ _ _ H)).
      exists []. auto.
Qed.

Lemma positive_results_sorted (idxs : list nat) :
  in_range idxs -> descending idxs ->
  forall found,
    positive_results docs scores idxs = Ok found ->
    StronglySorted (fun a b => (snd b <= snd a)%Q) found.
Proof.
  induction idxs as [|idx t IH]; intros R D found H.
  - simpl in H. injection H as <-. constructor.
  - assert (Rt : in_range t) by (intros i Hi; apply R; now right).
    assert (Dt : descending t) by (inversion D; assumption).
    simpl in H.
    destruct (Numpy.getitem scores idx) as [s|e] eqn:Gs; simpl in H; [|discriminate].
    assert (Ns : nth_error scores idx = Some s).
    { unfold Numpy.getitem in Gs. destruct (nth_error scores idx); congruence. }
    destruct (Qlt_le_dec 0 s) as [Pos|Neg]; [|now apply IH].
    destruct (Numpy.getitem docs idx) as [d|e]; simpl in H; [|discriminate].
    destruct (positive_results docs scores t) as [r|e] eqn:Et; simpl in H; [|discriminate].
    injection H as <-. constructor; [now apply IH|].
    rewrite Forall_forall. intros [d' s'] Hin. simpl.
    destruct (positive_results_spec docs scores t Rt) as [r' [Er [_ P]]].
    rewrite Et in Er. injection Er as <-.
    destruct (P _ _ Hin) as [j [Hj [_ [Nj _]]]].
    inversion D as [|? ? _ F]; subst. rewrite Forall_forall in F.
    specialize (F j Hj).
    now rewrite (nth_of_nth_error _ _ Ns), (nth_of_nth_error _ _ Nj) in F.
Qed.
End PositiveResults.

Section SparseMore.
Variable encode : string -> list Q.
Variable ln : Q -> Q.
(** [np.argsort]: any function that does what numpy promises. *)
Variable argsort : list Q -> list nat.
Hypothesis argsort_ok : Numpy.is_argsort argsort.

(** The run of [sparse_search] on an indexed engine, in terms of the scores. *)
Lemma sparse_search_unfold (docs : list Document) (self0 self : Engine) (query : string) :
  index_documents encode ln docs self0 = (Ok tt, self) ->
  exists index,
    RankBM25.make ln (tokenized docs) = Ok index /\
    List.length (RankBM25.get_scores index (tokens query)) = List.length docs /\
    forall top_k,
      fst (sparse_search argsort query top_k self)
      = rbind (positive_results docs (RankBM25.get_scores index (tokens query))
                 (top_indices argsort (RankBM25.get_scores index (tokens query)) top_k))
              (fun results => Ok (Py.slice_to top_k results)).
Proof.
  intros Hidx.
  destruct (index_documents_ok _ _ _ _ _ Hidx) as [Hd [_ [index [Hm Hb]]]].
  destruct (make_fields _ _ _ Hm) as [Hsize [Hfr Hlen]].
  exists index. split; [exact Hm|]. split.
  - rewrite (get_scores_length index (tokenized docs) Hsize Hfr Hlen).
    unfold tokenized. now rewrite length_map.
  - intros top_k. unfold sparse_search, bind, get_self, lift, ret. simpl.
    rewrite Hb, Hd. fold (tokens query).
    destruct (positive_results _ _ _); reflexivity.
Qed.

(** Every [sparse_search(query, top_k)] with [top_k >= 0] is the first
    [top_k] items of one list of indexed documents, each with a strictly
    positive BM25 score, in descending order of score. *)
Theorem sparse_search_prefix (docs : list Document) (self0 self : Engine) (query : string) :
  index_documents encode ln docs self0 = (Ok tt, self) ->
  exists full,
    StronglySorted (fun a b => (snd b <= snd a)%Q) full /\
    (forall d s, In (d, s) full -> In d docs /\ (0 < s)%Q) /\
    (forall top_k,
        0 <= top_k ->
        fst (sparse_search argsort query top_k self) = Ok (firstn (Z.to_nat top_k) full)).
Proof.
  intros Hidx.
  destruct (sparse_search_unfold docs self0 self query Hidx) as [index [_ [Ls Run]]].
  set (scores := RankBM25.get_scores index (tokens query)) in *.
  set (idxs := rev (argsort scores)).
  assert (R : forall idx, In idx idxs ->
                          (idx < List.length docs)%nat /\ (idx < List.length scores)%nat).
  { intros idx Hin. apply in_rev in Hin.
    apply (Permutation_in _ (argsort_perm argsort argsort_ok scores)), in_seq in Hin. lia. }
  assert (D : StronglySorted (fun i j => (nth j scores 0 <= nth i scores 0)%Q) idxs).
  { apply (rev_argsort_sorted argsort argsort_ok). }
  destruct (positive_results_spec docs scores idxs R) as [full [E [_ P]]].
  exists full. split; [|split].
  - exact (positive_results_sorted docs scores idxs R D full E).
  - intros d s Hin. destruct (P _ _ Hin) as [idx [_ [Nd [_ Pos]]]].
    split; [eapply nth_error_In; eauto | exact Pos].
  - intros top_k Hk. rewrite Run. unfold top_indices. fold idxs.
    rewrite slice_to_nonneg by exact Hk.
    destruct (positive_results_prefix docs scores idxs R D full E (Z.to_nat top_k))
      as [found_k [Ek Fk]].
    rewrite Ek. simpl. rewrite slice_to_nonneg by exact Hk. now rewrite Fk.
Qed.

(** When no indexed document shares a term with the query, and so for a query
    without any token, [sparse_search] returns the empty list. *)
Theorem sparse_search_no_overlap (docs : list Document) (self0 self : Engine)
    (query : string) (top_k : Z) :
  index_documents encode ln docs self0 = (Ok tt, self) ->
  ((forall d, In d docs -> shares_no_term query d) ->
   fst (sparse_search argsort query top_k self) = Ok []) /\
  (tokens query = [] -> fst (sparse_search argsort query top_k self) = Ok []).
Proof.
  intros Hidx.
  assert (Main : (forall d, In d docs -> shares_no_term query d) ->
                 fst (sparse_search argsort query top_k self) = Ok []).
  { intros Hno.
    destruct (sparse_search_unfold docs self0 self query Hidx) as [index [Hm [Ls Run]]].
    destruct (make_fields _ _ _ Hm) as [Hsize [Hfr Hlen]].
    rewrite Run, positive_results_none.
    - simpl. unfold Py.slice_to. destruct (0 <=? top_k); now rewrite firstn_nil.
    - intros idx Hin. apply (top_indices_bound argsort argsort_ok) in Hin. rewrite Ls in Hin.
      destruct (nth_error docs idx) as [d|] eqn:Nd;
        [|apply nth_error_None in Nd; lia].
      exists (bm25_document_score index (tokens query) (tokens (content d))). split.
      + apply (get_scores_nth index (tokenized docs) Hsize Hfr Hlen).
        unfold tokenized. rewrite nth_error_map, Nd. reflexivity.
      + rewrite bm25_no_shared_term; [apply Qle_refl|].
        apply Hno. eapply nth_error_In; eauto. }
  split; [exact Main|].
  intros Hq. apply Main. intros d _ t Ht. unfold tokens in *. rewrite Hq in Ht. destruct Ht.
Qed.
End SparseMore.

Lemma sparse_search_prefix_witness :
  exists self,
    index_documents encode_stub ln_stub tie_corpus new_engine = (Ok tt, self) /\
    exists full : list (Document * Q),
      0 <= 1 /\
      fst (sparse_search Numpy.stable_argsort "interest" 1 self) = Ok (firstn 1 full).
Proof.
  eexists. split; [vm_compute; reflexivity|].
  destruct (sparse_search_prefix encode_stub ln_stub
      Numpy.stable_argsort stable_argsort_ok tie_corpus new_engine _
              "interest" eq_refl) as [full [_ [_ H]]].
  exists full. split; [lia|]. exact (H 1 ltac:(lia)).
Defined.

Lemma sparse_search_no_overlap_witness :
  exists self,
    index_documents encode_stub ln_stub tie_corpus new_engine = (Ok tt, self) /\
    tokens "   " = [] /\
    fst (sparse_search Numpy.stable_argsort "   " 5 self) = Ok [].
Proof.
  eexists. split; [vm_compute; reflexivity|]. split; [reflexivity|].
  exact (proj2 (sparse_search_no_overlap encode_stub ln_stub
      Numpy.stable_argsort stable_argsort_ok tie_corpus new_engine _
                  "   " 5 eq_refl) eq_refl).
Defined.

(** ** The pipeline as a whole *)

Lemma NoDup_firstn {A : Type} (n : nat) (l : list A) : NoDup l -> NoDup (firstn n l).
Proof.
  intros H. rewrite <- (firstn_skipn n l) in H. eapply NoDup_app_remove_r; eauto.
Qed.

Lemma NoDup_slice_to {A : Type} (n : Z) (l : list A) : NoDup l -> NoDup (Py.slice_to n l).
Proof. unfold Py.slice_to. destruct (0 <=? n); apply NoDup_firstn. Qed.

Lemma map_slice_to {A B : Type} (f : A -> B) (n : Z) (l : list A) :
  map f (Py.slice_to n l) = Py.slice_to n (map f l).
Proof.
  unfold Py.slice_to. rewrite length_map.
  destruct (0 <=? n); symmetry; apply firstn_map.
Qed.

Lemma StronglySorted_slice_to {A : Type} (R : A -> A -> Prop) (n : Z) (l : list A) :
  StronglySorted R l -> StronglySorted R (Py.slice_to n l).
Proof. unfold Py.slice_to. destruct (0 <=? n); apply StronglySorted_firstn. Qed.

Lemma StronglySorted_map {A B : Type} (f : A -> B) (R : B -> B -> Prop) (l : list A) :
  StronglySorted (fun a b => R (f a) (f b)) l -> StronglySorted R (map f l).
Proof.
  induction 1 as [|x t S IH F]; simpl; constructor; [exact IH|].
  apply Forall_forall. intros y Hy. apply in_map_iff in Hy.
  destruct Hy as [z [<- Hz]]. rewrite Forall_forall in F. now apply F.
Qed.

Lemma first_seen_length (ids : list string) :
  (List.length (first_seen ids) <= List.length ids)%nat.
Proof.
  apply NoDup_incl_length; [apply first_seen_NoDup|].
  intros x Hx. apply (proj1 (first_seen_In ids x) Hx).
Qed.

Lemma positive_results_length (docs : list Document) (scores : list Q) (idxs : list nat) :
  forall results,
    positive_results docs scores idxs = Ok results ->
    (List.length results <= List.length idxs)%nat.
Proof.
  induction idxs as [|idx t IH]; simpl; intros results H.
  - injection H as <-. simpl. lia.
  - destruct (Numpy.getitem scores idx) as [s0|e]; simpl in H; [|discriminate].
    destruct (Qlt_le_dec 0 s0).
    + destruct (Numpy.getitem docs idx) as [d0|e]; simpl in H; [|discriminate].
      destruct (positive_results docs scores t) as [r|e]; simpl in H; [|discriminate].
      injection H as <-. simpl. specialize (IH r eq_refl). lia.
    + specialize (IH results H). lia.
Qed.

Section PipelineMore.
Variable encode : string -> list Q.
Variable norm : list Q -> Q.
Variable predict : string -> string -> Q.
Variable ln : Q -> Q.
(** [np.argsort]: any function that does what numpy promises. *)
Variable argsort : list Q -> list nat.
Hypothesis argsort_ok : Numpy.is_argsort argsort.

(** The pipeline on an indexed engine, stage by stage. *)
Lemma pipeline_unfold (docs : list Document) (self0 self : Engine) (query : string)
    (kd ks kf : Z) :
  index_documents encode ln docs self0 = (Ok tt, self) ->
  exists full dr sr fused,
    Permutation (map fst full) docs /\
    dr = Py.slice_to kd full /\
    fst (sparse_search argsort query ks self) = Ok sr /\
    (0 <= ks -> (List.length sr <= Nat.min (Z.to_nat ks) (List.length docs))%nat) /\
    (forall d s, In (d, s) sr -> In d docs) /\
    reciprocal_rank_fusion dr sr rrf_default_k = Ok fused /\
    Permutation (doc_ids fused) (first_seen (doc_ids (dr ++ sr))) /\
    fst (advanced_rag_pipeline encode norm predict argsort query kd ks kf self) =
    Ok {| res_documents := map fst (rerank predict query fused kf);
          dense_scores := map snd (Py.slice_to kf dr);
          sparse_scores := map snd (Py.slice_to kf sr);
          fusion_scores := map snd (Py.slice_to kf fused);
          rerank_scores := map snd (rerank predict query fused kf);
          retrieval_metadata :=
            {| meta_query := query;
               total_documents := List.length docs;
               dense_retrieved := List.length dr;
               sparse_retrieved := List.length sr;
               fused_candidates := List.length fused;
               final_count := List.length (map fst (rerank predict query fused kf)) |} |}.
Proof.
  intros Hidx.
  destruct (index_documents_ok _ _ _ _ _ Hidx) as [Hd _].
  destruct (dense_search_full encode norm ln argsort argsort_ok docs self0 self query Hidx)
    as [idxs [full [P [F Run]]]].
  destruct (sparse_search_unfold encode ln argsort docs self0 self query Hidx)
    as [index [_ [Ls Rs]]].
  set (scores := RankBM25.get_scores index (tokens query)) in *.
  specialize (Rs ks).
  destruct (positive_results docs scores (top_indices argsort scores ks)) as [found|e] eqn:Pr.
  2:{ exfalso.
      destruct (sparse_search_run encode ln argsort argsort_ok docs self0 self query ks Hidx)
        as [i' [f' [_ [_ [R' _]]]]]. rewrite R' in Rs. discriminate. }
  simpl in Rs.
  assert (Hk : 0 <= rrf_default_k) by (unfold rrf_default_k; lia).
  destruct (reciprocal_rank_fusion_general (Py.slice_to kd full) (Py.slice_to ks found)
              rrf_default_k Hk) as [fused [Ef [Pf _]]].
  exists full, (Py.slice_to kd full), (Py.slice_to ks found), fused.
  split; [exact (read_at_permutation docs idxs full fst P F)|].
  split; [reflexivity|]. split; [exact Rs|]. split; [|split; [|split; [exact Ef|split; [exact Pf|]]]].
  - intros Hks. pose proof (slice_to_length ks found Hks) as L1.
    assert (L2 : (List.length (Py.slice_to ks found) <= List.length found)%nat).
    { rewrite slice_to_nonneg by exact Hks. rewrite length_firstn. lia. }
    pose proof (positive_results_length _ _ _ _ Pr) as L3.
    assert (L5 : (List.length (top_indices argsort scores ks) <= List.length scores)%nat).
    { unfold top_indices. rewrite slice_to_nonneg by exact Hks.
      rewrite length_firstn, length_rev.
      rewrite (Permutation_length (argsort_perm argsort argsort_ok scores)), length_seq. lia. }
    lia.
  - intros d s Hin. apply slice_to_incl in Hin.
    eapply positive_results_docs; eauto.
  - unfold advanced_rag_pipeline, bind.
    pose proof (dense_search_state encode norm argsort query kd self) as Sd.
    specialize (Run kd).
    destruct (dense_search encode norm argsort query kd self) as [r1 s1]. simpl in Sd, Run.
    subst s1 r1.
    pose proof (sparse_search_state argsort query ks self) as Ss.
    destruct (sparse_search argsort query ks self) as [r2 s2]. simpl in Ss, Rs.
    subst s2 r2. unfold lift, get_self, ret. rewrite Ef. simpl. now rewrite Hd.
Qed.

(** On an indexed engine the pipeline returns, and the counts of its
    [retrieval_metadata] are tied together: [total_documents] is the size
    of the corpus, [dense_retrieved] is [min(top_k_dense, corpus)],
    [sparse_retrieved] is at most [min(top_k_sparse, corpus)], the fused
    candidates are at most the two together, and [final_count], the number
    of documents and of rerank scores returned, is
    [min(top_k_final, fused_candidates)]. *)
Theorem advanced_rag_pipeline_counts (docs : list Document) (self0 self : Engine)
    (query : string) (kd ks kf : Z) :
  index_documents encode ln docs self0 = (Ok tt, self) ->
  0 <= kd -> 0 <= ks -> 0 <= kf ->
  exists r,
    fst (advanced_rag_pipeline encode norm predict argsort query kd ks kf self) = Ok r /\
    total_documents (retrieval_metadata r) = List.length docs /\
    dense_retrieved (retrieval_metadata r) = Nat.min (Z.to_nat kd) (List.length docs) /\
    (sparse_retrieved (retrieval_metadata r)
     <= Nat.min (Z.to_nat ks) (List.length docs))%nat /\
    (fused_candidates (retrieval_metadata r)
     <= dense_retrieved (retrieval_metadata r)
        + sparse_retrieved (retrieval_metadata r))%nat /\
    final_count (retrieval_metadata r)
    = Nat.min (Z.to_nat kf) (fused_candidates (retrieval_metadata r)) /\
    List.length (res_documents r) = final_count (retrieval_metadata r) /\
    List.length (rerank_scores r) = final_count (retrieval_metadata r).
Proof.
  intros Hidx Hkd Hks Hkf.
  destruct (pipeline_unfold docs self0 self query kd ks kf Hidx)
    as [full [dr [sr [fused [Pd [Edr [_ [Lsr [_ [_ [Pf Run]]]]]]]]]]].
  eexists. split; [exact Run|]. simpl.
  assert (Lres : List.length (rerank predict query fused kf)
                 = Nat.min (Z.to_nat kf) (List.length fused)).
  { rewrite rerank_unfold, slice_to_nonneg by exact Hkf.
    rewrite length_firstn, (Permutation_length (sorted_desc_perm snd _)).
    unfold rescored. now rewrite length_map. }
  split; [reflexivity|]. split; [|split; [auto|split; [|split; [|split]]]].
  - subst dr. rewrite slice_to_nonneg by exact Hkd.
    rewrite length_firstn, <- (Permutation_length Pd), length_map. reflexivity.
  - assert (L : List.length fused = List.length (doc_ids fused))
      by (unfold doc_ids; now rewrite length_map).
    rewrite L, (Permutation_length Pf).
    etransitivity; [apply first_seen_length|].
    unfold doc_ids. rewrite length_map, length_app. lia.
  - rewrite length_map. exact Lres.
  - reflexivity.
  - now rewrite !length_map.
Qed.

(** The documents the pipeline returns on an indexed engine. *)
Lemma pipeline_documents_spec (docs : list Document) (self0 self : Engine)
    (query : string) (kd ks kf : Z) :
  index_documents encode ln docs self0 = (Ok tt, self) ->
  exists r,
    fst (advanced_rag_pipeline encode norm predict argsort query kd ks kf self) = Ok r /\
    (0 <= kf -> (List.length (res_documents r) <= Z.to_nat kf)%nat) /\
    NoDup (map doc_id (res_documents r)) /\
    (forall d, In d (res_documents r) -> In d docs) /\
    rerank_scores r = map (fun d => predict query (content d)) (res_documents r) /\
    StronglySorted (fun a b => (b <= a)%Q) (rerank_scores r).
Proof.
  intros Hidx.
  destruct (pipeline_unfold docs self0 self query kd ks kf Hidx)
    as [full [dr [sr [fused [Pd [Edr [_ [_ [Dsr [Ef [Pf Run]]]]]]]]]]].
  eexists. split; [exact Run|]. simpl.
  rewrite rerank_unfold.
  split; [intros Hk; rewrite length_map; now apply slice_to_length|].
  split; [|split; [|split]].
  - rewrite map_map, <- (map_map fst doc_id), !map_slice_to.
    apply NoDup_slice_to.
    assert (P : Permutation (map doc_id (map fst (Py.sorted_desc snd (rescored predict query fused))))
                            (doc_ids fused)).
    { rewrite map_map. fold (doc_ids (Py.sorted_desc snd (rescored predict query fused))).
      unfold doc_ids at 1. etransitivity; [apply Permutation_map, sorted_desc_perm|].
      unfold rescored, doc_ids. rewrite map_map. simpl. reflexivity. }
    apply (Permutation_NoDup (Permutation_sym P)).
    apply (Permutation_NoDup (Permutation_sym Pf)). apply first_seen_NoDup.
  - intros d Hin. apply in_map_iff in Hin. destruct Hin as [[d' s] [<- Hin]]. simpl.
    apply slice_to_incl in Hin.
    apply (Permutation_in _ (sorted_desc_perm snd _)) in Hin.
    unfold rescored in Hin. apply in_map_iff in Hin.
    destruct Hin as [[d0 s0] [[= <- _] Hin]]. simpl.
    pose proof (reciprocal_rank_fusion_docs _ _ _ _ Ef _ _ Hin) as M.
    rewrite map_app in M. apply in_app_or in M. destruct M as [M|M].
    + subst dr. apply in_map_iff in M. destruct M as [[d1 s1] [<- M]]. simpl.
      apply slice_to_incl in M. apply (Permutation_in _ Pd).
      apply in_map_iff. exists (d1, s1). auto.
    + apply in_map_iff in M. destruct M as [[d1 s1] [<- M]]. simpl. eauto.
  - rewrite map_map. apply map_ext_in. intros [d s] Hin. simpl.
    apply slice_to_incl in Hin.
    apply (Permutation_in _ (sorted_desc_perm snd _)) in Hin.
    unfold rescored in Hin. apply in_map_iff in Hin.
    destruct Hin as [[d0 s0] [[= <- <-] _]]. reflexivity.
  - rewrite map_slice_to. apply StronglySorted_slice_to.
    apply StronglySorted_map. apply sorted_desc_sorted.
Qed.

(** On an indexed engine the pipeline returns documents of the corpus with
    pairwise distinct [doc_id]s, together with their cross-encoder scores
    [predict(query, content)], which never increase along the list. *)
Theorem advanced_rag_pipeline_documents (docs : list Document) (self0 self : Engine)
    (query : string) (kd ks kf : Z) :
  index_documents encode ln docs self0 = (Ok tt, self) ->
  exists r,
    fst (advanced_rag_pipeline encode norm predict argsort query kd ks kf self) = Ok r /\
    NoDup (map doc_id (res_documents r)) /\
    (forall d, In d (res_documents r) -> In d docs) /\
    rerank_scores r = map (fun d => predict query (content d)) (res_documents r) /\
    StronglySorted (fun a b => (b <= a)%Q) (rerank_scores r).
Proof.
  intros Hidx.
  destruct (pipeline_documents_spec docs self0 self query kd ks kf Hidx)
    as [r [Run [_ H]]].
  exists r. split; [exact Run | exact H].
Qed.
End PipelineMore.

Lemma advanced_rag_pipeline_counts_witness :
  exists self,
    index_documents encode_stub ln_stub tie_corpus new_engine = (Ok tt, self) /\
    exists r,
      fst (advanced_rag_pipeline encode_stub norm_exact predict_stub
          Numpy.stable_argsort "interest rate"
             2 1 1 self) = Ok r /\
      dense_retrieved (retrieval_metadata r) = Nat.min (Z.to_nat 2) (List.length tie_corpus).
Proof.
  eexists. split; [vm_compute; reflexivity|].
  destruct (advanced_rag_pipeline_counts encode_stub norm_exact predict_stub ln_stub
      Numpy.stable_argsort stable_argsort_ok
              tie_corpus new_engine _ "interest rate" 2 1 1 eq_refl
              ltac:(lia) ltac:(lia) ltac:(lia)) as [r [Run [_ [D _]]]].
  exists r. split; [exact Run | exact D].
Defined.

Lemma advanced_rag_pipeline_documents_witness :
  exists self,
    index_documents encode_stub ln_stub tie_corpus new_engine = (Ok tt, self) /\
    exists r,
      fst (advanced_rag_pipeline encode_stub norm_exact predict_stub
          Numpy.stable_argsort "interest rate"
             100 100 5 self) = Ok r /\
      NoDup (map doc_id (res_documents r)).
Proof.
  eexists. split; [vm_compute; reflexivity|].
  destruct (advanced_rag_pipeline_documents encode_stub norm_exact predict_stub ln_stub
      Numpy.stable_argsort stable_argsort_ok
              tie_corpus new_engine _ "interest rate" 100 100 5 eq_refl)
    as [r [Run [N _]]].
  exists r. split; [exact Run | exact N].
Defined.

(** ** What [add_node] and [add_edge] write *)

Lemma adj_ensure_node (G : Networkx.DiGraph) (n x : string) :
  graph_closed G ->
  Dict.get_default (Networkx.adj (Networkx.ensure_node G n)) x []
  = Dict.get_default (Networkx.adj G) x [].
Proof.
  intros [C1 _]. unfold Networkx.ensure_node.
  destruct (Networkx.has_node G n) eqn:H; [reflexivity|].
  cbn [Networkx.adj]. rewrite get_default_set.
  destruct (String.eqb_spec n x) as [<-|N]; [|reflexivity].
  rewrite C1 in H. unfold Dict.mem in H. unfold Dict.get_default.
  destruct (Dict.get (Networkx.adj G) n); [discriminate | reflexivity].
Qed.

Lemma has_node_ensure_node (G : Networkx.DiGraph) (n x : string) :
  Networkx.has_node (Networkx.ensure_node G n) x
  = Networkx.has_node G x || String.eqb n x.
Proof.
  unfold Networkx.ensure_node. destruct (Networkx.has_node G n) eqn:H.
  - destruct (String.eqb_spec n x) as [<-|N].
    + rewrite H. reflexivity.
    + now rewrite orb_false_r.
  - unfold Networkx.has_node. cbn [Networkx.node]. rewrite mem_set. apply orb_comm.
Qed.

Lemma edge_data_get (G : Networkx.DiGraph) (u v : string) (data : Networkx.EdgeData) :
  Networkx.edge_data G u v = Ok data
  <-> Dict.get (Dict.get_default (Networkx.adj G) u []) v = Some data.
Proof.
  unfold Networkx.edge_data, Dict.getitem, Dict.get_default.
  destruct (Dict.get (Networkx.adj G) u) as [nbrs|]; cbn [rbind].
  - destruct (Dict.get nbrs v); split; intros H; try discriminate;
      injection H as <-; reflexivity.
  - split; discriminate.
Qed.

Lemma has_edge_get (G : Networkx.DiGraph) (u v : string) :
  Networkx.has_edge G u v = Dict.mem (Dict.get_default (Networkx.adj G) u []) v.
Proof.
  unfold Networkx.has_edge, Dict.get_default.
  destruct (Dict.get (Networkx.adj G) u); reflexivity.
Qed.

Lemma has_edge_edge_data (G : Networkx.DiGraph) (u v : string) :
  Networkx.has_edge G u v = true <-> exists data, Networkx.edge_data G u v = Ok data.
Proof.
  rewrite has_edge_get. unfold Dict.mem. split.
  - destruct (Dict.get _ v) as [data|] eqn:E; [|discriminate].
    intros _. exists data. now apply edge_data_get.
  - intros [data H]. apply edge_data_get in H. now rewrite H.
Qed.

(** The successors of a node after [G.add_edge(u, v, **attr)]. *)
Lemma adj_add_edge (G : Networkx.DiGraph) (u v : string) (attr : Networkx.EdgeData)
    (x : string) :
  graph_closed G ->
  Dict.get_default (Networkx.adj (Networkx.add_edge G u v attr)) x []
  = if String.eqb u x
    then Dict.set (Dict.get_default (Networkx.adj G) u []) v
           match Dict.get (Dict.get_default (Networkx.adj G) u []) v with
           | Some old =>
               {| Networkx.ed_relationship := Networkx.ed_relationship attr;
                  Networkx.ed_weight := Networkx.ed_weight attr;
                  Networkx.ed_extra :=
                    Networkx.update (Networkx.ed_extra old) (Networkx.ed_extra attr) |}
           | None => attr
           end
    else Dict.get_default (Networkx.adj G) x [].
Proof.
  intros C.
  assert (E : forall y,
             Dict.get_default
               (Networkx.adj (Networkx.ensure_node (Networkx.ensure_node G u) v)) y []
             = Dict.get_default (Networkx.adj G) y []).
  { intros y. rewrite adj_ensure_node by now apply graph_closed_ensure_node.
    now apply adj_ensure_node. }
  unfold Networkx.add_edge. cbv zeta. cbn [Networkx.adj].
  rewrite get_default_set, !E. reflexivity.
Qed.

Lemma has_node_add_edge (G : Networkx.DiGraph) (u v : string) (attr : Networkx.EdgeData)
    (x : string) :
  Networkx.has_node (Networkx.add_edge G u v attr) x
  = Networkx.has_node G x || String.eqb u x || String.eqb v x.
Proof.
  unfold Networkx.add_edge. cbv zeta.
  change (Networkx.has_node {| Networkx.node := ?n; Networkx.adj := ?a |} x)
    with (Dict.mem n x).
  change (Dict.mem (Networkx.node ?g) x) with (Networkx.has_node g x).
  now rewrite !has_node_ensure_node.
Qed.

Lemma relationship_of_value_value (r : RelationshipType) :
  relationship_of_value (value r) = Ok r.
Proof. destruct r; reflexivity. Qed.

Lemma keyword_clash_In (named : list string) (metadata : Dict.t string) :
  keyword_clash named metadata = true
  <-> exists k, In k named /\ In k (Dict.keys metadata).
Proof.
  unfold keyword_clash. rewrite existsb_exists. split.
  - intros [k [H1 H2]]. exists k. split; [now apply DictFacts.mem_string_In | exact H1].
  - intros [k [H1 H2]]. exists k. split; [exact H2 | now apply DictFacts.mem_string_In].
Qed.

Lemma stored_edge_get (G : Networkx.DiGraph) (e : GraphEdge) :
  match Dict.get (Dict.get_default (Networkx.adj G) (source_id e) []) (target_id e) with
  | Some old =>
      {| Networkx.ed_relationship := value (relationship e);
         Networkx.ed_weight := weight e;
         Networkx.ed_extra := Networkx.update (Networkx.ed_extra old) (edge_metadata e) |}
  | None => {| Networkx.ed_relationship := value (relationship e);
               Networkx.ed_weight := weight e;
               Networkx.ed_extra := edge_metadata e |}
  end = stored_edge G e.
Proof.
  unfold stored_edge.
  destruct (Dict.get _ (target_id e)) as [old|] eqn:E.
  - apply edge_data_get in E. now rewrite E.
  - destruct (Networkx.edge_data G (source_id e) (target_id e)) as [old|x] eqn:D;
      [|reflexivity].
    apply edge_data_get in D. congruence.
Qed.

Lemma add_edge_run (self : GraphRAG) (e : GraphEdge) :
  keyword_clash ["self"; "u_of_edge"; "v_of_edge"; "relationship"; "weight"] (edge_metadata e)
  = false ->
  add_edge e self
  = (Ok tt,
     {| graph := Networkx.add_edge (graph self) (source_id e) (target_id e)
                   {| Networkx.ed_relationship := value (relationship e);
                      Networkx.ed_weight := weight e;
                      Networkx.ed_extra := edge_metadata e |};
        nodes := nodes self |}).
Proof.
  intros H. unfold add_edge, bind, get_self, put_self. now rewrite H.
Qed.

(** [add_edge] with metadata that repeats no named argument: the call
    returns, the edge is there with the relationship value and the weight of
    [e] (whatever an earlier edge between the two nodes held, whose other
    metadata stays), its end points are nodes of the graph, [self.nodes] is
    as before, the target goes last among the successors of the source when
    the edge is new and keeps its place otherwise, and every other edge is
    as it was. *)
Theorem add_edge_stores (self : GraphRAG) (e : GraphEdge) :
  well_formed self ->
  keyword_clash ["self"; "u_of_edge"; "v_of_edge"; "relationship"; "weight"] (edge_metadata e)
  = false ->
  fst (add_edge e self) = Ok tt /\
  nodes (snd (add_edge e self)) = nodes self /\
  Networkx.edge_data (graph (snd (add_edge e self))) (source_id e) (target_id e)
  = Ok (stored_edge (graph self) e) /\
  relationship_of_value (Networkx.ed_relationship (stored_edge (graph self) e))
  = Ok (relationship e) /\
  Networkx.has_edge (graph (snd (add_edge e self))) (source_id e) (target_id e) = true /\
  (forall x, Networkx.has_node (graph (snd (add_edge e self))) x = true
             <-> Networkx.has_node (graph self) x = true
                 \/ x = source_id e \/ x = target_id e) /\
  Networkx.successors (graph (snd (add_edge e self))) (source_id e)
  = (if Networkx.has_edge (graph self) (source_id e) (target_id e)
     then Networkx.successors (graph self) (source_id e)
     else Networkx.successors (graph self) (source_id e) ++ [target_id e]) /\
  (forall u v,
      u <> source_id e \/ v <> target_id e ->
      Networkx.has_edge (graph (snd (add_edge e self))) u v
      = Networkx.has_edge (graph self) u v /\
      forall data,
        Networkx.edge_data (graph (snd (add_edge e self))) u v = Ok data
        <-> Networkx.edge_data (graph self) u v = Ok data).
Proof.
  intros [_ C] Hk. rewrite (add_edge_run self e Hk). cbn [fst snd graph nodes].
  set (attr := {| Networkx.ed_relationship := value (relationship e);
                  Networkx.ed_weight := weight e;
                  Networkx.ed_extra := edge_metadata e |}).
  assert (A : forall x,
             Dict.get_default
               (Networkx.adj (Networkx.add_edge (graph self) (source_id e) (target_id e) attr))
               x []
             = if String.eqb (source_id e) x
               then Dict.set (Dict.get_default (Networkx.adj (graph self)) (source_id e) [])
                      (target_id e) (stored_edge (graph self) e)
               else Dict.get_default (Networkx.adj (graph self)) x []).
  { intros x. rewrite adj_add_edge by exact C. unfold attr.
    cbn [Networkx.ed_relationship Networkx.ed_weight Networkx.ed_extra].
    now rewrite stored_edge_get. }
  assert (D : Networkx.edge_data (Networkx.add_edge (graph self) (source_id e) (target_id e) attr)
                (source_id e) (target_id e) = Ok (stored_edge (graph self) e)).
  { apply edge_data_get. rewrite A, String.eqb_refl. apply DictFacts.get_set_same. }
  split; [reflexivity|]. split; [reflexivity|]. split; [exact D|].
  split; [apply relationship_of_value_value|].
  split; [apply has_edge_edge_data; eauto|]. split; [|split].
  - intros x. rewrite has_node_add_edge, !orb_true_iff, !String.eqb_eq.
    intuition congruence.
  - unfold Networkx.successors. rewrite A, String.eqb_refl, DictFacts.keys_set.
    now rewrite has_edge_get.
  - intros u v N.
    assert (G : Dict.get (Dict.get_default
                            (Networkx.adj (Networkx.add_edge (graph self) (source_id e)
                                             (target_id e) attr)) u []) v
                = Dict.get (Dict.get_default (Networkx.adj (graph self)) u []) v).
    { rewrite A. destruct (String.eqb_spec (source_id e) u) as [<-|Nu]; [|reflexivity].
      apply DictFacts.get_set_other. destruct N as [N|N]; congruence. }
    split.
    + rewrite !has_edge_get. unfold Dict.mem. now rewrite G.
    + intros data. rewrite !edge_data_get. now rewrite G.
Qed.

Lemma add_edge_stores_witness :
  well_formed financial_graph /\
  Networkx.has_edge
    (graph (snd (add_edge (mk_edge "stocks" "bonds" INVERSE_OF (1 # 2) "rotation")
                   financial_graph))) "stocks" "bonds" = true.
Proof.
  split; [exact well_formed_financial_graph|].
  exact (proj1 (proj2 (proj2 (proj2 (proj2
           (add_edge_stores financial_graph
              (mk_edge "stocks" "bonds" INVERSE_OF (1 # 2) "rotation")
              well_formed_financial_graph eq_refl)))))).
Defined.

(** Metadata that repeats a named argument of the networkx call is a
    [TypeError]. [add_edge] then leaves the object as it was; [add_node] has
    by then stored the node in [self.nodes], and the networkx graph is as it
    was: the node is known by id and name but is no node of the graph. *)
Theorem metadata_keyword_clash (self : GraphRAG) :
  (forall n k,
      In k ["self"; "node_for_adding"; "entity_type"; "name"; "description"] ->
      In k (Dict.keys (node_metadata n)) ->
      (exists msg, fst (add_node n self) = Raise (TypeError msg)) /\
      Dict.get (nodes (snd (add_node n self))) (node_id n) = Some n /\
      graph (snd (add_node n self)) = graph self) /\
  (forall e k,
      In k ["self"; "u_of_edge"; "v_of_edge"; "relationship"; "weight"] ->
      In k (Dict.keys (edge_metadata e)) ->
      exists msg, add_edge e self = (Raise (TypeError msg), self)).
Proof.
  split.
  - intros n k H1 H2.
    assert (Hc : keyword_clash ["self"; "node_for_adding"; "entity_type"; "name"; "description"]
                   (node_metadata n) = true) by (apply keyword_clash_In; eauto).
    unfold add_node, bind, get_self, put_self, raise. cbn [fst snd nodes graph].
    rewrite Hc. cbn [fst snd nodes graph].
    split; [eexists; reflexivity|]. split; [apply DictFacts.get_set_same | reflexivity].
  - intros e k H1 H2.
    assert (Hc : keyword_clash ["self"; "u_of_edge"; "v_of_edge"; "relationship"; "weight"]
                   (edge_metadata e) = true) by (apply keyword_clash_In; eauto).
    unfold add_edge, bind, get_self, raise. rewrite Hc. eexists. reflexivity.
Qed.

Lemma metadata_keyword_clash_witness :
  In "name" ["self"; "node_for_adding"; "entity_type"; "name"; "description"] /\
  In "name" (Dict.keys [("name", "VaR")]) /\
  graph (snd (add_node (mk_node "var" "metric" "Value at Risk" "" [("name", "VaR")])
                new_graph_rag))
  = graph new_graph_rag.
Proof.
  split; [simpl; tauto|]. split; [simpl; tauto|].
  exact (proj2 (proj2 (proj1 (metadata_keyword_clash new_graph_rag)
           (mk_node "var" "metric" "Value at Risk" "" [("name", "VaR")]) "name"
           ltac:(simpl; tauto) ltac:(simpl; tauto)))).
Defined.

(** ** Looking a node up by name *)

Lemma find_after_set (d : Dict.t GraphNode) (n : GraphNode) (f : GraphNode -> bool) :
  f n = true ->
  (forall k m, In (k, m) d -> k <> node_id n -> f m = false) ->
  find f (Dict.values (Dict.set d (node_id n) n)) = Some n.
Proof.
  intros Hn. induction d as [|[k v] r IH]; intros H; simpl.
  - now rewrite Hn.
  - destruct (String.eqb_spec k (node_id n)) as [E|N]; simpl.
    + now rewrite Hn.
    + rewrite (H k v (or_introl eq_refl) N).
      apply IH. intros k0 m Hin. apply H. now right.
Qed.

(** A node just added is found under its own name, in any letter case,
    when no node stored under another id has that name up to letter case.
    This holds also when [add_node] raises on the node's metadata. *)
Theorem find_node_by_name_after_add_node (self : GraphRAG) (n : GraphNode) (nm : string) :
  nodes_keyed self ->
  Str.lower nm = Str.lower (name n) ->
  (forall m, In m (Dict.values (nodes self)) ->
             node_id m <> node_id n -> name_matches nm m = false) ->
  find_node_by_name (snd (add_node n self)) nm = Some n.
Proof.
  intros [_ K] Hnm Hothers. unfold find_node_by_name. rewrite add_node_nodes.
  apply (find_after_set (nodes self) n
           (fun m => String.eqb (Str.lower (name m)) (Str.lower nm))).
  - rewrite Hnm. apply String.eqb_refl.
  - intros k m Hin N. apply Hothers.
    + unfold Dict.values. apply in_map_iff. exists (k, m). auto.
    + now rewrite (K k m Hin).
Qed.

Lemma find_node_by_name_after_add_node_witness :
  nodes_keyed financial_graph /\
  find_node_by_name
    (snd (add_node (mk_node "beta" "metric" "Beta" "Market sensitivity" []) financial_graph))
    "BETA"
  = Some (mk_node "beta" "metric" "Beta" "Market sensitivity" []).
Proof.
  split; [exact (proj1 well_formed_financial_graph)|].
  apply (find_node_by_name_after_add_node financial_graph
           (mk_node "beta" "metric" "Beta" "Market sensitivity" []) "BETA"
           (proj1 well_formed_financial_graph) eq_refl).
  intros m Hin. vm_compute in Hin.
  repeat (destruct Hin as [<-|Hin]; [intros _; vm_compute; reflexivity|]).
  destruct Hin.
Defined.

(** ** The invariants of the object *)

Lemma edges_typed_empty : edges_typed Networkx.empty.
Proof. intros u v data H. discriminate. Qed.

Lemma edge_data_add_node (G : Networkx.DiGraph) (n : string) (attr : Dict.t string)
    (u v : string) (data : Networkx.EdgeData) :
  graph_closed G ->
  Networkx.edge_data (Networkx.add_node G n attr) u v = Ok data ->
  Networkx.edge_data G u v = Ok data.
Proof.
  intros [C1 _]. rewrite !edge_data_get. unfold Networkx.add_node.
  destruct (Networkx.has_node G n) eqn:H; cbn [Networkx.adj]; [tauto|].
  rewrite get_default_set. destruct (String.eqb_spec n u) as [<-|N]; [|tauto].
  discriminate.
Qed.

Lemma edges_typed_add_node (n : GraphNode) (self : GraphRAG) :
  well_formed self -> edges_typed (graph self) ->
  edges_typed (graph (snd (add_node n self))).
Proof.
  intros [_ C] T. rewrite add_node_graph.
  destruct (fst (add_node n self)); [|exact T].
  intros u v data H. apply (T u v). eapply edge_data_add_node; eauto.
Qed.

Lemma edges_typed_add_edge (e : GraphEdge) (self : GraphRAG) :
  well_formed self -> edges_typed (graph self) ->
  edges_typed (graph (snd (add_edge e self))).
Proof.
  intros [_ C] T.
  destruct (keyword_clash ["self"; "u_of_edge"; "v_of_edge"; "relationship"; "weight"]
              (edge_metadata e)) eqn:Hk.
  - unfold add_edge, bind, get_self, raise. rewrite Hk. exact T.
  - rewrite (add_edge_run self e Hk). cbn [snd graph].
    intros u v data H. apply edge_data_get in H.
    rewrite adj_add_edge in H by exact C.
    destruct (String.eqb_spec (source_id e) u) as [<-|Nu];
      [|apply (T u v); now apply edge_data_get].
    destruct (String.eqb_spec (target_id e) v) as [<-|Nv].
    + rewrite DictFacts.get_set_same in H. injection H as <-.
      exists (relationship e). destruct (Dict.get _ (target_id e)); reflexivity.
    + rewrite DictFacts.get_set_other in H by exact Nv.
      apply (T (source_id e) v). now apply edge_data_get.
Qed.

(** Whatever calls of [add_node] and [add_edge] were made on a new object,
    in whatever order and whether they raised or not: every stored node
    stands under its own id, the nodes of the networkx graph are the keys of
    its adjacency, every successor is a node of the graph, and every edge
    carries the value of a [RelationshipType]. *)
Theorem after_calls_invariant (cs : list call) :
  well_formed (after_calls cs) /\ edges_typed (graph (after_calls cs)).
Proof.
  unfold after_calls.
  assert (G : forall s, well_formed s /\ edges_typed (graph s) ->
                        well_formed (fold_left (fun self c => snd (run_call c self)) cs s) /\
                        edges_typed
                          (graph (fold_left (fun self c => snd (run_call c self)) cs s))).
  { induction cs as [|c t IH]; intros s [W T]; [now split|].
    cbn [fold_left]. apply IH. destruct c as [n|e]; cbn [run_call].
    - split; [now apply well_formed_add_node | now apply edges_typed_add_node].
    - split; [now apply well_formed_add_edge | now apply edges_typed_add_edge]. }
  apply G. split; [exact well_formed_new | exact edges_typed_empty].
Qed.

Lemma typed_seq (m k : M GraphRAG unit) :
  (forall s, well_formed s /\ edges_typed (graph s) ->
             well_formed (snd (m s)) /\ edges_typed (graph (snd (m s)))) ->
  (forall s, well_formed s /\ edges_typed (graph s) ->
             well_formed (snd (k s)) /\ edges_typed (graph (snd (k s)))) ->
  forall s, well_formed s /\ edges_typed (graph s) ->
            well_formed (snd (bind m (fun _ => k) s)) /\
            edges_typed (graph (snd (bind m (fun _ => k) s))).
Proof.
  intros Hm Hk s W. unfold bind. specialize (Hm s W).
  destruct (m s) as [[a|e] s']; simpl in *; [now apply Hk | exact Hm].
Qed.

Lemma typed_add_node (n : GraphNode) (s : GraphRAG) :
  well_formed s /\ edges_typed (graph s) ->
  well_formed (snd (add_node n s)) /\ edges_typed (graph (snd (add_node n s))).
Proof.
  intros [W T]. split; [now apply well_formed_add_node | now apply edges_typed_add_node].
Qed.

Lemma typed_add_edge (e : GraphEdge) (s : GraphRAG) :
  well_formed s /\ edges_typed (graph s) ->
  well_formed (snd (add_edge e s)) /\ edges_typed (graph (snd (add_edge e s))).
Proof.
  intros [W T]. split; [now apply well_formed_add_edge | now apply edges_typed_add_edge].
Qed.

Lemma edges_typed_financial_graph : edges_typed (graph financial_graph).
Proof.
  assert (B : forall s, well_formed s /\ edges_typed (graph s) ->
                        well_formed (snd (build_financial_knowledge_graph s)) /\
                        edges_typed (graph (snd (build_financial_knowledge_graph s)))).
  { unfold build_financial_knowledge_graph.
    repeat (apply typed_seq;
            [first [exact (typed_add_node _) | exact (typed_add_edge _)]|]).
    exact (typed_add_edge _). }
  exact (proj2 (B new_graph_rag (conj well_formed_new edges_typed_empty))).
Qed.

(** ** [find_related_nodes]: depth and filter *)

Lemma typed_edge_unfiltered (G : Networkx.DiGraph) (rel : option RelationshipType)
    (u v : string) :
  typed_edge G rel u v -> typed_edge G None u v.
Proof. intros [data [E _]]. exists data. split; [exact E | exact I]. Qed.

Lemma hops_unfiltered (G : Networkx.DiGraph) (rel : option RelationshipType)
    (u : string) (k : nat) (v : string) :
  hops G rel u k v -> hops G None u k v.
Proof.
  induction 1 as [|k w v H IH E]; [constructor|].
  eapply hops_step; [exact IH | eapply typed_edge_unfiltered; eauto].
Qed.

Lemma find_related_nodes_char (self : GraphRAG) (n : string)
    (rel : option RelationshipType) (max_depth : Z) :
  well_formed self ->
  exists found,
    find_related_nodes self n rel max_depth = Some (Ok found) /\
    NoDup found /\
    forall r, In r found <->
              Networkx.has_node (graph self) n = true /\
              within_hops (graph self) rel max_depth n (node_id r) /\
              node_id r <> n /\
              Dict.get (nodes self) (node_id r) = Some r.
Proof.
  intros [K C]. unfold find_related_nodes.
  destruct (Networkx.has_node (graph self) n) eqn:Hn; simpl negb; cbv iota.
  - destruct (bfs_loop_correct (graph self) rel max_depth n C Hn) as [st [E [ND R]]].
    unfold bfs_start in E. rewrite E.
    exists (known_nodes self (related_ids st)). split; [reflexivity|].
    split; [now apply known_nodes_NoDup|].
    intros r. rewrite (known_nodes_In self _ r K), R. tauto.
  - exists []. split; [reflexivity|]. split; [constructor|].
    intros r. split; [intros [] | intros [H _]; discriminate].
Qed.

(** On an object in a state the two writing methods build,
    [find_related_nodes] always returns, without repeating a node. A larger
    [max_depth] and dropping the relationship filter only add nodes, and a
    [max_depth] of 0 or less gives none. *)
Theorem find_related_nodes_monotone (self : GraphRAG) (n : string)
    (rel : option RelationshipType) (d1 d2 : Z) :
  well_formed self ->
  d1 <= d2 ->
  exists narrow wide unfiltered,
    find_related_nodes self n rel d1 = Some (Ok narrow) /\
    find_related_nodes self n rel d2 = Some (Ok wide) /\
    find_related_nodes self n None d2 = Some (Ok unfiltered) /\
    NoDup narrow /\ NoDup wide /\ NoDup unfiltered /\
    incl narrow wide /\
    incl wide unfiltered /\
    (d1 <= 0 -> narrow = []).
Proof.
  intros W Hd.
  destruct (find_related_nodes_char self n rel d1 W) as [f1 [E1 [N1 C1]]].
  destruct (find_related_nodes_char self n rel d2 W) as [f2 [E2 [N2 C2]]].
  destruct (find_related_nodes_char self n None d2 W) as [f3 [E3 [N3 C3]]].
  exists f1, f2, f3. repeat (split; [assumption|]). split; [|split].
  - intros r Hr. apply C2. apply C1 in Hr.
    destruct Hr as [Hn [[k [K1 [K2 H]]] R]]. split; [exact Hn|]. split; [|exact R].
    exists k. split; [exact K1|]. split; [lia | exact H].
  - intros r Hr. apply C3. apply C2 in Hr.
    destruct Hr as [Hn [[k [K1 [K2 H]]] R]]. split; [exact Hn|]. split; [|exact R].
    exists k. split; [exact K1|]. split; [exact K2 | eapply hops_unfiltered; eauto].
  - intros H0. destruct f1 as [|r t]; [reflexivity|]. exfalso.
    destruct (proj1 (C1 r) (or_introl eq_refl)) as [_ [[k [K1 [K2 _]]] _]]. lia.
Qed.

Lemma find_related_nodes_monotone_witness :
  well_formed financial_graph /\ 1 <= 2 /\
  exists narrow wide,
    find_related_nodes financial_graph "interest_rate" (Some AFFECTS) 1 = Some (Ok narrow) /\
    find_related_nodes financial_graph "interest_rate" (Some AFFECTS) 2 = Some (Ok wide) /\
    incl narrow wide.
Proof.
  split; [exact well_formed_financial_graph|]. split; [lia|].
  destruct (find_related_nodes_monotone financial_graph "interest_rate" (Some AFFECTS) 1 2
              well_formed_financial_graph ltac:(lia))
    as [narrow [wide [_ [E1 [E2 [_ [_ [_ [_ [I _]]]]]]]]]].
  exists narrow, wide. auto.
Defined.

(** ** [find_paths]: a direct edge comes first *)

Lemma find_paths_returns (self : GraphRAG) (source target : string) (max_paths : Z) :
  exists paths, find_paths self source target max_paths = Ok paths.
Proof.
  unfold find_paths, Networkx.all_simple_paths.
  destruct (Networkx.has_node (graph self) source);
    destruct (Networkx.has_node (graph self) target); simpl; eexists; reflexivity.
Qed.

Lemma has_edge_nodes (G : Networkx.DiGraph) (u v : string) :
  graph_closed G ->
  Networkx.has_edge G u v = true ->
  Networkx.has_node G u = true /\ Networkx.has_node G v = true /\ is_edge G u v.
Proof.
  intros [C1 C2] H.
  assert (E : is_edge G u v).
  { unfold is_edge, Networkx.successors. apply DictFacts.get_In_keys.
    now rewrite <- has_edge_get. }
  unfold Networkx.has_edge in H.
  destruct (Dict.get (Networkx.adj G) u) as [nbrs|] eqn:A; [|discriminate].
  split; [|split; [|exact E]].
  - rewrite C1. unfold Dict.mem. now rewrite A.
  - apply (C2 u nbrs v A). now apply DictFacts.get_In_keys.
Qed.

Lemma two_node_path (G : Networkx.DiGraph) (c : nat) (s t : string) (p : list string) :
  s <> t ->
  simple_path_within G c s t p ->
  (2 <= List.length p)%nat /\ ((List.length p <= 2)%nat -> p = [s; t]).
Proof.
  intros N [[Hh [Hl [Hne _]]] _].
  destruct p as [|a [|b [|x r]]]; simpl in *; try congruence.
  - split; [lia|]. intros _. congruence.
  - split; [lia|]. intros H. lia.
Qed.

(** When the graph has the edge from [source] to another node [target] and
    at least one path is asked for, the first path returned is the edge
    itself. *)
Theorem find_paths_direct_edge_first (self : GraphRAG) (source target : string)
    (max_paths : Z) :
  well_formed self ->
  Networkx.has_edge (graph self) source target = true ->
  source <> target ->
  1 <= max_paths ->
  exists rest, find_paths self source target max_paths = Ok ([source; target] :: rest).
Proof.
  intros [_ C] He N Hk.
  destruct (has_edge_nodes _ _ _ C He) as [Hs [Ht E]].
  destruct (all_simple_paths_spec _ _ _ Hs Ht) as [all [Ea A]].
  unfold find_paths. rewrite Hs, Ht, Ea. cbn [negb orb rbind].
  pose proof (sorted_asc_nat_perm (@List.length string) all) as P.
  pose proof (sorted_asc_nat_sorted (@List.length string) all) as S.
  assert (Direct : In [source; target] (Py.sorted_asc_nat (@List.length string) all)).
  { apply (Permutation_in _ (Permutation_sym P)), A.
    split; [|split].
    - split; [reflexivity|]. split; [reflexivity|]. split; [discriminate|].
      simpl. split; [exact E | exact I].
    - repeat constructor; simpl; [intros [H|[]]; congruence | tauto].
    - simpl. lia. }
  destruct (Py.sorted_asc_nat (@List.length string) all) as [|p rest] eqn:Es;
    [destruct Direct|].
  assert (Hp : simple_path_within (graph self) 4 source target p).
  { apply A, (Permutation_in _ P). now left. }
  destruct (two_node_path _ _ _ _ _ N Hp) as [L2 Short].
  assert (Le : (List.length p <= 2)%nat).
  { destruct Direct as [Ep|Hin]; [rewrite Ep; simpl; lia|].
    inversion S as [|? ? _ F]; subst. rewrite Forall_forall in F.
    exact (F _ Hin). }
  rewrite (Short Le). rewrite slice_to_nonneg by lia.
  destruct (Z.to_nat max_paths) as [|m] eqn:Em; [lia|].
  simpl. eexists. reflexivity.
Qed.

Lemma find_paths_direct_edge_first_witness :
  well_formed financial_graph /\
  Networkx.has_edge (graph financial_graph) "interest_rate" "inflation" = true /\
  "interest_rate" <> "inflation" /\ 1 <= 3 /\
  exists rest,
    find_paths financial_graph "interest_rate" "inflation" 3
    = Ok (["interest_rate"; "inflation"] :: rest).
Proof.
  split; [exact well_formed_financial_graph|]. split; [reflexivity|].
  split; [discriminate|]. split; [lia|].
  apply (find_paths_direct_edge_first financial_graph "interest_rate" "inflation" 3
           well_formed_financial_graph eq_refl ltac:(discriminate) ltac:(lia)).
Defined.

(** ** [query] *)

Lemma before_cons {A : Type} (a : A) (l : list A) (x y : A) :
  before (a :: l) x y <-> (x = a /\ In y l) \/ before l x y.
Proof.
  unfold before. split.
  - intros [l1 [l2 [l3 E]]]. destruct l1 as [|b l1]; simpl in E; injection E as E1 E2.
    + left. split; [now symmetry|]. rewrite E2. apply in_or_app. right. now left.
    + right. exists l1, l2, l3. exact E2.
  - intros [[-> Hy]|[l1 [l2 [l3 ->]]]].
    + apply in_split in Hy. destruct Hy as [l2 [l3 ->]]. exists [], l2, l3. reflexivity.
    + exists (a :: l1), l2, l3. reflexivity.
Qed.

Lemma before_nil {A : Type} (x y : A) : ~ before [] x y.
Proof. intros [l1 [l2 [l3 E]]]. destruct l1; discriminate. Qed.

Lemma before_In {A : Type} (l : list A) (x y : A) : before l x y -> In x l /\ In y l.
Proof.
  intros [l1 [l2 [l3 ->]]]. split; apply in_or_app; right.
  - now left.
  - right. apply in_or_app. right. now left.
Qed.

Lemma value_inj (r r' : RelationshipType) : value r = value r' -> r = r'.
Proof.
  intros H. apply (f_equal relationship_of_value) in H.
  rewrite !relationship_of_value_value in H. now injection H.
Qed.

Lemma query_pair_spec (self : GraphRAG) (n1 n2 : GraphNode)
    (es : list GraphEdge) (ps : list (list string)) :
  edges_typed (graph self) ->
  exists new_e new_p,
    query_pair self n1 n2 (es, ps) = Ok (es ++ new_e, ps ++ new_p) /\
    find_paths self (node_id n1) (node_id n2) 2 = Ok new_p /\
    forall e, In e new_e <->
              exists r data,
                Networkx.edge_data (graph self) (node_id n1) (node_id n2) = Ok data /\
                Networkx.ed_relationship data = value r /\
                e = reported_edge n1 n2 r data.
Proof.
  intros T. unfold query_pair.
  destruct (find_paths_returns self (node_id n1) (node_id n2) 2) as [paths Ep].
  rewrite Ep. cbn [rbind].
  destruct (Networkx.has_edge (graph self) (node_id n1) (node_id n2)) eqn:He.
  - destruct (proj1 (has_edge_edge_data _ _ _) He) as [data Ed].
    destruct (T _ _ _ Ed) as [r Er].
    rewrite Ed. cbn [rbind]. rewrite Er, relationship_of_value_value. cbn [rbind].
    exists [reported_edge n1 n2 r data], paths.
    split; [reflexivity|]. split; [reflexivity|].
    intros e. split.
    + intros [<-|[]]. exists r, data. auto.
    + intros [r' [data' [Ed' [Er' ->]]]]. left.
      injection Ed' as <-. rewrite Er in Er'. now rewrite (value_inj _ _ Er').
  - exists [], paths. rewrite app_nil_r. split; [reflexivity|]. split; [reflexivity|].
    intros e. split; [intros []|]. intros [r [data [Ed _]]].
    assert (H : Networkx.has_edge (graph self) (node_id n1) (node_id n2) = true)
      by (apply has_edge_edge_data; eauto).
    congruence.
Qed.

Lemma query_inner_spec (self : GraphRAG) (n1 : GraphNode) :
  edges_typed (graph self) ->
  forall later es ps,
  exists new_e new_p,
    query_inner self n1 later (es, ps) = Ok (es ++ new_e, ps ++ new_p) /\
    (forall e, In e new_e <->
               exists n2 r data,
                 In n2 later /\
                 Networkx.edge_data (graph self) (node_id n1) (node_id n2) = Ok data /\
                 Networkx.ed_relationship data = value r /\
                 e = reported_edge n1 n2 r data) /\
    (forall p, In p new_p <->
               exists n2 paths,
                 In n2 later /\
                 find_paths self (node_id n1) (node_id n2) 2 = Ok paths /\
                 In p paths).
Proof.
  intros T. induction later as [|n2 rest IH]; intros es ps; cbn [query_inner].
  - exists [], []. rewrite !app_nil_r. split; [reflexivity|].
    split; intros x; (split; [intros [] | ]).
    + intros [? [? [? [[] _]]]].
    + intros [? [? [[] _]]].
  - destruct (query_pair_spec self n1 n2 es ps T) as [e1 [p1 [E1 [F1 C1]]]].
    rewrite E1. cbn [rbind].
    destruct (IH (es ++ e1) (ps ++ p1)) as [e2 [p2 [E2 [C2 D2]]]].
    exists (e1 ++ e2), (p1 ++ p2). rewrite E2, !app_assoc.
    split; [reflexivity|]. split.
    + intros e. rewrite in_app_iff, C1, C2. split.
      * intros [[r [data H]]|[n [r [data [Hin H]]]]].
        -- exists n2, r, data. split; [now left | exact H].
        -- exists n, r, data. split; [now right | exact H].
      * intros [n [r [data [[<-|Hin] H]]]]; [left | right]; eauto.
    + intros p. rewrite in_app_iff, D2. split.
      * intros [Hp|[n [paths [Hin H]]]].
        -- exists n2, p1. split; [now left|]. split; [exact F1 | exact Hp].
        -- exists n, paths. split; [now right | exact H].
      * intros [n [paths [[<-|Hin] [F Hp]]]].
        -- left. rewrite F1 in F. now injection F as <-.
        -- right. eauto.
Qed.

Lemma query_outer_spec (self : GraphRAG) :
  edges_typed (graph self) ->
  forall ms es ps,
  exists new_e new_p,
    query_outer self ms (es, ps) = Ok (es ++ new_e, ps ++ new_p) /\
    (forall e, In e new_e <->
               exists n1 n2 r data,
                 before ms n1 n2 /\
                 Networkx.edge_data (graph self) (node_id n1) (node_id n2) = Ok data /\
                 Networkx.ed_relationship data = value r /\
                 e = reported_edge n1 n2 r data) /\
    (forall p, In p new_p <->
               exists n1 n2 paths,
                 before ms n1 n2 /\
                 find_paths self (node_id n1) (node_id n2) 2 = Ok paths /\
                 In p paths).
Proof.
  intros T. induction ms as [|n1 later IH]; intros es ps; cbn [query_outer].
  - exists [], []. rewrite !app_nil_r. split; [reflexivity|].
    split; intros x; (split; [intros [] | ]).
    + intros [? [? [? [? [B _]]]]]. exact (before_nil _ _ B).
    + intros [? [? [? [B _]]]]. exact (before_nil _ _ B).
  - destruct (query_inner_spec self n1 T later es ps) as [e1 [p1 [E1 [C1 D1]]]].
    rewrite E1. cbn [rbind].
    destruct (IH (es ++ e1) (ps ++ p1)) as [e2 [p2 [E2 [C2 D2]]]].
    exists (e1 ++ e2), (p1 ++ p2). rewrite E2, !app_assoc.
    split; [reflexivity|]. split.
    + intros e. rewrite in_app_iff, C1, C2. split.
      * intros [[n2 [r [data [Hin H]]]]|[m1 [m2 [r [data [B H]]]]]].
        -- exists n1, n2, r, data. split; [apply before_cons; left; auto | exact H].
        -- exists m1, m2, r, data. split; [apply before_cons; now right | exact H].
      * intros [m1 [m2 [r [data [B H]]]]]. apply before_cons in B.
        destruct B as [[-> Hin]|B]; [left | right]; eauto 6.
    + intros p. rewrite in_app_iff, D1, D2. split.
      * intros [[n2 [paths [Hin H]]]|[m1 [m2 [paths [B H]]]]].
        -- exists n1, n2, paths. split; [apply before_cons; left; auto | exact H].
        -- exists m1, m2, paths. split; [apply before_cons; now right | exact H].
      * intros [m1 [m2 [paths [B H]]]]. apply before_cons in B.
        destruct B as [[-> Hin]|B]; [left | right]; eauto 6.
Qed.

Lemma create_subgraph_description_returns (self : GraphRAG) (ns : list GraphNode)
    (es : list GraphEdge) (paths : list (list string)) :
  (forall e, In e es ->
             Dict.mem (nodes self) (source_id e) = true /\
             Dict.mem (nodes self) (target_id e) = true) ->
  exists d, create_subgraph_description self ns es paths = Ok d.
Proof.
  intros H. unfold create_subgraph_description.
  destruct (is_nil es); cbn [rbind]; [eexists; reflexivity|].
  destruct (rmap_Forall2 (describe_edge self) (fun _ _ => True) (Py.slice_to 5 es))
    as [ds [E _]].
  { intros e Hin. apply slice_to_incl in Hin. destruct (H e Hin) as [Hs Ht].
    unfold describe_edge, Dict.getitem, Dict.mem in *.
    destruct (Dict.get (nodes self) (source_id e)); [|discriminate].
    destruct (Dict.get (nodes self) (target_id e)); [|discriminate].
    cbn [rbind]. eexists. split; [reflexivity | exact I]. }
  rewrite E. cbn [rbind]. eexists. reflexivity.
Qed.

Lemma matching_nodes_stored (self : GraphRAG) (q : string) (max_nodes : Z) (n : GraphNode) :
  nodes_keyed self ->
  In n (matching_nodes self q max_nodes) ->
  Dict.get (nodes self) (node_id n) = Some n /\ node_matches (tokens q) n = true.
Proof.
  intros [ND K] Hin. unfold matching_nodes in Hin. apply slice_to_incl in Hin.
  apply filter_In in Hin. destruct Hin as [Hin M]. split; [|exact M].
  unfold Dict.values in Hin. apply in_map_iff in Hin.
  destruct Hin as [[k m] [E Hin]]. simpl in E. subst m.
  rewrite (K k n Hin). now apply DictFacts.In_get_Some.
Qed.

(** On an object in a state the two writing methods build, [query]
    returns. The nodes of the context are stored nodes whose lower-case
    name contains a token of the query, at most [max_nodes] of them. An edge
    is reported exactly when the graph has it and its source stands before
    its target among those nodes, with the relationship and weight stored
    and no metadata; the paths are those [find_paths] gives, two at most,
    for each such pair of nodes. *)
Theorem query_reports_forward_edges (self : GraphRAG) (q : string) (max_nodes : Z) :
  well_formed self ->
  edges_typed (graph self) ->
  exists ctx,
    query self q max_nodes = Ok ctx /\
    (forall n, In n (ctx_nodes ctx) ->
               Dict.get (nodes self) (node_id n) = Some n /\
               node_matches (tokens q) n = true) /\
    (0 <= max_nodes -> (List.length (ctx_nodes ctx) <= Z.to_nat max_nodes)%nat) /\
    (forall e, In e (ctx_edges ctx) <->
               exists n1 n2 r data,
                 before (ctx_nodes ctx) n1 n2 /\
                 Networkx.edge_data (graph self) (node_id n1) (node_id n2) = Ok data /\
                 Networkx.ed_relationship data = value r /\
                 e = reported_edge n1 n2 r data) /\
    (forall p, In p (ctx_paths ctx) <->
               exists n1 n2 paths,
                 before (ctx_nodes ctx) n1 n2 /\
                 find_paths self (node_id n1) (node_id n2) 2 = Ok paths /\
                 In p paths).
Proof.
  intros [K C] T. unfold query.
  set (ms := matching_nodes self q max_nodes).
  destruct (query_outer_spec self T ms [] []) as [es [ps [E [Ce Cp]]]].
  cbn [app] in E. rewrite E. cbn [rbind fst snd].
  destruct (create_subgraph_description_returns self ms es ps) as [d Ed].
  { intros e He. apply Ce in He. destruct He as [n1 [n2 [r [data [B [_ [_ ->]]]]]]].
    apply before_In in B. destruct B as [B1 B2]. cbn [reported_edge source_id target_id].
    unfold Dict.mem.
    rewrite (proj1 (matching_nodes_stored self q max_nodes n1 K B1)).
    now rewrite (proj1 (matching_nodes_stored self q max_nodes n2 K B2)). }
  rewrite Ed. cbn [rbind]. eexists. split; [reflexivity|].
  cbn [ctx_nodes ctx_edges ctx_paths].
  split; [intros n Hn; now apply (matching_nodes_stored self q max_nodes)|].
  split; [intros Hk; unfold ms, matching_nodes; now apply slice_to_length|].
  split; [exact Ce | exact Cp].
Qed.

Lemma query_reports_forward_edges_witness :
  well_formed financial_graph /\
  edges_typed (graph financial_graph) /\
  exists ctx,
    query financial_graph "interest rate and inflation" 10 = Ok ctx /\
    (0 <= 10 -> (List.length (ctx_nodes ctx) <= Z.to_nat 10)%nat).
Proof.
  split; [exact well_formed_financial_graph|].
  split; [exact edges_typed_financial_graph|].
  destruct (query_reports_forward_edges financial_graph "interest rate and inflation" 10
              well_formed_financial_graph edges_typed_financial_graph)
    as [ctx [E [_ [L _]]]].
  exists ctx. split; [exact E | exact L].
Defined.

Lemma filter_none {A : Type} (f : A -> bool) (l : list A) :
  (forall x, In x l -> f x = false) -> filter f l = [].
Proof.
  induction l as [|x t IH]; intros H; simpl; [reflexivity|].
  rewrite (H x (or_introl eq_refl)). apply IH. intros y Hy. apply H. now right.
Qed.

Lemma slice_to_nil {A : Type} (n : Z) : Py.slice_to n (@nil A) = [].
Proof. unfold Py.slice_to. destruct (0 <=? n); apply firstn_nil. Qed.

(** A query without a token, a query none of whose tokens occurs in the
    lower-case name of a stored node, and [max_nodes = 0] all give the empty
    context with the description ["No relevant context found"], whatever the
    state of the object. *)
Theorem query_no_match (self : GraphRAG) (q : string) (max_nodes : Z) :
  tokens q = [] \/
  max_nodes = 0 \/
  (forall n, In n (Dict.values (nodes self)) -> node_matches (tokens q) n = false) ->
  query self q max_nodes
  = Ok {| ctx_nodes := [];
          ctx_edges := [];
          ctx_paths := [];
          subgraph_description := "No relevant context found" |}.
Proof.
  intros H.
  assert (E : matching_nodes self q max_nodes = []).
  { unfold matching_nodes. fold (tokens q). destruct H as [H|[H|H]].
    - rewrite H. rewrite filter_none; [apply slice_to_nil | reflexivity].
    - subst max_nodes. reflexivity.
    - rewrite filter_none by exact H. apply slice_to_nil. }
  unfold query. rewrite E. reflexivity.
Qed.

Lemma query_no_match_witness :
  tokens "  " = [] /\
  query financial_graph "  " 10
  = Ok {| ctx_nodes := [];
          ctx_edges := [];
          ctx_paths := [];
          subgraph_description := "No relevant context found" |}.
Proof.
  split; [reflexivity|].
  apply (query_no_match financial_graph "  " 10). left. reflexivity.
Defined.

(** ** The callers: [VectorDatabase] and [DataAgent] *)

Lemma StronglySorted_unmap {A B : Type} (f : A -> B) (R : B -> B -> Prop) (l : list A) :
  StronglySorted R (map f l) -> StronglySorted (fun a b => R (f a) (f b)) l.
Proof.
  induction l as [|x t IH]; simpl; intros H; [constructor|].
  inversion H as [|? ? S F]; subst. constructor; [now apply IH|].
  rewrite Forall_forall in *. intros y Hy. apply F. now apply in_map.
Qed.

Lemma database_eta (db : VectorDatabase) :
  {| connection_string := connection_string db; search_engine := search_engine db |} = db.
Proof. destruct db; reflexivity. Qed.

Lemma agent_eta (agent : DataAgent) :
  {| vector_db := vector_db agent; graph_rag := graph_rag agent |} = agent.
Proof. destruct agent; reflexivity. Qed.

Section Callers.
Variable encode : string -> list Q.
Variable norm : list Q -> Q.
Variable predict : string -> string -> Q.
Variable ln : Q -> Q.
(** [np.argsort]: any function that does what numpy promises. *)
Variable argsort : list Q -> list nat.
Hypothesis argsort_ok : Numpy.is_argsort argsort.

(** [hybrid_search] in terms of the pipeline it calls. *)
Lemma hybrid_search_run (query : string) (top_k : Z) (db : VectorDatabase) :
  hybrid_search encode norm predict argsort query top_k db
  = (match fst (advanced_rag_pipeline encode norm predict argsort query 100 100 top_k
                  (search_engine db)) with
     | Ok r => Ok (res_documents r)
     | Raise e => Raise e
     end, db).
Proof.
  unfold hybrid_search, bind, on_search_engine, ret.
  pose proof (proj1 (pipeline_run encode norm predict argsort query 100 100 top_k
                       (search_engine db))) as S.
  destruct (advanced_rag_pipeline encode norm predict argsort query 100 100 top_k
              (search_engine db)) as [[r|e] s]; simpl in S; subst s; simpl;
    now rewrite database_eta.
Qed.

(** [execute] in terms of its two calls. *)
Lemma execute_run (user_query : string) (agent : DataAgent) :
  execute encode norm predict argsort user_query agent
  = (match fst (hybrid_search encode norm predict argsort user_query 5 (vector_db agent)) with
     | Ok rag_docs =>
         match query (graph_rag agent) user_query 10 with
         | Ok graph_context =>
             Ok {| rag_context := rag_docs;
                   graph_rag_context := ctx_nodes graph_context |}
         | Raise e => Raise e
         end
     | Raise e => Raise e
     end, agent).
Proof.
  unfold execute, bind, on_vector_db, get_self, lift, ret.
  rewrite hybrid_search_run. cbn [fst snd].
  destruct (fst (advanced_rag_pipeline encode norm predict argsort user_query 100 100 5
                   (search_engine (vector_db agent)))) as [r|e];
    rewrite agent_eta; [|reflexivity].
  cbn [graph_rag]. destruct (query (graph_rag agent) user_query 10); reflexivity.
Qed.

(** After an [insert] that returned, every [hybrid_search] returns
    documents of the inserted corpus, whatever the database held before:
    at most [top_k] of them, with pairwise distinct [doc_id]s, in the order
    of their cross-encoder scores, highest first; the database is left as
    it was, and [insert] does not touch the connection string. *)
Theorem insert_then_hybrid_search (db db' : VectorDatabase) (docs : list Document)
    (query : string) (top_k : Z) :
  insert encode ln docs db = (Ok tt, db') ->
  connection_string db' = connection_string db /\
  exists found,
    hybrid_search encode norm predict argsort query top_k db' = (Ok found, db') /\
    (0 <= top_k -> (List.length found <= Z.to_nat top_k)%nat) /\
    NoDup (map doc_id found) /\
    (forall d, In d found -> In d docs) /\
    StronglySorted
      (fun a b => (predict query (content b) <= predict query (content a))%Q) found.
Proof.
  unfold insert, on_search_engine.
  destruct (index_documents encode ln docs (search_engine db)) as [r e] eqn:Hidx.
  intros [= -> <-]. cbn [connection_string search_engine].
  split; [reflexivity|].
  destruct (pipeline_documents_spec encode norm predict ln argsort argsort_ok
              docs (search_engine db) e
              query 100 100 top_k Hidx) as [res [Run [L [N [I [Sc So]]]]]].
  exists (res_documents res). rewrite hybrid_search_run. cbn [search_engine].
  rewrite Run. split; [reflexivity|]. split; [exact L|]. split; [exact N|].
  split; [exact I|]. rewrite Sc in So. now apply StronglySorted_unmap in So.
Qed.

(** On a database on which nothing was inserted, and on a new one whose
    [insert] of a corpus that is not empty raised, [hybrid_search] raises
    the not-indexed error and leaves the database as it was; such an
    [insert] can only raise [ZeroDivisionError]. [DataAgent.execute] passes
    the error on without having queried the graph. *)
Theorem hybrid_search_not_indexed (query : string) (top_k : Z) :
  (forall db,
      embeddings (search_engine db) = None ->
      hybrid_search encode norm predict argsort query top_k db = (Raise not_indexed, db)) /\
  (forall cs,
      hybrid_search encode norm predict argsort query top_k (new_vector_database cs)
      = (Raise not_indexed, new_vector_database cs)) /\
  (forall cs docs e db',
      docs <> [] ->
      insert encode ln docs (new_vector_database cs) = (Raise e, db') ->
      e = ZeroDivisionError /\
      hybrid_search encode norm predict argsort query top_k db' = (Raise not_indexed, db')) /\
  (forall agent,
      embeddings (search_engine (vector_db agent)) = None ->
      execute encode norm predict argsort query agent = (Raise not_indexed, agent)).
Proof.
  assert (None_ : forall q k db,
             embeddings (search_engine db) = None ->
             hybrid_search encode norm predict argsort q k db = (Raise not_indexed, db)).
  { intros q k db H. rewrite hybrid_search_run.
    unfold advanced_rag_pipeline, dense_search, bind, get_self, raise.
    cbv beta iota. now rewrite H. }
  split; [intros db; apply None_|]. split; [intros cs; now apply None_|]. split.
  - intros cs docs e db' _. unfold insert, on_search_engine.
    rewrite index_documents_run. cbn [search_engine new_vector_database].
    destruct (has_token_dec (tokenized docs)) as [Hsome|Hnone].
    + destruct (make_ok ln (tokenized docs) Hsome) as [m Em]. rewrite Em. discriminate.
    + rewrite (make_raises ln (tokenized docs) Hnone). intros [= <- <-].
      split; [reflexivity|]. rewrite hybrid_search_run. cbn [search_engine].
      set (eng := {| documents := docs;
                     embeddings := Some (map encode (map content docs));
                     bm25 := None |}).
      destruct (dense_search_ranked encode norm argsort argsort_ok docs eng query eq_refl eq_refl)
        as [idxs [full [_ [_ Run]]]].
      unfold advanced_rag_pipeline, bind.
      pose proof (dense_search_state encode norm argsort query 100 eng) as Sd.
      specialize (Run 100).
      destruct (dense_search encode norm argsort query 100 eng) as [r1 s1].
      simpl in Sd, Run. subst s1 r1. reflexivity.
  - intros agent H. rewrite execute_run, (None_ query 5 _ H). reflexivity.
Qed.

(** With an indexed database and a graph in a state its two writing
    methods build, [execute] returns and leaves the agent as it was. Its
    [rag_context] holds at most 5 documents of the indexed corpus with
    pairwise distinct [doc_id]s, its [graph_rag_context] at most 10 stored
    nodes whose name contains a token of the query, and the score that
    [AgentState.to_dict] writes beside a document's content is the [score]
    field the document was indexed with. *)
Theorem execute_returns (agent : DataAgent) (docs : list Document) (self0 : Engine)
    (user_query : string) :
  index_documents encode ln docs self0 = (Ok tt, search_engine (vector_db agent)) ->
  well_formed (graph_rag agent) ->
  edges_typed (graph (graph_rag agent)) ->
  exists out,
    execute encode norm predict argsort user_query agent = (Ok out, agent) /\
    (List.length (rag_context out) <= 5)%nat /\
    NoDup (map doc_id (rag_context out)) /\
    (forall d, In d (rag_context out) -> In d docs) /\
    (forall c s, In (c, s) (rag_context_to_dict (rag_context out)) ->
                 exists d, In d docs /\ content d = c /\ score d = s) /\
    (List.length (graph_rag_context out) <= 10)%nat /\
    (forall n, In n (graph_rag_context out) ->
               Dict.get (nodes (graph_rag agent)) (node_id n) = Some n /\
               node_matches (tokens user_query) n = true).
Proof.
  intros Hidx W T.
  destruct (pipeline_documents_spec encode norm predict ln argsort argsort_ok docs self0 _
              user_query 100 100 5 Hidx) as [res [Run [L [N [I _]]]]].
  destruct (query_outer_spec (graph_rag agent) T
              (matching_nodes (graph_rag agent) user_query 10) [] [])
    as [es [ps [E [Ce _]]]].
  cbn [app] in E.
  destruct (create_subgraph_description_returns (graph_rag agent)
              (matching_nodes (graph_rag agent) user_query 10) es ps) as [d Ed].
  { intros e He. apply Ce in He. destruct He as [n1 [n2 [r [data [B [_ [_ ->]]]]]]].
    apply before_In in B. destruct B as [B1 B2]. cbn [reported_edge source_id target_id].
    unfold Dict.mem.
    rewrite (proj1 (matching_nodes_stored _ user_query 10 n1 (proj1 W) B1)).
    now rewrite (proj1 (matching_nodes_stored _ user_query 10 n2 (proj1 W) B2)). }
  rewrite execute_run, hybrid_search_run. cbn [fst]. rewrite Run.
  unfold query. rewrite E. cbn [rbind fst snd]. rewrite Ed. cbn [rbind].
  eexists. split; [reflexivity|]. cbn [rag_context graph_rag_context ctx_nodes].
  split; [exact (L ltac:(lia))|]. split; [exact N|]. split; [exact I|].
  split; [|split].
  - intros c s Hin. unfold rag_context_to_dict in Hin. apply in_map_iff in Hin.
    destruct Hin as [doc [[= <- <-] Hin]]. exists doc. auto.
  - unfold matching_nodes. exact (slice_to_length 10 _ ltac:(lia)).
  - intros n Hn. now apply (matching_nodes_stored _ user_query 10 n (proj1 W)).
Qed.
End Callers.

Lemma hybrid_search_not_indexed_witness :
  embeddings (search_engine (new_vector_database None)) = None /\
  hybrid_search encode_stub norm_exact predict_stub
      Numpy.stable_argsort "rate" 5 (new_vector_database None)
  = (Raise not_indexed, new_vector_database None).
Proof.
  split; [reflexivity|].
  exact (proj1 (hybrid_search_not_indexed encode_stub norm_exact predict_stub ln_stub
      Numpy.stable_argsort stable_argsort_ok
                  "rate" 5) (new_vector_database None) eq_refl).
Defined.

Lemma insert_then_hybrid_search_witness :
  exists db',
    insert encode_stub ln_stub tie_corpus (new_vector_database None) = (Ok tt, db') /\
    connection_string db' = "postgresql://localhost/finrisk_db".
Proof.
  eexists. split; [vm_compute; reflexivity|].
  exact (proj1 (insert_then_hybrid_search encode_stub norm_exact predict_stub ln_stub
                  Numpy.stable_argsort stable_argsort_ok
                  (new_vector_database None) _ tie_corpus "rate" 5 eq_refl)).
Defined.

Lemma execute_returns_witness :
  exists engine,
    index_documents encode_stub ln_stub tie_corpus new_engine = (Ok tt, engine) /\
    well_formed financial_graph /\
    edges_typed (graph financial_graph) /\
    exists out,
      execute encode_stub norm_exact predict_stub Numpy.stable_argsort "interest rate"
        {| vector_db := {| connection_string := "postgresql://localhost/finrisk_db";
                           search_engine := engine |};
           graph_rag := financial_graph |}
      = (Ok out,
         {| vector_db := {| connection_string := "postgresql://localhost/finrisk_db";
                            search_engine := engine |};
            graph_rag := financial_graph |}) /\
      (List.length (rag_context out) <= 5)%nat.
Proof.
  eexists. split; [vm_compute; reflexivity|].
  split; [exact well_formed_financial_graph|].
  split; [exact edges_typed_financial_graph|].
  destruct (execute_returns encode_stub norm_exact predict_stub ln_stub
      Numpy.stable_argsort stable_argsort_ok
              {| vector_db := {| connection_string := "postgresql://localhost/finrisk_db";
                                 search_engine := _ |};
                 graph_rag := financial_graph |}
              tie_corpus new_engine "interest rate" eq_refl
              well_formed_financial_graph edges_typed_financial_graph)
    as [out [E [L _]]].
  exists out. split; [exact E | exact L].
Defined.

Lemma index_documents_succeeds_iff_witness :
  (forall d, In d [] -> tokens (content d) = []) /\
  fst (index_documents encode_stub ln_stub [] new_engine) = Raise ZeroDivisionError.
Proof.
  split; [intros d []|].
  apply (proj1 (proj2 (index_documents_succeeds_iff encode_stub ln_stub [] new_engine))).
  intros d [].
Defined.

Lemma index_documents_replaces_witness :
  exists self,
    index_documents encode_stub ln_stub tie_corpus new_engine = (Ok tt, self) /\
    index_documents encode_stub ln_stub tie_corpus self = (Ok tt, self).
Proof.
  eexists. split; [vm_compute; reflexivity|].
  exact (proj1 (index_documents_replaces encode_stub ln_stub tie_corpus)
           new_engine _ _ eq_refl).
Defined.

(** ** What [add_node] writes to the graph *)

Lemma update_get_other {V : Type} (attr d : Dict.t V) (k : string) :
  ~ In k (Dict.keys attr) ->
  Dict.get (Networkx.update d attr) k = Dict.get d k.
Proof.
  unfold Networkx.update. revert d.
  induction attr as [|[k' v'] r IH]; intros d H; simpl; [reflexivity|].
  simpl in H. rewrite IH by tauto.
  apply DictFacts.get_set_other. intros E. apply H. now left.
Qed.

Lemma update_keys_NoDup {V : Type} (attr d : Dict.t V) :
  NoDup (Dict.keys d) -> NoDup (Dict.keys (Networkx.update d attr)).
Proof.
  unfold Networkx.update. revert d.
  induction attr as [|[k' v'] r IH]; intros d H; simpl; [exact H|].
  apply IH. now apply DictFacts.NoDup_keys_set.
Qed.

Lemma update_get_new {V : Type} (attr d : Dict.t V) (k : string) (v : V) :
  NoDup (Dict.keys attr) ->
  Dict.get attr k = Some v ->
  Dict.get (Networkx.update d attr) k = Some v.
Proof.
  revert d. induction attr as [|[k' v'] r IH]; intros d ND H; [discriminate|].
  simpl in H. inversion ND as [|? ? Hk ND']; subst.
  change (Networkx.update d ((k', v') :: r))
    with (Networkx.update (Dict.set d k' v') r).
  destruct (String.eqb_spec k' k) as [->|N].
  - injection H as <-. rewrite update_get_other by exact Hk.
    apply DictFacts.get_set_same.
  - now apply IH.
Qed.

Lemma add_node_run (self : GraphRAG) (n : GraphNode) :
  keyword_clash ["self"; "node_for_adding"; "entity_type"; "name"; "description"]
                (node_metadata n) = false ->
  add_node n self
  = (Ok tt,
     {| graph := Networkx.add_node (graph self) (node_id n)
                   (Networkx.update
                      [("entity_type", entity_type n); ("name", name n);
                       ("description", description n)]
                      (node_metadata n));
        nodes := Dict.set (nodes self) (node_id n) n |}).
Proof.
  intros H. unfold add_node, bind, get_self, put_self. cbn [fst snd nodes graph].
  now rewrite H.
Qed.

Lemma adj_add_node (G : Networkx.DiGraph) (n : string) (attr : Dict.t string) (x : string) :
  graph_closed G ->
  Dict.get_default (Networkx.adj (Networkx.add_node G n attr)) x []
  = Dict.get_default (Networkx.adj G) x [].
Proof.
  intros [C1 _]. unfold Networkx.add_node.
  destruct (Networkx.has_node G n) eqn:H; cbn [Networkx.adj]; [reflexivity|].
  rewrite get_default_set. destruct (String.eqb_spec n x) as [<-|N]; [|reflexivity].
  rewrite C1 in H. unfold Dict.mem in H. unfold Dict.get_default.
  destruct (Dict.get (Networkx.adj G) n); [discriminate | reflexivity].
Qed.

Lemma has_node_add_node (G : Networkx.DiGraph) (n : string) (attr : Dict.t string)
    (x : string) :
  Networkx.has_node (Networkx.add_node G n attr) x
  = Networkx.has_node G x || String.eqb n x.
Proof.
  unfold Networkx.add_node.
  destruct (Networkx.has_node G n) eqn:H; unfold Networkx.has_node in *;
    cbn [Networkx.node]; rewrite mem_set; apply orb_comm.
Qed.

(** [add_node] with metadata that repeats no named argument, on a
    well-formed object: the call returns, the node stands under its id in
    [self.nodes] and no other entry changes, its id is a node of the graph
    whose attributes hold the node's type, name and description, and no
    edge of the graph is added, removed or changed, also when the id was
    there before. *)
Theorem add_node_stores (self : GraphRAG) (n : GraphNode) :
  well_formed self ->
  keyword_clash ["self"; "node_for_adding"; "entity_type"; "name"; "description"]
                (node_metadata n) = false ->
  fst (add_node n self) = Ok tt /\
  Dict.get (nodes (snd (add_node n self))) (node_id n) = Some n /\
  (forall k, k <> node_id n ->
             Dict.get (nodes (snd (add_node n self))) k = Dict.get (nodes self) k) /\
  (forall x, Networkx.has_node (graph (snd (add_node n self))) x = true
             <-> Networkx.has_node (graph self) x = true \/ x = node_id n) /\
  (exists attrs,
      Dict.get (Networkx.node (graph (snd (add_node n self)))) (node_id n) = Some attrs /\
      Dict.get attrs "entity_type" = Some (entity_type n) /\
      Dict.get attrs "name" = Some (name n) /\
      Dict.get attrs "description" = Some (description n)) /\
  (forall u, Networkx.successors (graph (snd (add_node n self))) u
             = Networkx.successors (graph self) u) /\
  (forall u v, Networkx.has_edge (graph (snd (add_node n self))) u v
               = Networkx.has_edge (graph self) u v) /\
  (forall u v data,
      Networkx.edge_data (graph (snd (add_node n self))) u v = Ok data
      <-> Networkx.edge_data (graph self) u v = Ok data).
Proof.
  intros [_ C] Hk. rewrite (add_node_run self n Hk). cbn [fst snd graph nodes].
  set (named := [("entity_type", entity_type n); ("name", name n);
                 ("description", description n)]).
  set (attr := Networkx.update named (node_metadata n)).
  assert (Named : forall k v, In k ["entity_type"; "name"; "description"] ->
                              Dict.get named k = Some v -> Dict.get attr k = Some v).
  { intros k v Hin G. unfold attr. rewrite update_get_other; [exact G|].
    intros Hm.
    assert (Hc : keyword_clash ["self"; "node_for_adding"; "entity_type"; "name"; "description"]
                   (node_metadata n) = true).
    { apply keyword_clash_In. exists k. split; [right; right; exact Hin | exact Hm]. }
    congruence. }
  assert (NDa : NoDup (Dict.keys attr)).
  { unfold attr. apply update_keys_NoDup. unfold named. simpl.
    repeat constructor; simpl; intuition discriminate. }
  split; [reflexivity|]. split; [apply DictFacts.get_set_same|].
  split; [intros k N; apply DictFacts.get_set_other; congruence|].
  split; [|split; [|split; [|split]]].
  - intros x. rewrite has_node_add_node, orb_true_iff, String.eqb_eq.
    intuition congruence.
  - unfold Networkx.add_node.
    destruct (Networkx.has_node (graph self) (node_id n)); cbn [Networkx.node];
      rewrite DictFacts.get_set_same; eexists; (split; [reflexivity|]).
    + repeat split; (apply update_get_new; [exact NDa|]); apply Named;
        simpl; auto; unfold named; reflexivity.
    + repeat split; apply Named; simpl; auto; unfold named; reflexivity.
  - intros u. unfold Networkx.successors. now rewrite adj_add_node.
  - intros u v. rewrite !has_edge_get. now rewrite adj_add_node.
  - intros u v data. rewrite !edge_data_get. now rewrite adj_add_node.
Qed.

Lemma add_node_stores_witness :
  well_formed financial_graph /\
  Networkx.has_edge
    (graph (snd (add_node (mk_node "var" "metric" "VaR" "Value at risk" []) financial_graph)))
    "volatility" "var"
  = Networkx.has_edge (graph financial_graph) "volatility" "var".
Proof.
  split; [exact well_formed_financial_graph|].
  destruct (add_node_stores financial_graph
              (mk_node "var" "metric" "VaR" "Value at risk" [])
              well_formed_financial_graph eq_refl) as [_ [_ [_ [_ [_ [_ [H _]]]]]]].
  exact (H "volatility" "var").
Defined.

(** ** An edge just added, seen from [find_related_nodes] *)

(** After [add_edge] of an edge between two different nodes, on a
    well-formed object: a search from the source of depth 1 or more finds
    the target's stored node, with no filter and with the edge's own
    relationship as filter; when the target has no stored node the search
    returns nothing under the target's id; and a search of depth 1 with
    another relationship as filter does not find the target. *)
Theorem add_edge_then_find_related_nodes (self : GraphRAG) (e : GraphEdge) :
  well_formed self ->
  keyword_clash ["self"; "u_of_edge"; "v_of_edge"; "relationship"; "weight"] (edge_metadata e)
  = false ->
  source_id e <> target_id e ->
  forall (rel : option RelationshipType) (max_depth : Z),
  exists found,
    find_related_nodes (snd (add_edge e self)) (source_id e) rel max_depth
    = Some (Ok found) /\
    (forall nt,
        Dict.get (nodes self) (target_id e) = Some nt ->
        1 <= max_depth ->
        rel = None \/ rel = Some (relationship e) ->
        In nt found) /\
    (Dict.get (nodes self) (target_id e) = None ->
     forall r, In r found -> node_id r <> target_id e) /\
    (forall r', rel = Some r' -> r' <> relationship e -> max_depth = 1 ->
                forall r, In r found -> node_id r <> target_id e).
Proof.
  intros W Hk Hst rel max_depth.
  pose proof (well_formed_add_edge e self W) as W'.
  destruct (find_related_nodes_char (snd (add_edge e self)) (source_id e) rel max_depth W')
    as [found [E [_ Char]]].
  exists found. split; [exact E|].
  assert (Nodes : nodes (snd (add_edge e self)) = nodes self) by apply add_edge_nodes.
  assert (D : Networkx.edge_data (graph (snd (add_edge e self))) (source_id e) (target_id e)
              = Ok (stored_edge (graph self) e)).
  { rewrite (add_edge_run self e Hk). cbn [snd graph].
    apply edge_data_get. rewrite adj_add_edge by exact (proj2 W).
    rewrite String.eqb_refl.
    cbn [Networkx.ed_relationship Networkx.ed_weight Networkx.ed_extra].
    rewrite stored_edge_get. apply DictFacts.get_set_same. }
  split; [|split].
  - intros nt Hnt Hd Hrel. apply Char.
    assert (Hid : node_id nt = target_id e).
    { destruct W as [[_ K] _]. apply K. now apply DictFacts.get_Some_In. }
    rewrite Hid. split; [|split; [|split]].
    + rewrite (add_edge_run self e Hk). cbn [snd graph].
      rewrite has_node_add_edge, String.eqb_refl. now rewrite orb_true_r.
    + exists 1%nat. split; [lia|]. split; [exact Hd|]. apply hops_one.
      exists (stored_edge (graph self) e). split; [exact D|].
      destruct Hrel as [-> | ->]; [exact I | reflexivity].
    + congruence.
    + rewrite Nodes, <- Hid. rewrite Hid. exact Hnt.
  - intros Hnone r Hr Hid. apply Char in Hr. destruct Hr as [_ [_ [_ G]]].
    rewrite Nodes, Hid in G. congruence.
  - intros r' -> Hr' -> r Hr Hid. apply Char in Hr. destruct Hr as [_ [H _]].
    apply within_one_hop in H. rewrite Hid in H. destruct H as [data [Ed F]].
    rewrite D in Ed. injection Ed as <-.
    unfold passes, stored_edge in F. cbn [Networkx.ed_relationship] in F.
    apply value_inj in F. congruence.
Qed.

Lemma add_edge_then_find_related_nodes_witness :
  well_formed financial_graph /\
  "stocks" <> "bonds" /\
  exists found,
    find_related_nodes
      (snd (add_edge (mk_edge "stocks" "bonds" INVERSE_OF (1 # 2) "rotation")
              financial_graph)) "stocks" (Some INVERSE_OF) 1
    = Some (Ok found) /\
    In (mk_node "bonds" "asset" "Bonds" "Fixed income securities"
          [("category", "fixed_income")]) found.
Proof.
  split; [exact well_formed_financial_graph|]. split; [discriminate|].
  destruct (add_edge_then_find_related_nodes financial_graph
              (mk_edge "stocks" "bonds" INVERSE_OF (1 # 2) "rotation")
              well_formed_financial_graph eq_refl ltac:(discriminate)
              (Some INVERSE_OF) 1) as [found [E [H _]]].
  exists found. split; [exact E|].
  apply H; [reflexivity | lia | now right].
Defined.
